(** * The Tide search core of crux-toolkit

    A shallow embedding of the spectrum preprocessor
    ([app/tide/spectrum_preprocess2.cc]) and of the search driver
    ([app/TideSearchApplication.cpp]): background subtraction, region
    normalisation, the integer peak cache, the sparse dot product, the
    isotope-error parser, the precursor window and the exact p-value
    table.

    C++ [int] is a [Z] with the 32-bit wrap-around written out.  C++
    [double] is an interface, [DoubleOps], that the functions are
    written against once and that has two instances:
    - [B64.ops]: IEEE 754 binary64 as specified by the standard
      library's [SpecFloat] (round to nearest even, signed zeros,
      infinities, NaN).  It is executable and is the arithmetic the
      compiled program performs.
    - [XR.ops]: extended reals, i.e. the same special values but
      infinitely precise finite numbers.  It is the arithmetic in which
      "the mean cancels exactly" can be stated at all.

    Constants, macros and helpers that live in headers outside the
    translated files are gathered in the class [Headers]. *)

From Stdlib Require Import ZArith List Bool Lia Reals Lra String Ascii.
From Stdlib Require Import Floats.SpecFloat.
From Stdlib Require Import Sorting.Permutation Sorting.Sorted.
From stdpp Require Import base list.
Import ListNotations.

Local Open Scope Z_scope.

(** ** Machine integers *)

Module Int32.

Definition min_signed : Z := - 2 ^ 31.
Definition max_signed : Z := 2 ^ 31 - 1.

Definition in_range (z : Z) : Prop := min_signed <= z <= max_signed.

(** Two's complement reduction of an unbounded integer to [int]. *)
Definition wrap (z : Z) : Z := (z + 2 ^ 31) mod 2 ^ 32 - 2 ^ 31.

Definition add (x y : Z) : Z := wrap (x + y).
Definition sub (x y : Z) : Z := wrap (x - y).
Definition mul (x y : Z) : Z := wrap (x * y).

End Int32.

Module UInt32.

(** The conversion of an [int] to [unsigned int]: reduction modulo
    2^32. *)
Definition of_int (z : Z) : Z := z mod 2 ^ 32.

End UInt32.

(** ** The [double] interface *)

Class DoubleOps (D : Type) : Type := {
  of_int : Z -> D;                (* int -> double conversion        *)
  dadd : D -> D -> D;
  dsub : D -> D -> D;
  dmul : D -> D -> D;
  ddiv : D -> D -> D;
  dsqrt : D -> D;
  dfabs : D -> D;
  dlt : D -> D -> bool;           (* x < y                           *)
  dle : D -> D -> bool;           (* x <= y                          *)
  deq : D -> D -> bool;           (* x == y                          *)
  to_int : D -> Z                 (* (int) x, truncation toward zero *)
}.

(** [log] and [exp] come from the C mathematics library. *)
Class DoubleMath (D : Type) : Type := {
  dlog : D -> D;
  dexp : D -> D
}.

Declare Scope double_scope.
Delimit Scope double_scope with D.
Infix "+" := dadd : double_scope.
Infix "-" := dsub : double_scope.
Infix "*" := dmul : double_scope.
Infix "/" := ddiv : double_scope.
Infix "<?" := dlt : double_scope.
Infix "<=?" := dle : double_scope.
Infix "==?" := deq (at level 70) : double_scope.
Notation "x >? y" := (dlt y x) (only parsing) : double_scope.
Notation "x >=? y" := (dle y x) (only parsing) : double_scope.
Notation "x !=? y" := (negb (deq x y)) (at level 70) : double_scope.

(** A decimal literal [n / d] with [n] and [d] exactly representable:
    one correctly rounded division gives the double nearest to the
    decimal, which is what the compiler stores for the literal. *)
Definition dlit {D} `{DoubleOps D} (n d : Z) : D := (of_int n / of_int d)%D.

Definition d0 {D} `{DoubleOps D} : D := of_int 0.

(** *** IEEE 754 binary64 *)

Module B64.

Definition prec : Z := 53.
Definition emax : Z := 1024.

Definition of_Z (z : Z) : spec_float := binary_normalize prec emax z 0 false.

(** Truncation toward zero of a finite double; [None] for NaN and the
    infinities. *)
Definition trunc (x : spec_float) : option Z :=
  match x with
  | S754_zero _ => Some 0
  | S754_finite s m e =>
      let a := match e with
               | Zneg p => Z.shiftr (Zpos m) (Zpos p)
               | _ => Z.shiftl (Zpos m) e
               end in
      Some (if s then - a else a)
  | _ => None
  end.

(** Out of range the conversion is undefined in C++; x86-64's
    [cvttsd2si] answers with the "integer indefinite" value. *)
Definition to_int32 (x : spec_float) : Z :=
  match trunc x with
  | Some z => if (Int32.min_signed <=? z) && (z <=? Int32.max_signed) then z
              else Int32.min_signed
  | None => Int32.min_signed
  end.

#[global] Instance ops : DoubleOps spec_float := {|
  of_int := of_Z;
  dadd := SFadd prec emax;
  dsub := SFsub prec emax;
  dmul := SFmul prec emax;
  ddiv := SFdiv prec emax;
  dsqrt := SFsqrt prec emax;
  dfabs := SFabs;
  dlt := SFltb;
  dle := SFleb;
  deq := SFeqb;
  to_int := to_int32
|}.

Definition is_nan (x : spec_float) : bool :=
  match x with S754_nan => true | _ => false end.

Definition is_zero (x : spec_float) : bool :=
  match x with S754_zero _ => true | _ => false end.

Definition is_finite (x : spec_float) : bool :=
  match x with S754_zero _ | S754_finite _ _ _ => true | _ => false end.

(** Two doubles denote the same value: they are the same datum, or
    they are the two zeros. *)
Definition same_value (x y : spec_float) : Prop :=
  x = y \/ (is_zero x = true /\ is_zero y = true).

End B64.

(** *** Extended reals: the special values without the rounding *)

Module XR.

Inductive xreal : Type :=
| XFin (r : R)
| XPInf
| XNInf
| XNaN.

Definition xopp (x : xreal) : xreal :=
  match x with
  | XFin r => XFin (- r)
  | XPInf => XNInf
  | XNInf => XPInf
  | XNaN => XNaN
  end.

Definition xadd (x y : xreal) : xreal :=
  match x, y with
  | XNaN, _ | _, XNaN => XNaN
  | XFin a, XFin b => XFin (a + b)
  | XPInf, XNInf | XNInf, XPInf => XNaN
  | XPInf, _ | _, XPInf => XPInf
  | XNInf, _ | _, XNInf => XNInf
  end.

Definition xsub (x y : xreal) : xreal := xadd x (xopp y).

(** An infinity times or divided by a finite [a]. *)
Definition scale_inf (i : xreal) (a : R) : xreal :=
  if Rlt_dec a 0 then xopp i else i.

Definition xmul (x y : xreal) : xreal :=
  match x, y with
  | XNaN, _ | _, XNaN => XNaN
  | XFin a, XFin b => XFin (a * b)
  | XFin a, i | i, XFin a => if Req_dec_T a 0 then XNaN else scale_inf i a
  | XPInf, XPInf | XNInf, XNInf => XPInf
  | XPInf, XNInf | XNInf, XPInf => XNInf
  end.

Definition xdiv (x y : xreal) : xreal :=
  match x, y with
  | XNaN, _ | _, XNaN => XNaN
  | XFin a, XFin b =>
      if Req_dec_T b 0 then
        if Req_dec_T a 0 then XNaN else scale_inf XPInf a
      else XFin (a / b)
  | XFin _, _ => XFin 0
  | i, XFin b => scale_inf i b
  | _, _ => XNaN
  end.

Definition xsqrt (x : xreal) : xreal :=
  match x with
  | XFin r => if Rlt_dec r 0 then XNaN else XFin (sqrt r)
  | XPInf => XPInf
  | _ => XNaN
  end.

Definition xabs (x : xreal) : xreal :=
  match x with
  | XFin r => XFin (Rabs r)
  | XNaN => XNaN
  | _ => XPInf
  end.

Definition xlt (x y : xreal) : bool :=
  match x, y with
  | XNaN, _ | _, XNaN => false
  | XFin a, XFin b => if Rlt_dec a b then true else false
  | XNInf, XNInf | XPInf, _ => false
  | XNInf, _ | _, XPInf => true
  | _, XNInf => false
  end.

Definition xeq (x y : xreal) : bool :=
  match x, y with
  | XFin a, XFin b => if Req_dec_T a b then true else false
  | XPInf, XPInf | XNInf, XNInf => true
  | _, _ => false
  end.

Definition xle (x y : xreal) : bool := xlt x y || xeq x y.

Definition xto_int (x : xreal) : Z :=
  match x with
  | XFin r =>
      let z := if Rlt_dec r 0 then (- Int_part (- r))%Z else Int_part r in
      if (Int32.min_signed <=? z) && (z <=? Int32.max_signed) then z
      else Int32.min_signed
  | _ => Int32.min_signed
  end.

(** C Annex F: [log 0 = -inf], [log] of a negative number is NaN,
    [exp (-inf) = 0]. *)
Definition xlog (x : xreal) : xreal :=
  match x with
  | XFin r => if Rlt_dec r 0 then XNaN
              else if Req_dec_T r 0 then XNInf else XFin (ln r)
  | XPInf => XPInf
  | _ => XNaN
  end.

Definition xexp (x : xreal) : xreal :=
  match x with
  | XFin r => XFin (exp r)
  | XPInf => XPInf
  | XNInf => XFin 0
  | XNaN => XNaN
  end.

#[global] Instance ops : DoubleOps xreal := {|
  of_int z := XFin (IZR z);
  dadd := xadd;
  dsub := xsub;
  dmul := xmul;
  ddiv := xdiv;
  dsqrt := xsqrt;
  dfabs := xabs;
  dlt := xlt;
  dle := xle;
  deq := xeq;
  to_int := xto_int
|}.

#[global] Instance math : DoubleMath xreal := {|
  dlog := xlog;
  dexp := xexp
|}.

End XR.

(** ** Arrays and loops *)

(** [a[i]] on an array held as a list.  Reading past the end is
    undefined in C++; here it yields the default. *)
Definition rd {A} (dflt : A) (a : list A) (i : Z) : A :=
  if i <? 0 then dflt else default dflt (a !! Z.to_nat i).

(** [a[i] = x].  Writing past the end is undefined in C++; here it
    leaves the array as it is. *)
Definition wr {A} (a : list A) (i : Z) (x : A) : list A :=
  if i <? 0 then a else <[Z.to_nat i := x]> a.

(** [for (int i = 0; i < n; ++i) body], threading the state [s]. *)
Definition for_up {S} (n : Z) (body : Z -> S -> S) (s : S) : S :=
  fold_left (fun s i => body (Z.of_nat i) s) (seq 0 (Z.to_nat n)) s.

(** [for (int i = n - 1; i >= 0; --i) body]. *)
Definition for_down {S} (n : Z) (body : Z -> S -> S) (s : S) : S :=
  fold_left (fun s i => body (Z.of_nat i) s) (rev (seq 0 (Z.to_nat n))) s.

(** ** What the headers provide *)

(** [MaxBin] ([max_mz.h]): the three bin bounds derived from one m/z. *)
Record MaxBin : Type := {
  MaxBinEnd : Z;
  BackgroundBinEnd : Z;
  CacheBinEnd : Z
}.

(** Constants, macros and helpers declared in headers that are not
    among the translated files.  The functions below take them as they
    come; [Crux.headers] gives the values of the Crux distribution. *)
Class Headers (D : Type) : Type := {
  MAX_XCORR_OFFSET : Z;            (* half-width of the background window *)
  NUM_SPECTRUM_REGIONS : Z;        (* regions of the normalisation        *)
  MASS_PROTON : D;
  ISOTOPE_SPACING : D;
  BIN_WIDTH : D;                   (* the unit dalton of computeWindow    *)
  mass2bin : D -> Z;               (* MassConstants::mass2bin             *)
  BIN_NH3 : Z;                     (* MassConstants::BIN_NH3              *)
  BIN_H2O : Z;                     (* MassConstants::BIN_H2O              *)
  bin2mass : Z -> D;               (* MassConstants::bin2mass             *)
  mono_h : D;                      (* MassConstants::mono_h               *)
  mono_oh : D;                     (* MassConstants::mono_oh              *)
  InitBin : D -> MaxBin            (* MaxBin::InitBin                     *)
}.

(** Modelled from the spec: the enumeration [TheoreticalPeakType] of
    [theoretical_peak_type.h], the "several weighted transformations of
    each observed peak (primary, flanking, loss-adjusted, combined b/y
    variants)" that the peak cache holds per bin. *)
Inductive TheoreticalPeakType : Type :=
| PeakMain
| LossPeak
| FlankingPeak
| PrimaryPeak
| PeakCombinedB1
| PeakCombinedY1
| PeakCombinedB2
| PeakCombinedY2.

Definition NUM_PEAK_TYPES : Z := 8.

Definition type_code (t : TheoreticalPeakType) : Z :=
  match t with
  | PeakMain => 0
  | LossPeak => 1
  | FlankingPeak => 2
  | PrimaryPeak => 3
  | PeakCombinedB1 => 4
  | PeakCombinedY1 => 5
  | PeakCombinedB2 => 6
  | PeakCombinedY2 => 7
  end.

(** The cache is bin-major: [ComputeCache] clears it from
    [BackgroundBinEnd() * NUM_PEAK_TYPES] on, and a theoretical peak's
    [Code()] is the index of its (bin, type) cell. *)
Definition Code (t : TheoreticalPeakType) (bin : Z) : Z :=
  bin * NUM_PEAK_TYPES + type_code t.

(** ** Spectra and the observed peak set *)

Section Preprocess.

Context {D : Type} `{DoubleOps D} `{Headers D}.

Record Spectrum : Type := {
  SpectrumNumber : Z;
  PrecursorMZ : D;
  MaxCharge : Z;
  peak_list : list (D * D)          (* (m/z, intensity), by m/z *)
}.

Definition Size (s : Spectrum) : Z := Z.of_nat (length (peak_list s)).
Definition M_Z (s : Spectrum) (i : Z) : D := fst (rd (d0, d0) (peak_list s) i).
Definition Intensity (s : Spectrum) (i : Z) : D := snd (rd (d0, d0) (peak_list s) i).

(** Modelled from the spec: [Spectrum::MaxPeakInRange] of
    [spectrum_collection.h], which is not among the translated files.
    The deisotoping step looks for an isotope partner "within a ppm
    tolerance" that "has higher intensity"; the call site passes the
    two ends of the tolerance and compares the result with the peak's
    intensity.  Here: the largest intensity among the peaks whose m/z
    lies in [[lo, hi]], 0 when there is none. *)
Definition MaxPeakInRange (s : Spectrum) (lo hi : D) : D :=
  fold_left (fun best p =>
               if (lo <=? fst p)%D && (fst p <=? hi)%D && (best <? snd p)%D
               then snd p else best)
            (peak_list s) d0.

Record ObservedPeakSet : Type := {
  peaks_ : list D;
  cache_ : list Z;
  max_mz_ : MaxBin;
  cache_end_ : Z;
  NL_ : bool;                       (* use-neutral-loss-peaks *)
  FP_ : bool                        (* use-flanking-peaks     *)
}.

(** The parameters [PreprocessSpectrum] reads through [Params::Get]. *)
Record PreprocessParams : Type := {
  skip_preprocessing : bool;
  remove_precursor_peak : bool;
  remove_precursor_tolerance : D;
  deisotope : D
}.

Record Counters : Type := {
  num_range_skipped : Z;
  num_precursors_skipped : Z;
  num_isotopes_skipped : Z;
  num_retained : Z
}.

(** *** SubtractBackground *)

Definition multiplier : D := (of_int 1 / of_int (MAX_XCORR_OFFSET * 2))%D.

Definition fill_partial_sums (observed : list D) (end_ : Z) : list D :=
  let '(partial_sums, total) :=
    for_up end_
      (fun i '(ps, total) =>
         let total := (total + rd d0 observed i)%D in
         (wr ps i total, total))
      (replicate (Z.to_nat (end_ + 1)) d0, d0) in
  wr partial_sums end_ total.

Definition SubtractBackground (observed : list D) (end_ : Z) : list D :=
  let partial_sums := fill_partial_sums observed end_ in
  for_up end_
    (fun i observed =>
       let right_index := Z.min end_ (i + MAX_XCORR_OFFSET) in
       let left_index := Z.max 0 (i - MAX_XCORR_OFFSET - 1) in
       wr observed i
          (rd d0 observed i -
           multiplier * (rd d0 partial_sums right_index
                         - rd d0 partial_sums left_index
                         - rd d0 observed i))%D)
    observed.

(** *** The two peak-filling loops of PreprocessSpectrum *)

Definition experimental_mass_cut_off (precursor_mz : D) (charge : Z) : D :=
  ((precursor_mz - MASS_PROTON) * of_int charge + MASS_PROTON + of_int 50)%D.

(** One iteration of the loop of the skip-preprocessing branch. *)
Definition skip_step (cut_off : D) (p : D * D) (peaks : list D) : list D :=
  let peak_location := fst p in
  if (peak_location >=? cut_off)%D then peaks
  else
    let mz := mass2bin peak_location in
    let intensity := snd p in
    if (intensity >? rd d0 peaks mz)%D then wr peaks mz intensity else peaks.

Definition fill_skip (cut_off : D) (ps : list (D * D)) (peaks : list D) : list D :=
  fold_left (fun peaks p => skip_step cut_off p peaks) ps peaks.

(** The deisotoping test: some fragment charge below [max_charge]
    finds a more intense peak one isotope spacing below. *)
Definition is_isotopic (spectrum : Spectrum) (deisotope_threshold : D)
           (max_charge : Z) (peak_location intensity : D) : bool :=
  existsb
    (fun k =>
       let fragCharge := Z.of_nat k in
       let isotopic_peak := (peak_location - ISOTOPE_SPACING / of_int fragCharge)%D in
       let ppm_difference := (peak_location * deisotope_threshold / of_int 1000000)%D in
       let isotopic_intensity :=
         MaxPeakInRange spectrum (isotopic_peak - ppm_difference)%D
                                 (isotopic_peak + ppm_difference)%D in
       (intensity <? isotopic_intensity)%D)
    (seq 1 (Z.to_nat (max_charge - 1))).

Record FillState : Type := {
  fs_peaks : list D;
  fs_largest_mz : Z;
  fs_highest_intensity : D;
  fs_counters : Counters
}.

Definition bump_range (c : Counters) : Counters :=
  {| num_range_skipped := num_range_skipped c + 1;
     num_precursors_skipped := num_precursors_skipped c;
     num_isotopes_skipped := num_isotopes_skipped c;
     num_retained := num_retained c |}.

Definition bump_precursor (c : Counters) : Counters :=
  {| num_range_skipped := num_range_skipped c;
     num_precursors_skipped := num_precursors_skipped c + 1;
     num_isotopes_skipped := num_isotopes_skipped c;
     num_retained := num_retained c |}.

Definition bump_isotope (c : Counters) : Counters :=
  {| num_range_skipped := num_range_skipped c;
     num_precursors_skipped := num_precursors_skipped c;
     num_isotopes_skipped := num_isotopes_skipped c + 1;
     num_retained := num_retained c |}.

Definition bump_retained (c : Counters) : Counters :=
  {| num_range_skipped := num_range_skipped c;
     num_precursors_skipped := num_precursors_skipped c;
     num_isotopes_skipped := num_isotopes_skipped c;
     num_retained := num_retained c + 1 |}.

Definition with_counters (st : FillState) (c : Counters) : FillState :=
  {| fs_peaks := fs_peaks st;
     fs_largest_mz := fs_largest_mz st;
     fs_highest_intensity := fs_highest_intensity st;
     fs_counters := c |}.

(** One iteration of the "Fill peaks" loop. *)
Definition fill_step (spectrum : Spectrum) (params : PreprocessParams)
           (cut_off : D) (p : D * D) (st : FillState) : FillState :=
  let peak_location := fst p in
  if (peak_location >=? cut_off)%D then
    with_counters st (bump_range (fs_counters st))
  else if remove_precursor_peak params
          && (dfabs (peak_location - PrecursorMZ spectrum)
              <=? remove_precursor_tolerance params)%D then
    with_counters st (bump_precursor (fs_counters st))
  else
    let intensity := snd p in
    let skip_peak :=
      (deisotope params !=? d0)%D
      && is_isotopic spectrum (deisotope params) (MaxCharge spectrum)
                     peak_location intensity in
    if skip_peak then with_counters st (bump_isotope (fs_counters st))
    else
      let mz := mass2bin peak_location in
      let largest_mz :=
        if (fs_largest_mz st <? mz) && (intensity >? d0)%D then mz
        else fs_largest_mz st in
      let intensity := dsqrt intensity in
      let highest_intensity :=
        if (intensity >? fs_highest_intensity st)%D then intensity
        else fs_highest_intensity st in
      let peaks :=
        if (intensity >? rd d0 (fs_peaks st) mz)%D
        then wr (fs_peaks st) mz intensity else fs_peaks st in
      {| fs_peaks := peaks;
         fs_largest_mz := largest_mz;
         fs_highest_intensity := highest_intensity;
         fs_counters := bump_retained (fs_counters st) |}.

(** The loop runs from the last peak down to the first. *)
Definition fill_peaks (spectrum : Spectrum) (params : PreprocessParams)
           (cut_off : D) (ps : list (D * D)) (st : FillState) : FillState :=
  fold_left (fun st p => fill_step spectrum params cut_off p st) (rev ps) st.

(** *** Region normalisation (the loops after "Fill peaks") *)

(** First inner loop: threshold at the cut-off and find the maximum. *)
Definition region_threshold (intensity_cutoff : D) (region_size i : Z)
           (peaks : list D) : list D * D :=
  for_up region_size
    (fun j '(peaks, highest_intensity) =>
       let index := i * region_size + j in
       let peaks :=
         if (rd d0 peaks index <=? intensity_cutoff)%D
         then wr peaks index d0 else peaks in
       if (rd d0 peaks index >? highest_intensity)%D
       then (peaks, rd d0 peaks index)
       else (peaks, highest_intensity))
    (peaks, d0).

(** Second inner loop: rescale what is left. *)
Definition region_scale (normalizer : D) (region_size i : Z)
           (peaks : list D) : list D :=
  for_up region_size
    (fun j peaks =>
       let index := i * region_size + j in
       if (rd d0 peaks index !=? d0)%D
       then wr peaks index (rd d0 peaks index * normalizer)%D
       else peaks)
    peaks.

Definition normalize_region (intensity_cutoff : D) (region_size i : Z)
           (peaks : list D) : list D :=
  let '(peaks, highest_intensity) :=
    region_threshold intensity_cutoff region_size i peaks in
  if (highest_intensity ==? d0)%D then peaks
  else
    let normalizer := (of_int 50 / highest_intensity)%D in
    region_scale normalizer region_size i peaks.

Definition normalize_regions (peaks : list D) (highest_intensity : D)
           (largest_mz : Z) : list D :=
  let intensity_cutoff := (highest_intensity * dlit 5 100)%D in
  let region_size := Z.quot largest_mz NUM_SPECTRUM_REGIONS + 1 in
  for_up NUM_SPECTRUM_REGIONS
    (fun i peaks => normalize_region intensity_cutoff region_size i peaks)
    peaks.

(** *** MakeInteger and ComputeCache *)

Definition round_to_int (x : D) : Z :=
  if (x >=? d0)%D then to_int (x + dlit 1 2)%D else to_int (x - dlit 1 2)%D.

Definition Peak (cache : list Z) (t : TheoreticalPeakType) (i : Z) : Z :=
  rd 0 cache (Code t i).

Definition set_Peak (cache : list Z) (t : TheoreticalPeakType) (i : Z)
           (v : Z) : list Z :=
  wr cache (Code t i) v.

Definition MakeInteger (peaks : list D) (max_mz : MaxBin)
           (cache : list Z) : list Z :=
  for_up (BackgroundBinEnd max_mz)
    (fun i cache =>
       set_Peak cache PeakMain i (round_to_int (rd d0 peaks i * of_int 50000)%D))
    cache.

Definition cache_multiples (max_mz : MaxBin) (cache : list Z) : list Z :=
  for_up (BackgroundBinEnd max_mz)
    (fun i cache =>
       let x := Peak cache PeakMain i in
       let y := Int32.add x x in
       let cache := set_Peak cache LossPeak i y in
       let z := Int32.add (Int32.add y y) x in
       let cache := set_Peak cache FlankingPeak i z in
       set_Peak cache PrimaryPeak i (Int32.add z z))
    cache.

Definition cache_clear_tail (max_mz : MaxBin) (cache_end : Z)
           (cache : list Z) : list Z :=
  let start := BackgroundBinEnd max_mz * NUM_PEAK_TYPES in
  for_up (cache_end - start) (fun k cache => wr cache (start + k) 0) cache.

Definition cache_combined (max_mz : MaxBin) (NL FP : bool)
           (cache : list Z) : list Z :=
  for_up (CacheBinEnd max_mz)
    (fun i cache =>
       let flanks := Peak cache PrimaryPeak i in
       let flanks :=
         if FP then
           let flanks :=
             if 0 <? i then Int32.add flanks (Peak cache FlankingPeak (i - 1))
             else flanks in
           if i <? CacheBinEnd max_mz - 1
           then Int32.add flanks (Peak cache FlankingPeak (i + 1))
           else flanks
         else flanks in
       let Y1 := flanks in
       let Y1 :=
         if NL then
           let Y1 :=
             if BIN_NH3 <? i then Int32.add Y1 (Peak cache LossPeak (i - BIN_NH3))
             else Y1 in
           if BIN_H2O <? i then Int32.add Y1 (Peak cache LossPeak (i - BIN_H2O))
           else Y1
         else Y1 in
       let cache := set_Peak cache PeakCombinedY1 i Y1 in
       let B1 := Y1 in
       let cache := set_Peak cache PeakCombinedB1 i B1 in
       let cache := set_Peak cache PeakCombinedY2 i flanks in
       set_Peak cache PeakCombinedB2 i flanks)
    cache.

Definition ComputeCache (max_mz : MaxBin) (cache_end : Z) (NL FP : bool)
           (cache : list Z) : list Z :=
  cache_combined max_mz NL FP
    (cache_clear_tail max_mz cache_end (cache_multiples max_mz cache)).

(** *** PreprocessSpectrum *)

Definition zero_counters : Counters :=
  {| num_range_skipped := 0; num_precursors_skipped := 0;
     num_isotopes_skipped := 0; num_retained := 0 |}.

(** [memset(peaks_, 0, sizeof(double) * n)]. *)
Definition memset0 (peaks : list D) (n : Z) : list D :=
  for_up n (fun i peaks => wr peaks i d0) peaks.

(** The contents of [peaks_] when the branch on skip-preprocessing is
    left, with the counters as they stand then.  [ps] is the list of
    peaks the loops run over, [peak_list spectrum] in the program. *)
Definition bucket_peaks_of (global : MaxBin) (params : PreprocessParams)
           (spectrum : Spectrum) (charge : Z) (ps : list (D * D))
           (peaks : list D) (counters : Counters) : list D * Counters :=
  let precursor_mz := PrecursorMZ spectrum in
  let cut_off := experimental_mass_cut_off precursor_mz charge in
  let peaks := memset0 peaks (BackgroundBinEnd global) in
  if skip_preprocessing params then
    (fill_skip cut_off ps peaks, counters)
  else
    let st :=
      fill_peaks spectrum params cut_off ps
        {| fs_peaks := peaks; fs_largest_mz := 0;
           fs_highest_intensity := d0; fs_counters := counters |} in
    (normalize_regions (fs_peaks st) (fs_highest_intensity st) (fs_largest_mz st),
     fs_counters st).

Definition bucket_peaks (global : MaxBin) (params : PreprocessParams)
           (spectrum : Spectrum) (charge : Z) (peaks : list D)
           (counters : Counters) : list D * Counters :=
  bucket_peaks_of global params spectrum charge (peak_list spectrum) peaks counters.

Definition dmin (x y : D) : D := if (y <? x)%D then y else x.

Definition PreprocessSpectrum (global : MaxBin) (params : PreprocessParams)
           (spectrum : Spectrum) (charge : Z)
           (observed : ObservedPeakSet) (counters : Counters)
  : ObservedPeakSet * Counters :=
  let precursor_mz := PrecursorMZ spectrum in
  let cut_off := experimental_mass_cut_off precursor_mz charge in
  let max_peak_mz := M_Z spectrum (Size spectrum - 1) in
  let max_mz := InitBin (dmin cut_off max_peak_mz) in
  let cache_end := CacheBinEnd global * NUM_PEAK_TYPES in
  let '(peaks, counters) :=
    bucket_peaks global params spectrum charge (peaks_ observed) counters in
  let peaks := SubtractBackground peaks (BackgroundBinEnd max_mz) in
  let cache := MakeInteger peaks max_mz (cache_ observed) in
  let cache := ComputeCache max_mz cache_end (NL_ observed) (FP_ observed) cache in
  ({| peaks_ := peaks; cache_ := cache; max_mz_ := max_mz;
      cache_end_ := cache_end; NL_ := NL_ observed; FP_ := FP_ observed |},
   counters).

(** *** DotProd *)

Definition DotProd (cache : list Z) (theoretical : list Z) : Z :=
  fold_left (fun total code => Int32.add total (rd 0 cache code)) theoretical 0.

End Preprocess.

(** ** Fatal errors *)

(** [carp(CARP_FATAL, ...)] prints its message and ends the process. *)
Inductive outcome (A : Type) : Type :=
| Done (a : A)
| Fatal (msg : string).
Arguments Done {A} a.
Arguments Fatal {A} msg.

Definition is_fatal {A} (o : outcome A) : bool :=
  match o with Fatal _ => true | Done _ => false end.

Definition bind {A B} (o : outcome A) (k : A -> outcome B) : outcome B :=
  match o with
  | Done a => k a
  | Fatal msg => Fatal msg
  end.


(** ** getNegativeIsotopeErrors *)

Module IsotopeErrors.

Definition is_comma (c : ascii) : bool := Ascii.eqb c ","%char.

(** [isotope_errors_string[0] == ','] (on the empty string the
    character read is the terminating NUL). *)
Definition leading_comma (s : list ascii) : bool :=
  match s with
  | c :: _ => is_comma c
  | [] => false
  end.

(** The scan for a comma that ends the string or is followed by
    another comma. *)
Fixpoint dangling_comma (s : list ascii) : bool :=
  match s with
  | [] => false
  | c :: rest =>
      (is_comma c && match rest with
                     | [] => true
                     | c' :: _ => is_comma c'
                     end)
      || dangling_comma rest
  end.

(** The loop over the parsed values; [negs] is
    [negative_isotope_errors] so far. *)
Fixpoint negate_all (isotope_errors negs : list Z) : outcome (list Z) :=
  match isotope_errors with
  | [] => Done negs
  | e :: rest =>
      if e <? 0 then Fatal "Found a negative isotope error"
      else if existsb (Z.eqb (- e)) negs
           then Fatal "Found duplicate when parsing isotope_error parameter"
           else negate_all rest (negs ++ [- e])
  end.

(** [std::sort] on ints, as an insertion sort. *)
Fixpoint insert_sorted (x : Z) (l : list Z) : list Z :=
  match l with
  | [] => [x]
  | y :: rest => if x <=? y then x :: l else y :: insert_sorted x rest
  end.

Definition sort (l : list Z) : list Z := fold_right insert_sorted [] l.

Section Parser.

(** [StringUtils::Split<int>]: the fields of the string read as
    ints, [None] when a field does not convert (the helper throws). *)
Variable Split : list ascii -> ascii -> option (list Z).

Definition getNegativeIsotopeErrors (isotope_errors_string : list ascii)
  : outcome (list Z) :=
  if leading_comma isotope_errors_string
  then Fatal "Error in isotope_error parameter formatting"
  else if dangling_comma isotope_errors_string
  then Fatal "Error in isotope_error parameter formatting"
  else
    bind
      (match isotope_errors_string with
       | [] => Done [0]
       | _ =>
           match Split isotope_errors_string ","%char with
           | None => Fatal "Split: conversion failed"
           | Some isotope_errors => negate_all isotope_errors [0]
           end
       end)
      (fun negative_isotope_errors => Done (sort negative_isotope_errors)).

End Parser.

(** Modelled from the spec: [StringUtils::Split<int>] of
    [util/StringUtils.h], which is not among the translated files.
    The spec's example ("1,2" gives the errors 1 and 2) fixes it as
    the comma-separated fields, each a decimal integer with an
    optional sign. *)
Fixpoint fields (delim : ascii) (s : list ascii) : list (list ascii) :=
  match s with
  | [] => [[]]
  | c :: rest =>
      if Ascii.eqb c delim then [] :: fields delim rest
      else match fields delim rest with
           | f :: fs => (c :: f) :: fs
           | [] => [[c]]
           end
  end.

Definition digit (c : ascii) : option Z :=
  let n := Z.of_nat (nat_of_ascii c) in
  if (48 <=? n) && (n <=? 57) then Some (n - 48) else None.

Fixpoint digits (acc : Z) (s : list ascii) : option Z :=
  match s with
  | [] => Some acc
  | c :: rest =>
      match digit c with
      | Some d => digits (10 * acc + d) rest
      | None => None
      end
  end.

Definition read_int (field : list ascii) : option Z :=
  match field with
  | [] => None
  | c :: rest =>
      if Ascii.eqb c "-"%char then
        match rest with [] => None | _ => option_map Z.opp (digits 0 rest) end
      else digits 0 field
  end.

Fixpoint read_all (fs : list (list ascii)) : option (list Z) :=
  match fs with
  | [] => Some []
  | f :: rest =>
      match read_int f, read_all rest with
      | Some z, Some zs => Some (z :: zs)
      | _, _ => None
      end
  end.

Definition Split_int (s : list ascii) (delim : ascii) : option (list Z) :=
  read_all (fields delim s).

End IsotopeErrors.

(** ** computeWindow *)

(** [WINDOW_TYPE_T] of the Crux object model; any other value of the
    selector takes the [default] branch of the switch. *)
Inductive WINDOW_TYPE_T : Type :=
| WINDOW_INVALID
| WINDOW_MASS
| WINDOW_MZ
| WINDOW_PPM.

Section Window.

Context {D : Type} `{DoubleOps D} `{Headers D}.

Record SpecCharge : Type := {
  neutral_mass : D;
  charge : Z;
  spectrum : Spectrum (D := D)
}.

Record Window : Type := {
  out_min : list D;
  out_max : list D;
  min_range : D;
  max_range : D
}.

(** [v->front()] and [v->back()]; undefined on an empty vector. *)
Definition front (v : list Z) : Z := hd 0 v.
Definition back (v : list Z) : Z := List.last v 0.

Definition computeWindow (sc : SpecCharge) (window_type : WINDOW_TYPE_T)
           (precursor_window : D) (max_charge : Z)
           (negative_isotope_errors : list Z) : outcome Window :=
  let unit_dalton := BIN_WIDTH in
  match window_type with
  | WINDOW_MASS =>
      Done
        {| out_min :=
             map (fun ie => (neutral_mass sc + of_int ie * unit_dalton
                             - precursor_window)%D) negative_isotope_errors;
           out_max :=
             map (fun ie => (neutral_mass sc + of_int ie * unit_dalton
                             + precursor_window)%D) negative_isotope_errors;
           min_range :=
             (neutral_mass sc + of_int (front negative_isotope_errors) * unit_dalton
              - precursor_window)%D;
           max_range :=
             (neutral_mass sc + of_int (back negative_isotope_errors) * unit_dalton
              + precursor_window)%D |}
  | WINDOW_MZ =>
      let mz_minus_proton := (PrecursorMZ (spectrum sc) - MASS_PROTON)%D in
      Done
        {| out_min :=
             map (fun ie => ((mz_minus_proton - precursor_window) * of_int (charge sc)
                             + of_int ie * unit_dalton)%D) negative_isotope_errors;
           out_max :=
             map (fun ie => ((mz_minus_proton + precursor_window) * of_int (charge sc)
                             + of_int ie * unit_dalton)%D) negative_isotope_errors;
           min_range :=
             (mz_minus_proton * of_int (charge sc)
              + of_int (front negative_isotope_errors) * unit_dalton
              - precursor_window * of_int max_charge)%D;
           max_range :=
             (mz_minus_proton * of_int (charge sc)
              + of_int (back negative_isotope_errors) * unit_dalton
              + precursor_window * of_int max_charge)%D |}
  | WINDOW_PPM =>
      let tiny_precursor := (precursor_window * dlit 1 1000000)%D in
      Done
        {| out_min :=
             map (fun ie => ((neutral_mass sc + of_int ie * unit_dalton)
                             * (of_int 1 - tiny_precursor))%D) negative_isotope_errors;
           out_max :=
             map (fun ie => ((neutral_mass sc + of_int ie * unit_dalton)
                             * (of_int 1 + tiny_precursor))%D) negative_isotope_errors;
           min_range :=
             ((neutral_mass sc + of_int (front negative_isotope_errors) * unit_dalton)
              * (of_int 1 - tiny_precursor))%D;
           max_range :=
             ((neutral_mass sc + of_int (back negative_isotope_errors) * unit_dalton)
              * (of_int 1 + tiny_precursor))%D |}
  | WINDOW_INVALID => Fatal "Invalid window type"
  end.

(** ** The scan loop of one search thread *)

(** What [search] reads from its thread data and from [Params]. *)
Record SearchConfig : Type := {
  spectrum_filename : string;
  precursor_window : D;
  window_type : WINDOW_TYPE_T;
  spectrum_min_mz : D;
  spectrum_max_mz : D;
  min_scan : Z;
  max_scan : Z;
  min_peaks : Z;
  search_charge : Z;
  max_precursor_charge : Z;
  exact_pval_search : bool;
  preprocess_params : PreprocessParams (D := D);
  negative_isotope_errors_ : list Z;
  spectrum_flag : option (list (string * Z))
    (* NULL, or the keys of the cascade map: file name and an
       [unsigned int] *)
}.

(** One scored spectrum-charge pair: how it was scored, and the
    deisotoping threshold that was configured when it was. *)
Record Scored : Type := {
  scored_pair : SpecCharge;
  scored_exact_pval : bool;
  scored_deisotope : D;
  scored_candidates : Z
}.

(** The key under which a pair is looked up in the cascade map:
    [scan_num * 10 + charge], computed in [int] and converted to the
    [unsigned int] of the map's key type. *)
Definition cascade_key (scan_num charge : Z) : Z :=
  UInt32.of_int (Int32.add (Int32.mul scan_num 10) charge).

Definition in_cascade (cfg : SearchConfig) (scan_num charge : Z) : bool :=
  match spectrum_flag cfg with
  | None => false
  | Some flags =>
      existsb (fun k => String.eqb (fst k) (spectrum_filename cfg)
                        && (snd k =? cascade_key scan_num charge)) flags
  end.

(** The test that sends the loop to the next pair. *)
Definition filtered_out (cfg : SearchConfig) (sc : SpecCharge) : bool :=
  let precursor_mz := PrecursorMZ (spectrum sc) in
  let scan_num := SpectrumNumber (spectrum sc) in
  (precursor_mz <? spectrum_min_mz cfg)%D
  || (precursor_mz >? spectrum_max_mz cfg)%D
  || (scan_num <? min_scan cfg) || (max_scan cfg <? scan_num)
  || (Size (spectrum sc) <? min_peaks cfg)
  || (negb (search_charge cfg =? 0) && negb (charge sc =? search_charge cfg))
  || (max_precursor_charge cfg <? charge sc).

Definition eligible (cfg : SearchConfig) (sc : SpecCharge) : bool :=
  negb (in_cascade cfg (SpectrumNumber (spectrum sc)) (charge sc))
  && negb (filtered_out cfg sc).

Section Loop.

(** The peptide index: the number of candidates
    [SetActiveRange] / [SetActiveRangeBIons] reports for a window. *)
Variable SetActiveRange : Window -> Z.

(** The body of the loop for one pair; [None] is [continue]. *)
Definition search_pair (cfg : SearchConfig) (sc : SpecCharge)
  : outcome (option Scored) :=
  if in_cascade cfg (SpectrumNumber (spectrum sc)) (charge sc) then Done None
  else if filtered_out cfg sc then Done None
  else
    bind (computeWindow sc (window_type cfg) (precursor_window cfg)
                        (max_precursor_charge cfg) (negative_isotope_errors_ cfg))
      (fun w =>
         if negb (exact_pval_search cfg) then
           let nCandPeptide := SetActiveRange w in
           if nCandPeptide =? 0 then Done None
           else
             Done (Some {| scored_pair := sc;
                           scored_exact_pval := false;
                           scored_deisotope := deisotope (preprocess_params cfg);
                           scored_candidates := nCandPeptide |})
         else
           if (deisotope (preprocess_params cfg) !=? d0)%D then
             Fatal "Deisotoping is not yet implemented in conjunction with exact p-values."
           else
             Done (Some {| scored_pair := sc;
                           scored_exact_pval := true;
                           scored_deisotope := deisotope (preprocess_params cfg);
                           scored_candidates := SetActiveRange w |})).

(** The pairs thread [thread_num] visits:
    [begin + thread_num], then every [num_threads]-th. *)
Definition thread_slice (thread_num num_threads : nat)
           (spec_charges : list SpecCharge) : list SpecCharge :=
  match num_threads with
  | O => []
  | S _ =>
      omap (fun k => spec_charges !! (thread_num + k * num_threads)%nat)
           (seq 0 (length spec_charges))
  end.

Fixpoint search_loop (cfg : SearchConfig) (pairs : list SpecCharge)
         (reported : list Scored) : outcome (list Scored) :=
  match pairs with
  | [] => Done reported
  | sc :: rest =>
      bind (search_pair cfg sc)
        (fun r =>
           search_loop cfg rest
             (match r with Some s => reported ++ [s] | None => reported end))
  end.

Definition search_thread (cfg : SearchConfig) (thread_num num_threads : nat)
           (spec_charges : list SpecCharge) : outcome (list Scored) :=
  search_loop cfg (thread_slice thread_num num_threads spec_charges) [].

(** The run over all threads: a fatal error in any of them ends the
    process; otherwise every thread's reports are there after the
    join. *)
Fixpoint join_all (rs : list (outcome (list Scored))) : outcome (list Scored) :=
  match rs with
  | [] => Done []
  | r :: rest =>
      bind r (fun a => bind (join_all rest) (fun b => Done (a ++ b)))
  end.

Definition search (cfg : SearchConfig) (num_threads : nat)
           (spec_charges : list SpecCharge) : outcome (list Scored) :=
  join_all (map (fun t => search_thread cfg t num_threads spec_charges)
                (seq 0 num_threads)).

End Loop.

End Window.

(** ** collectScoresCompiled *)

Module Compiled.

(** Modelled from the spec: the dot-product programs that
    [compiler.h] writes into the active peptide queue; only their
    caller is among the translated files.  "Theoretical peptides are
    represented as small generated routines that directly emit
    (score, peptide-counter) pairs for an entire queue of candidates
    in one pass, reading from a shared cache array and writing into a
    preallocated results buffer."  The registers are the ones
    [collectScoresCompiled] loads: [edx] is the cache, [ecx] the
    counter, [edi] the position in the results buffer, [eax] the
    accumulator. *)
Inductive instr : Type :=
| Clear                       (* xor eax, eax                         *)
| AddCache (code : Z)         (* add eax, [edx + 4 * code]            *)
| StoreScore                  (* stos: results[edi] = eax, edi += 1   *)
| StoreCounter                (* results[edi] = ecx, edi += 1         *)
| Loop.                       (* ecx -= 1; go on unless ecx == 0      *)

Record regs : Type := {
  eax : Z;
  ecx : Z;
  edi : Z;
  results : list Z              (* the buffer, two ints per pair *)
}.

(** The routine generated for one peptide from its theoretical peaks. *)
Definition compile (theoretical : list Z) : list instr :=
  Clear :: map AddCache theoretical ++ [StoreScore; StoreCounter; Loop].

Definition step (cache : list Z) (i : instr) (r : regs) : regs :=
  match i with
  | Clear =>
      {| eax := 0; ecx := ecx r; edi := edi r; results := results r |}
  | AddCache code =>
      {| eax := Int32.add (eax r) (rd 0 cache code);
         ecx := ecx r; edi := edi r; results := results r |}
  | StoreScore =>
      {| eax := eax r; ecx := ecx r; edi := edi r + 1;
         results := wr (results r) (edi r) (eax r) |}
  | StoreCounter =>
      {| eax := ecx r; ecx := ecx r; edi := edi r + 1;
         results := wr (results r) (edi r) (ecx r) |}
  | Loop =>
      {| eax := eax r; ecx := ecx r - 1; edi := edi r; results := results r |}
  end.

Definition run_program (cache : list Z) (prog : list instr) (r : regs) : regs :=
  fold_left (fun r i => step cache i r) prog r.

(** The programs lie one after the other; the one that brings the
    counter to zero returns to the caller. *)
Fixpoint run_queue (cache : list Z) (progs : list (list instr)) (r : regs) : regs :=
  match progs with
  | [] => r
  | prog :: rest =>
      let r := run_program cache prog r in
      if ecx r =? 0 then r else run_queue cache rest r
  end.

(** [TideMatchSet::Arr2]: a buffer of pairs and its size. *)
Record Arr2 : Type := {
  arr_data : list Z;
  arr_size : Z
}.

(** The pairs an [Arr2] holds, the first [arr_size] of its buffer. *)
Definition pairs (a : Arr2) : list (Z * Z) :=
  map (fun k => (rd 0 (arr_data a) (2 * Z.of_nat k),
                 rd 0 (arr_data a) (2 * Z.of_nat k + 1)))
      (seq 0 (Z.to_nat (arr_size a))).

(** [collectScoresCompiled]: [queue] is the active peptide queue from
    [NextPeptide()] on, each peptide with its theoretical peaks. *)
Definition collectScoresCompiled (queue : list (list Z)) (cache : list Z)
           (match_arr : Arr2) (queue_size : Z) : Arr2 :=
  match queue with
  | [] => match_arr                                   (* !HasNext() *)
  | _ =>
      let r := run_queue cache (map compile queue)
                 {| eax := 0; ecx := queue_size; edi := 0;
                    results := arr_data match_arr |} in
      {| arr_data := results r; arr_size := queue_size |}
  end.

End Compiled.

(** ** calcScoreCount *)

Section ExactPValue.

Context {D : Type} `{DoubleOps D} `{DoubleMath D} `{Headers D}.

(** [for (i = lo; i < hi; i++) body]. *)
Definition for_range {S} (lo hi : Z) (body : Z -> S -> S) (s : S) : S :=
  for_up (hi - lo) (fun k => body (lo + k)) s.

Definition dyn_get (a : list (list D)) (row col : Z) : D :=
  rd d0 (rd [] a row) col.

Definition dyn_set (a : list (list D)) (row col : Z) (v : D) : list (list D) :=
  wr a row (wr (rd [] a row) col v).

(** The bounds [calcScoreCount] derives from its arguments. *)
Record Bounds : Type := {
  maxDeltaMass : Z;
  colStart : Z;
  scoreOffsetObs : Z;
  nRow : Z;
  nCol : Z;
  rowFirst : Z;
  rowLast : Z;
  colFirst : Z;
  colLast : Z;
  initCountRow : Z;
  initCountCol : Z
}.

Definition bounds (pepMassInt maxEvidence minEvidence maxScore minScore nAA : Z)
           (aaMass : list Z) : Bounds :=
  let nDeltaMass := nAA in
  let maxDeltaMass := rd 0 aaMass (nDeltaMass - 1) in
  let bottomRowBuffer := maxEvidence + 1 in
  let topRowBuffer := - minEvidence in
  let colBuffer := maxDeltaMass in
  let colStart := mass2bin mono_h in
  {| maxDeltaMass := maxDeltaMass;
     colStart := colStart;
     scoreOffsetObs := bottomRowBuffer - minScore;
     nRow := bottomRowBuffer - minScore + 1 + maxScore + topRowBuffer;
     nCol := colBuffer + pepMassInt;
     rowFirst := bottomRowBuffer;
     rowLast := bottomRowBuffer - minScore + maxScore;
     colFirst := colStart + mass2bin mono_h;
     colLast := mass2bin (bin2mass pepMassInt - mono_oh)%D;
     initCountRow := bottomRowBuffer - minScore;
     initCountCol := maxDeltaMass + colStart |}.

(** Score counts for the first (N-terminal) amino acid. *)
Definition dyn_first (b : Bounds) (evidenceObs : list Z) (nAA : Z)
           (aaFreqN : list D) (aaMass : list Z)
           (a : list (list D)) : list (list D) :=
  for_up nAA
    (fun de a =>
       let ma := rd 0 aaMass de in
       let row := initCountRow b + rd 0 evidenceObs (ma + colStart b) in
       let col := initCountCol b + ma in
       if col <=? maxDeltaMass b + colLast b then
         dyn_set a row col
           (dyn_get a row col
            + dyn_get a (initCountRow b) (initCountCol b) * rd d0 aaFreqN de)%D
       else a)
    a.

(** One cell: the sum over the amino acids of the counts one residue
    back, weighted by the frequencies. *)
Definition dyn_cell (nAA : Z) (aaFreq : list D) (aaMass : list Z)
           (a : list (list D)) (evidenceRow col : Z) (sumScore : D) : D :=
  for_up nAA
    (fun de sumScore =>
       (sumScore + dyn_get a evidenceRow (col - rd 0 aaMass de) * rd d0 aaFreq de)%D)
    sumScore.

(** Score counts for the non-terminal amino acids. *)
Definition dyn_inner (b : Bounds) (evidenceObs : list Z) (nAA : Z)
           (aaFreqI : list D) (aaMass : list Z)
           (a : list (list D)) : list (list D) :=
  for_range (colFirst b) (colLast b)
    (fun ma a =>
       let col := maxDeltaMass b + ma in
       let evidence := rd 0 evidenceObs ma in
       for_range (rowFirst b) (rowLast b + 1)
         (fun row a =>
            let evidenceRow := row - evidence in
            dyn_set a row col
              (dyn_cell nAA aaFreqI aaMass a evidenceRow col (dyn_get a row col)))
         a)
    a.

(** Score counts for the last (C-terminal) amino acid. *)
Definition dyn_last (b : Bounds) (nAA : Z) (aaFreqC : list D) (aaMass : list Z)
           (a : list (list D)) : list (list D) :=
  let ma := colLast b in
  let col := maxDeltaMass b + ma in
  let evidence := 0 in
  for_range (rowFirst b) (rowLast b + 1)
    (fun row a =>
       let evidenceRow := row - evidence in
       dyn_set a row col (dyn_cell nAA aaFreqC aaMass a evidenceRow col d0))
    a.

Definition dynProgArray (b : Bounds) (evidenceObs : list Z) (nAA : Z)
           (aaFreqN aaFreqI aaFreqC : list D) (aaMass : list Z) : list (list D) :=
  let a := replicate (Z.to_nat (nRow b)) (replicate (Z.to_nat (nCol b)) d0) in
  let a := dyn_set a (initCountRow b) (initCountCol b) (of_int 1) in
  let a := dyn_first b evidenceObs nAA aaFreqN aaMass a in
  let a := dyn_set a (initCountRow b) (initCountCol b) d0 in
  let a := dyn_inner b evidenceObs nAA aaFreqI aaMass a in
  dyn_last b nAA aaFreqC aaMass a.

(** The total of the score counts, as the first closing loop sums it. *)
Definition totalCount (n : Z) (count : Z -> D) : D :=
  for_up n (fun row total => (total + count row)%D) d0.

(** The three closing loops: cumulative sum from the top, half-bin
    adjustment, normalisation through [exp (log _ - log total)]. *)
Definition pValueScoreObs (n : Z) (count : Z -> D) : list D :=
  let '(p, total, scoreCountBinAdjust) :=
    for_up n
      (fun row '(p, total, adjust) =>
         let p := wr p row (count row) in
         let total := (total + rd d0 p row)%D in
         (p, total, wr adjust row (rd d0 p row / of_int 2)%D))
      (replicate (Z.to_nat n) d0, d0, replicate (Z.to_nat n) d0) in
  let p :=
    for_down (n - 1)
      (fun row p => wr p row (rd d0 p row + rd d0 p (row + 1))%D) p in
  let logTotalCount := dlog total in
  for_up n
    (fun row p =>
       let p := wr p row (rd d0 p row - rd d0 scoreCountBinAdjust row)%D in
       wr p row (dexp (dlog (rd d0 p row) - logTotalCount)%D))
    p.

Definition calcScoreCount (evidenceObs : list Z)
           (pepMassInt maxEvidence minEvidence maxScore minScore nAA : Z)
           (aaFreqN aaFreqI aaFreqC : list D) (aaMass : list Z)
  : Z * list D :=
  let b := bounds pepMassInt maxEvidence minEvidence maxScore minScore nAA aaMass in
  let a := dynProgArray b evidenceObs nAA aaFreqN aaFreqI aaFreqC aaMass in
  let colScoreCount := maxDeltaMass b + colLast b in
  (scoreOffsetObs b,
   pValueScoreObs (nRow b) (fun row => dyn_get a row colScoreCount)).

End ExactPValue.

(** ** The checks of [main] before the search *)

(** The parameters [main] reads through [Params] up to the call of
    [getNegativeIsotopeErrors]. *)
Record MainParams : Type := {
  peptide_centric_search : bool;
  num_threads_param : Z;
  spectrum_charge : string;
  scan_number : string;
  exact_p_value : bool;
  mz_bin_width_is_default : bool;
  compute_sp_param : bool;
  sqt_output : bool
}.

(** What [main] has settled once the checks are passed. *)
Record Checked : Type := {
  NUM_THREADS : Z;
  charge_to_search : Z;
  checked_min_scan : Z;
  checked_max_scan : Z;
  checked_exact_pval : bool;
  compute_sp : bool
}.

Section MainChecks.

(** From outside the translated files: the C library's [atoi],
    [boost::thread::hardware_concurrency], the helper
    [get_range_from_string] and the constant [BILLION]. *)
Variable atoi : string -> Z.
Variable hardware_concurrency : Z.
Variable get_range_from_string : string -> option (Z * Z).
Variable BILLION : Z.

Definition check_threads (p : MainParams) : outcome Z :=
  let n := if negb (peptide_centric_search p) then num_threads_param p else 1 in
  if n <? 1 then Done hardware_concurrency
  else if 64 <? n then Fatal "Requested more than 64 threads."
  else Done n.

Definition check_charge (p : MainParams) : outcome Z :=
  if String.eqb (spectrum_charge p) "all" then Done 0
  else
    let c := atoi (spectrum_charge p) in
    if (c <? 1) || (6 <? c) then Fatal "Invalid spectrum-charge value"
    else Done c.

(** [scan_range.find('-') == string::npos]. *)
Definition has_dash (s : string) : bool :=
  existsb (Ascii.eqb "-"%char) (list_ascii_of_string s).

Definition check_scans (p : MainParams) : outcome (Z * Z) :=
  let scan_range := scan_number p in
  if String.eqb scan_range "" then Done (0, BILLION)
  else if negb (has_dash scan_range) then Done (atoi scan_range, atoi scan_range)
  else
    match get_range_from_string scan_range with
    | None => Fatal "The scan number range is invalid."
    | Some (min_scan, max_scan) =>
        if max_scan <? min_scan then Fatal "Invalid scan range"
        else Done (min_scan, max_scan)
    end.

Definition check_bin_width (p : MainParams) : outcome unit :=
  if exact_p_value p && negb (mz_bin_width_is_default p)
  then Fatal "XCorr p-values and variable bin width is not allowed"
  else Done tt.

(** The checks in the order [main] makes them. *)
Definition main_checks (p : MainParams) : outcome Checked :=
  bind (check_threads p) (fun n =>
  bind (check_charge p) (fun c =>
  bind (check_scans p) (fun '(lo, hi) =>
  bind (check_bin_width p) (fun _ =>
  Done {| NUM_THREADS := n;
          charge_to_search := c;
          checked_min_scan := lo;
          checked_max_scan := hi;
          checked_exact_pval := exact_p_value p;
          compute_sp := compute_sp_param p || sqt_output p |})))).

End MainChecks.

(** ** The exact p-value scoring of a candidate *)

(** [std::unique] followed by [erase]: of every run of equal
    neighbours the first is kept. *)
Fixpoint unique_from (prev : Z) (l : list Z) : list Z :=
  match l with
  | [] => []
  | x :: rest => if x =? prev then unique_from prev rest else x :: unique_from x rest
  end.

Definition unique (l : list Z) : list Z :=
  match l with
  | [] => []
  | x :: rest => x :: unique_from x rest
  end.

(** [pepMassIntUnique] once sorted and made unique; [pepMassInt] holds
    the integer masses of the selected candidates. *)
Definition pepMassIntUnique (pepMassInt : list Z) : list Z :=
  unique (IsotopeErrors.sort pepMassInt).

(** The search for a candidate's mass: the first index that holds it,
    0 when none does. *)
Fixpoint first_index (mass : Z) (l : list Z) (ma : Z) : option Z :=
  match l with
  | [] => None
  | x :: rest => if x =? mass then Some ma else first_index mass rest (ma + 1)
  end.

Definition pepMassIntIdx (uniq : list Z) (mass : Z) : Z :=
  default 0 (first_index mass uniq 0).

(** [intensArrayTheor] after the two loops that fill it: zero
    throughout, then 1 at every theoretical peak. *)
Definition intensArrayTheor (maxPrecurMass : Z) (unordered_peak_list : list Z)
           (arr : list Z) : list Z :=
  fold_left (fun arr peak => wr arr peak 1) unordered_peak_list
            (for_up maxPrecurMass (fun ma arr => wr arr ma 0) arr).

(** The loop that sums the evidence at the theoretical peaks. *)
Definition scoreRefactInt (maxPrecurMass : Z) (evidenceObs intens : list Z) : Z :=
  for_up maxPrecurMass
    (fun ma score =>
       Int32.add score (Int32.wrap (rd 0 evidenceObs ma * rd 0 intens ma)))
    0.

(** ** Values for the headers *)

Module Crux.

Section Values.

Context {D : Type} `{DoubleOps D}.

Definition bin_width : D := dlit 10005079 10000000.
Definition bin_offset : D := dlit 40 100.

(** Representative values of the Crux distribution for what the
    headers define ([MAX_XCORR_OFFSET] 75, ten regions, bins of
    1.0005079 with offset 0.40).  No theorem depends on them; they
    serve to run the functions on concrete spectra. *)
Definition headers : Headers D := {|
  MAX_XCORR_OFFSET := 75;
  NUM_SPECTRUM_REGIONS := 10;
  MASS_PROTON := dlit 100727646688 100000000000;
  ISOTOPE_SPACING := dlit 100335483 100000000;
  BIN_WIDTH := bin_width;
  mass2bin mass := to_int (mass / bin_width + of_int 1 - bin_offset)%D;
  BIN_NH3 := 17;
  BIN_H2O := 18;
  bin2mass bin := ((of_int bin - of_int 1 + bin_offset) * bin_width)%D;
  mono_h := dlit 1007825035 1000000000;
  mono_oh := dlit 17002739665 1000000000;
  InitBin max_mz :=
    let max_bin_end := to_int (max_mz / bin_width + of_int 1 - bin_offset)%D + 1 in
    {| MaxBinEnd := max_bin_end;
       BackgroundBinEnd := max_bin_end + 75;
       CacheBinEnd := max_bin_end + 75 + 30 |}
|}.

End Values.

End Crux.

(** ** Vocabulary of the statements *)

Fixpoint Rsum (l : list R) : R :=
  match l with
  | [] => 0%R
  | x :: rest => (x + Rsum rest)%R
  end.

(** The sum of the entries of [rs] at the indices [lo <= j < hi]. *)
Definition Rsum_between (rs : list R) (lo hi : Z) : R :=
  Rsum (drop (Z.to_nat lo) (take (Z.to_nat hi) rs)).

(** The value a region's first loop leaves in a bin: 0 when the bin is
    at or below the cut-off. *)
Definition threshold (c r : R) : R := if Rle_dec r c then 0%R else r.

(** The largest of 0 and [f lo], ..., [f (lo + k - 1)]. *)
Fixpoint Rmax_upto (f : Z -> R) (lo : Z) (k : nat) : R :=
  match k with
  | O => 0%R
  | S k' => Rmax (Rmax_upto f lo k') (f (lo + Z.of_nat k'))
  end.

Definition in_region (lo len idx : Z) : bool := (lo <=? idx) && (idx <? lo + len).

(** The peaks the range test keeps, and the number of those it drops. *)
Definition below_cut_off {D} `{DoubleOps D} (cut_off : D) (p : D * D) : bool :=
  negb (fst p >=? cut_off)%D.

Definition kept_peaks {D} `{DoubleOps D} (cut_off : D) (ps : list (D * D))
  : list (D * D) :=
  List.filter (below_cut_off cut_off) ps.



(** What the normalisation leaves in a bin of a region of [s] bins:
    the value after the cut, rescaled by 50 over the region's largest
    such value when that is not 0. *)
Definition normalized (c : R) (g : Z -> R) (s idx : Z) : R :=
  let m := Rmax_upto (fun j => threshold c (g j)) (idx / s * s) (Z.to_nat s) in
  if Req_dec_T m 0 then threshold c (g idx) else (threshold c (g idx) * (50 / m))%R.



(** [v] is what bucketing leaves in bin [b] for the peaks [ps]: 0 or
    the intensity of one of the peaks of the bin, and no peak of the
    bin has a larger intensity. *)
Definition bucket_max {D} `{DoubleOps D} `{Headers D}
           (ps : list (D * D)) (b : Z) (v : D) : Prop :=
  (v = d0 \/ exists p, In p ps /\ mass2bin (fst p) = b /\ snd p = v)
  /\ forall p, In p ps -> mass2bin (fst p) = b -> (snd p >? v)%D = false.

(** A small cache for the examples. *)
Definition small_bins : MaxBin :=
  {| MaxBinEnd := 1; BackgroundBinEnd := 2; CacheBinEnd := 3 |}.

Definition small_cache : list Z :=
  [7; 0; 0; 0; 0; 0; 0; 0;  -3; 1; 1; 1; 1; 1; 1; 1] ++ replicate 16 9.

(** A spectrum for the examples: three peaks at m/z 10, 50 and 51 with
    intensities 10000, 16 and 1, precursor m/z 60. *)
Definition three_peaks : Spectrum (D := spec_float) :=
  {| SpectrumNumber := 1;
     PrecursorMZ := B64.of_Z 60;
     MaxCharge := 2;
     peak_list := [(B64.of_Z 10, B64.of_Z 10000);
                   (B64.of_Z 50, B64.of_Z 16);
                   (B64.of_Z 51, B64.of_Z 1)] |}.

Definition plain_params : PreprocessParams (D := spec_float) :=
  {| skip_preprocessing := false;
     remove_precursor_peak := false;
     remove_precursor_tolerance := B64.of_Z 0;
     deisotope := B64.of_Z 0 |}.

Definition skip_params : PreprocessParams (D := spec_float) :=
  {| skip_preprocessing := true;
     remove_precursor_peak := false;
     remove_precursor_tolerance := B64.of_Z 0;
     deisotope := B64.of_Z 0 |}.

Definition global_bins : MaxBin :=
  {| MaxBinEnd := 100; BackgroundBinEnd := 175; CacheBinEnd := 205 |}.

(** A spectrum whose second peak lies above the cut-off of charge 1
    (precursor m/z 30: the cut-off is 80). *)
Definition peak_beyond_range : Spectrum (D := spec_float) :=
  {| SpectrumNumber := 2;
     PrecursorMZ := B64.of_Z 30;
     MaxCharge := 1;
     peak_list := [(B64.of_Z 20, B64.of_Z 1); (B64.of_Z 90, B64.of_Z 9)] |}.

Definition empty_peak_set : ObservedPeakSet (D := spec_float) :=
  {| peaks_ := replicate 175 d0;
     cache_ := replicate (205 * 8) 0;
     max_mz_ := global_bins;
     cache_end_ := 205 * 8;
     NL_ := true;
     FP_ := true |}.

(** A scored pair respects the guard when, scored by exact p-value, it
    was scored with the deisotoping threshold at zero. *)
Definition guarded {D} `{DoubleOps D} (s : Scored (D := D)) : Prop :=
  scored_exact_pval s = true -> (scored_deisotope s !=? d0)%D = false.


(** A search configured for exact p-values together with a deisotoping
    threshold of 1, over the scans 5 to 10. *)
Definition exact_deisotope_config : SearchConfig (D := spec_float) :=
  {| spectrum_filename := "demo.ms2"%string;
     precursor_window := B64.of_Z 3;
     window_type := WINDOW_MASS;
     spectrum_min_mz := B64.of_Z 0;
     spectrum_max_mz := B64.of_Z 10000;
     min_scan := 5;
     max_scan := 10;
     min_peaks := 1;
     search_charge := 0;
     max_precursor_charge := 5;
     exact_pval_search := true;
     preprocess_params :=
       {| skip_preprocessing := false;
          remove_precursor_peak := false;
          remove_precursor_tolerance := B64.of_Z 0;
          deisotope := B64.of_Z 1 |};
     negative_isotope_errors_ := [0];
     spectrum_flag := None |}.

(** The same with the scans from 0 on. *)
Definition exact_deisotope_all_scans : SearchConfig (D := spec_float) :=
  {| spectrum_filename := "demo.ms2"%string;
     precursor_window := B64.of_Z 3;
     window_type := WINDOW_MASS;
     spectrum_min_mz := B64.of_Z 0;
     spectrum_max_mz := B64.of_Z 10000;
     min_scan := 0;
     max_scan := 10;
     min_peaks := 1;
     search_charge := 0;
     max_precursor_charge := 5;
     exact_pval_search := true;
     preprocess_params :=
       {| skip_preprocessing := false;
          remove_precursor_peak := false;
          remove_precursor_tolerance := B64.of_Z 0;
          deisotope := B64.of_Z 1 |};
     negative_isotope_errors_ := [0];
     spectrum_flag := None |}.

(** [three_peaks] (scan 1) at charge 2. *)
Definition one_pair : SpecCharge (D := spec_float) :=
  {| neutral_mass := B64.of_Z 118; charge := 2; spectrum := three_peaks |}.

(** The peaks of [three_peaks] as the scan [scan_num]. *)
Definition scan_of_three_peaks (scan_num : Z) : Spectrum (D := spec_float) :=
  {| SpectrumNumber := scan_num;
     PrecursorMZ := PrecursorMZ three_peaks;
     MaxCharge := MaxCharge three_peaks;
     peak_list := peak_list three_peaks |}.

Definition pair_of_scan (scan_num : Z) : SpecCharge (D := spec_float) :=
  {| neutral_mass := B64.of_Z 118; charge := 2;
     spectrum := scan_of_three_peaks scan_num |}.

(** Exact p-values with a deisotoping threshold of 1 over every scan
    number of an [int], in a cascade search whose map holds the keys
    [keys] for the file searched. *)
Definition cascade_config (keys : list Z) : SearchConfig (D := spec_float) :=
  {| spectrum_filename := "demo.ms2"%string;
     precursor_window := B64.of_Z 3;
     window_type := WINDOW_MASS;
     spectrum_min_mz := B64.of_Z 0;
     spectrum_max_mz := B64.of_Z 10000;
     min_scan := Int32.min_signed;
     max_scan := Int32.max_signed;
     min_peaks := 1;
     search_charge := 0;
     max_precursor_charge := 5;
     exact_pval_search := true;
     preprocess_params :=
       {| skip_preprocessing := false;
          remove_precursor_peak := false;
          remove_precursor_tolerance := B64.of_Z 0;
          deisotope := B64.of_Z 1 |};
     negative_isotope_errors_ := [0];
     spectrum_flag := Some (map (fun k => ("demo.ms2"%string, k)) keys) |}.

(** A count: finite and not negative. *)
Definition finite_nonneg (x : XR.xreal) : Prop :=
  exists r, x = XR.XFin r /\ (0 <= r)%R.

(** The value of a finite extended real. *)
Definition xval (x : XR.xreal) : R :=
  match x with
  | XR.XFin r => r
  | _ => 0%R
  end.

(** [c j + c (j + 1) + ...], [len] terms. *)
Fixpoint sum_from (c : Z -> R) (j : Z) (len : nat) : R :=
  match len with
  | O => 0%R
  | S l => (c j + sum_from c (j + 1) l)%R
  end.

(** The total of the counts of [n] rows. *)
Definition grand_total (n : Z) (c : Z -> R) : R := sum_from c 0 (Z.to_nat n).

(** The cumulative count of the rows from [row] up. *)
Definition cumulative (n : Z) (c : Z -> R) (row : Z) : R :=
  sum_from c row (Z.to_nat (n - row)).

(** Every cell of the array holds a count. *)
Definition counts (a : list (list XR.xreal)) : Prop :=
  forall row col, finite_nonneg (dyn_get a row col).

(** The p-value the search reads for the score [X]: the caller indexes
    the table by the score plus the offset [calcScoreCount] returns. *)
Definition p_value (r : Z * list XR.xreal) (X : Z) : XR.xreal :=
  rd d0 (snd r) (X + fst r).

(** The headers of the Crux distribution, in exact arithmetic. *)
Definition crux_exact : Headers XR.xreal := Crux.headers.

(** A peptide of integer mass 20 over one residue of integer mass 1,
    flat evidence: two residues reach the mass. *)
Definition one_residue_table : Z * list XR.xreal :=
  calcScoreCount (H1 := crux_exact) [] 20 0 0 0 0 1
    [of_int 1] [of_int 1] [of_int 1] [1].

(** The exact sum of the [values] at the [positions], as [DotProd]
    accumulates it in an [int] for a cache and the codes of the
    theoretical peaks. *)
Definition sum_at (values positions : list Z) : Z :=
  fold_right (fun i acc => rd 0 values i + acc) 0 positions.

(** The base value of bin [i] that [ComputeCache] works from: the
    [PeakMain] cell below [BackgroundBinEnd], nothing from there on. *)
Definition base_value (max_mz : MaxBin) (cache : list Z) (i : Z) : Z :=
  if (0 <=? i) && (i <? BackgroundBinEnd max_mz) then Peak cache PeakMain i else 0.

Section CacheValues.

Context {D : Type} `{Headers D}.

(** The primary peak with its two flanks, in base values. *)
Definition flanked (max_mz : MaxBin) (FP : bool) (cache : list Z) (i : Z) : Z :=
  10 * base_value max_mz cache i
  + (if FP then
       (if 0 <? i then 5 * base_value max_mz cache (i - 1) else 0)
       + (if i <? CacheBinEnd max_mz - 1 then 5 * base_value max_mz cache (i + 1) else 0)
     else 0).

(** The same with the two neutral losses. *)
Definition with_losses (max_mz : MaxBin) (NL FP : bool) (cache : list Z) (i : Z) : Z :=
  flanked max_mz FP cache i
  + (if NL then
       (if BIN_NH3 <? i then 2 * base_value max_mz cache (i - BIN_NH3) else 0)
       + (if BIN_H2O <? i then 2 * base_value max_mz cache (i - BIN_H2O) else 0)
     else 0).

(** What the third loop computes for bin [i], read from [cache]. *)
Definition flanks_of (max_mz : MaxBin) (FP : bool) (cache : list Z) (i : Z) : Z :=
  let flanks := Peak cache PrimaryPeak i in
  if FP then
    let flanks :=
      if 0 <? i then Int32.add flanks (Peak cache FlankingPeak (i - 1)) else flanks in
    if i <? CacheBinEnd max_mz - 1
    then Int32.add flanks (Peak cache FlankingPeak (i + 1))
    else flanks
  else flanks.

Definition Y1_of (max_mz : MaxBin) (NL FP : bool) (cache : list Z) (i : Z) : Z :=
  let Y1 := flanks_of max_mz FP cache i in
  if NL then
    let Y1 :=
      if BIN_NH3 <? i then Int32.add Y1 (Peak cache LossPeak (i - BIN_NH3)) else Y1 in
    if BIN_H2O <? i then Int32.add Y1 (Peak cache LossPeak (i - BIN_H2O)) else Y1
  else Y1.

End CacheValues.

(** The peaks a thread has counted so far, in its four counters. *)
Definition counted (c : Counters) : Z :=
  num_range_skipped c + num_precursors_skipped c + num_isotopes_skipped c
  + num_retained c.




(** The configuration is one that ends a run at the first pair that
    reaches the window: an invalid window type, or exact p-values
    together with a deisotoping threshold. *)
Definition aborting {D} `{DoubleOps D} (cfg : SearchConfig (D := D)) : Prop :=
  window_type cfg = WINDOW_INVALID
  \/ (exact_pval_search cfg = true
      /\ (deisotope (preprocess_params cfg) !=? d0)%D = true).

(** What the loop has on record for a pair it scored. *)
Definition scored_as {D} `{DoubleOps D} (cfg : SearchConfig (D := D))
           (spec_charges : list (SpecCharge (D := D))) (s : Scored (D := D)) : Prop :=
  In (scored_pair s) spec_charges
  /\ eligible cfg (scored_pair s) = true
  /\ window_type cfg <> WINDOW_INVALID
  /\ scored_exact_pval s = exact_pval_search cfg
  /\ (exact_pval_search cfg = false -> scored_candidates s <> 0).

(** A search in the standard mode over all scans. *)
Definition standard_config : SearchConfig (D := spec_float) :=
  {| spectrum_filename := "demo.ms2"%string;
     precursor_window := B64.of_Z 3;
     window_type := WINDOW_MASS;
     spectrum_min_mz := B64.of_Z 0;
     spectrum_max_mz := B64.of_Z 10000;
     min_scan := 0;
     max_scan := 10;
     min_peaks := 1;
     search_charge := 0;
     max_precursor_charge := 5;
     exact_pval_search := false;
     preprocess_params :=
       {| skip_preprocessing := false;
          remove_precursor_peak := false;
          remove_precursor_tolerance := B64.of_Z 0;
          deisotope := B64.of_Z 0 |};
     negative_isotope_errors_ := [0];
     spectrum_flag := None |}.

(** A peptide of integer mass 20 over one residue of integer mass 5:
    no sequence of residues reaches the mass. *)
Definition heavy_residue_table : Z * list XR.xreal :=
  calcScoreCount (H1 := crux_exact) [] 20 0 0 0 0 1
    [of_int 1] [of_int 1] [of_int 1] [5].

(** [f 0 + ... + f (k - 1)]. *)
Fixpoint Zsum_upto (f : Z -> Z) (k : nat) : Z :=
  match k with
  | O => 0
  | S k' => Zsum_upto f k' + f (Z.of_nat k')
  end.

(** Whether [i] is among the peaks, as a number. *)
Definition indicator (peaks : list Z) (i : Z) : Z :=
  if existsb (Z.eqb i) peaks then 1 else 0.

(** A reading of decimal numbers for the examples. *)
Definition decimal (s : string) : Z :=
  default 0 (IsotopeErrors.read_int (list_ascii_of_string s)).

Definition example_params : MainParams :=
  {| peptide_centric_search := false;
     num_threads_param := 8;
     spectrum_charge := "2";
     scan_number := "17";
     exact_p_value := true;
     mz_bin_width_is_default := true;
     compute_sp_param := false;
     sqt_output := true |}.

(** * Properties *)

(** ** Arrays and loops: the reasoning principles *)

Section Loops.

Context {S : Type}.

Lemma fold_seq_inv (P : nat -> S -> Prop) (body : Z -> S -> S) (m : nat) (s : S) :
  P 0%nat s ->
  (forall i s, (i < m)%nat -> P i s -> P (Datatypes.S i) (body (Z.of_nat i) s)) ->
  P m (fold_left (fun s i => body (Z.of_nat i) s) (seq 0 m) s).
Proof.
  intros H0 Hstep. induction m as [|m IH].
  - exact H0.
  - rewrite seq_S, fold_left_app. simpl. apply Hstep; [lia|].
    apply IH. intros i s' Hi. apply Hstep. lia.
Qed.

(** The invariant rule of an upward loop. *)
Lemma for_up_inv (P : Z -> S -> Prop) (n : Z) (body : Z -> S -> S) (s : S) :
  0 <= n ->
  P 0 s ->
  (forall i s, 0 <= i < n -> P i s -> P (i + 1) (body i s)) ->
  P n (for_up n body s).
Proof.
  intros Hn H0 Hstep. unfold for_up.
  replace n with (Z.of_nat (Z.to_nat n)) at 1 by lia.
  apply (fold_seq_inv (fun k s => P (Z.of_nat k) s)); [exact H0|].
  intros i s' Hi HP. replace (Z.of_nat (Datatypes.S i)) with (Z.of_nat i + 1) by lia.
  apply Hstep; [lia|exact HP].
Qed.

Lemma for_up_nonpos (n : Z) (body : Z -> S -> S) (s : S) :
  n <= 0 -> for_up n body s = s.
Proof.
  intros Hn. unfold for_up. replace (Z.to_nat n) with 0%nat by lia. reflexivity.
Qed.

Lemma fold_rev_seq_inv (P : nat -> S -> Prop) (body : Z -> S -> S) (m : nat) (s : S) :
  P m s ->
  (forall i s, (i < m)%nat -> P (Datatypes.S i) s -> P i (body (Z.of_nat i) s)) ->
  P 0%nat (fold_left (fun s i => body (Z.of_nat i) s) (rev (seq 0 m)) s).
Proof.
  revert s. induction m as [|m IH]; intros s Hs Hstep.
  - exact Hs.
  - rewrite seq_S, rev_app_distr. simpl. apply IH.
    + apply Hstep; [lia|exact Hs].
    + intros i s' Hi. apply Hstep. lia.
Qed.

(** The invariant rule of a downward loop: [P i] holds once the
    indices from [i] up have been visited. *)
Lemma for_down_inv (P : Z -> S -> Prop) (n : Z) (body : Z -> S -> S) (s : S) :
  0 <= n ->
  P n s ->
  (forall i s, 0 <= i < n -> P (i + 1) s -> P i (body i s)) ->
  P 0 (for_down n body s).
Proof.
  intros Hn H0 Hstep. unfold for_down.
  apply (fold_rev_seq_inv (fun k s => P (Z.of_nat k) s)).
  - replace (Z.of_nat (Z.to_nat n)) with n by lia. exact H0.
  - intros i s' Hi HP. apply Hstep; [lia|].
    replace (Z.of_nat i + 1) with (Z.of_nat (Datatypes.S i)) by lia. exact HP.
Qed.

End Loops.

Section Arrays.

Context {A : Type}.
Implicit Types (a : list A) (i j : Z) (x d : A).

Lemma length_wr a i x : length (wr a i x) = length a.
Proof. unfold wr. destruct (i <? 0); [reflexivity|apply length_insert]. Qed.

Lemma rd_wr_eq d a i x :
  0 <= i < Z.of_nat (length a) -> rd d (wr a i x) i = x.
Proof.
  intros Hi. unfold rd, wr. destruct (Z.ltb_spec i 0); [lia|].
  rewrite list_lookup_insert_eq; [reflexivity|lia].
Qed.

Lemma rd_wr_ne d a i j x : i <> j -> rd d (wr a i x) j = rd d a j.
Proof.
  intros Hne. unfold rd, wr.
  destruct (Z.ltb_spec i 0), (Z.ltb_spec j 0); try reflexivity.
  rewrite list_lookup_insert_ne; [reflexivity|lia].
Qed.

Lemma rd_outside d a i : i < 0 \/ Z.of_nat (length a) <= i -> rd d a i = d.
Proof.
  intros Hi. unfold rd. destruct (Z.ltb_spec i 0); [reflexivity|].
  rewrite lookup_ge_None_2; [reflexivity|lia].
Qed.

Lemma wr_outside a i x : i < 0 \/ Z.of_nat (length a) <= i -> wr a i x = a.
Proof.
  intros Hi. unfold wr. destruct (Z.ltb_spec i 0); [reflexivity|].
  apply list_insert_ge. lia.
Qed.

Lemma rd_replicate d n i : rd d (replicate n d) i = d.
Proof.
  unfold rd. destruct (i <? 0); [reflexivity|].
  destruct (replicate n d !! Z.to_nat i) eqn:E; [|reflexivity].
  apply lookup_replicate in E. simpl. tauto.
Qed.

Lemma rd_map {B} (f : A -> B) d a i : rd (f d) (map f a) i = f (rd d a i).
Proof.
  unfold rd. destruct (i <? 0); [reflexivity|].
  change (map f a) with (f <$> a). rewrite list_lookup_fmap.
  destruct (a !! Z.to_nat i); reflexivity.
Qed.

End Arrays.

Import XR.

Lemma rd_XFin (rs : list R) (i : Z) :
  rd d0 (map XFin rs) i = XFin (rd 0%R rs i).
Proof. apply (rd_map XFin 0%R). Qed.

(** ** Background subtraction *)

Section Background.

Context `{Hd : Headers xreal}.

Lemma Rsum_app l1 l2 : Rsum (l1 ++ l2) = (Rsum l1 + Rsum l2)%R.
Proof. induction l1 as [|x l1 IH]; simpl; [lra|rewrite IH; lra]. Qed.

Lemma Rsum_take_S (rs : list R) (k : nat) :
  Rsum (take (S k) rs) = (Rsum (take k rs) + rd 0%R rs (Z.of_nat k))%R.
Proof.
  unfold rd. destruct (Z.ltb_spec (Z.of_nat k) 0); [lia|].
  rewrite Nat2Z.id. destruct (rs !! k) as [x|] eqn:E.
  - rewrite (take_S_r _ _ _ E), Rsum_app. simpl. lra.
  - apply lookup_ge_None_1 in E. rewrite !take_ge by lia. simpl. lra.
Qed.

Lemma Rsum_between_split (rs : list R) (lo hi : Z) :
  0 <= lo <= hi ->
  Rsum (take (Z.to_nat hi) rs)
  = (Rsum (take (Z.to_nat lo) rs) + Rsum_between rs lo hi)%R.
Proof.
  intros Hlh. unfold Rsum_between.
  rewrite <- Rsum_app.
  replace (take (Z.to_nat lo) rs)
    with (take (Z.to_nat lo) (take (Z.to_nat hi) rs)).
  - rewrite take_drop. reflexivity.
  - rewrite take_take. f_equal. lia.
Qed.

Lemma Rsum_replicate (k : nat) (v : R) : Rsum (replicate k v) = (INR k * v)%R.
Proof.
  induction k as [|k IH]; [simpl; lra|].
  rewrite S_INR. simpl. rewrite IH. lra.
Qed.

Lemma Rsum_between_replicate (n : nat) (v : R) (lo hi : Z) :
  0 <= lo <= hi -> hi <= Z.of_nat n ->
  Rsum_between (replicate n v) lo hi = (IZR (hi - lo) * v)%R.
Proof.
  intros Hlh Hhi. unfold Rsum_between.
  rewrite take_replicate, drop_replicate, Rsum_replicate.
  rewrite INR_IZR_INZ. do 2 f_equal. lia.
Qed.

(** After the first pass the array of partial sums holds the prefix
    sums, the last one twice. *)
Lemma fill_partial_sums_spec (rs : list R) (n j : Z) :
  0 <= j <= n ->
  rd d0 (fill_partial_sums (map XFin rs) n) j
  = XFin (Rsum (take (Z.to_nat (Z.min n (j + 1))) rs)).
Proof.
  intros Hj. unfold fill_partial_sums.
  pose (Inv := fun (k : Z) (s : list xreal * xreal) =>
    length (fst s) = Z.to_nat (n + 1)
    /\ snd s = XFin (Rsum (take (Z.to_nat k) rs))
    /\ forall j, 0 <= j < k ->
         rd d0 (fst s) j = XFin (Rsum (take (Z.to_nat (j + 1)) rs))).
  match goal with
  | |- context [for_up n ?body ?s0] =>
      assert (HI : Inv n (for_up n body s0))
  end.
  { apply for_up_inv; [lia| |].
    - unfold Inv; simpl. rewrite length_replicate. repeat split. intros; lia.
    - intros i [ps total] Hi (Hlen & Htot & Hps). simpl in *.
      unfold Inv; simpl. rewrite length_wr. split; [exact Hlen|].
      assert (Hnew : xadd total (rd d0 (map XFin rs) i)
                     = XFin (Rsum (take (Z.to_nat (i + 1)) rs))).
      { rewrite Htot, rd_XFin. simpl.
        replace (Z.to_nat (i + 1)) with (S (Z.to_nat i)) by lia.
        rewrite Rsum_take_S. rewrite Z2Nat.id by lia. reflexivity. }
      split; [exact Hnew|].
      intros j' Hj'. destruct (Z.eq_dec j' i) as [->|Hne].
      + rewrite rd_wr_eq by lia. exact Hnew.
      + rewrite rd_wr_ne by lia. apply Hps. lia. }
  destruct (for_up n _ _) as [ps total]. destruct HI as (Hlen & Htot & Hps).
  simpl in *. destruct (Z.eq_dec j n) as [->|Hne].
  - rewrite rd_wr_eq by lia. rewrite Htot. f_equal. f_equal. f_equal. lia.
  - rewrite rd_wr_ne by lia. rewrite Hps by lia. f_equal. f_equal. f_equal. lia.
Qed.

Lemma multiplier_exact :
  0 < MAX_XCORR_OFFSET ->
  multiplier = XFin (1 / IZR (2 * MAX_XCORR_OFFSET)).
Proof.
  intros HM. unfold multiplier. simpl.
  destruct (Req_dec_T (IZR (MAX_XCORR_OFFSET * 2)) 0) as [E|_].
  - apply eq_IZR_R0 in E. lia.
  - do 3 f_equal. lia.
Qed.

(** What [SubtractBackground] leaves at an index below [end]: the
    value less the sum of the window around it (without the value
    itself, and without bin 0) over the fixed [2 * MAX_XCORR_OFFSET]. *)
Lemma SubtractBackground_exact (rs : list R) (n i : Z) :
  0 < MAX_XCORR_OFFSET ->
  0 <= i < n -> n <= Z.of_nat (length rs) ->
  rd d0 (SubtractBackground (map XFin rs) n) i
  = XFin (rd 0%R rs i
          - (Rsum_between rs (Z.max 1 (i - MAX_XCORR_OFFSET))
                             (Z.min n (i + MAX_XCORR_OFFSET + 1))
             - rd 0%R rs i) / IZR (2 * MAX_XCORR_OFFSET)).
Proof.
  intros HM Hi Hn. unfold SubtractBackground.
  set (ps := fill_partial_sums (map XFin rs) n).
  set (val := fun j : Z =>
    XFin (rd 0%R rs j
          - (Rsum_between rs (Z.max 1 (j - MAX_XCORR_OFFSET))
                             (Z.min n (j + MAX_XCORR_OFFSET + 1))
             - rd 0%R rs j) / IZR (2 * MAX_XCORR_OFFSET))).
  pose (Inv := fun (k : Z) (obs : list xreal) =>
    length obs = length rs
    /\ (forall j, 0 <= j < k -> rd d0 obs j = val j)
    /\ (forall j, k <= j -> rd d0 obs j = XFin (rd 0%R rs j))).
  match goal with
  | |- context [for_up n ?body ?s0] =>
      assert (HI : Inv n (for_up n body s0))
  end.
  { apply for_up_inv; [lia| |].
    - unfold Inv. rewrite length_map. repeat split; [intros; lia|].
      intros j _. apply rd_XFin.
    - intros k obs Hk (Hlen & Hdone & Htodo). unfold Inv.
      rewrite length_wr. split; [exact Hlen|]. split.
      + intros j Hj. destruct (Z.eq_dec j k) as [->|Hne].
        * rewrite rd_wr_eq by lia. rewrite Htodo by lia.
          unfold ps. rewrite !fill_partial_sums_spec by lia.
          rewrite multiplier_exact by exact HM. unfold val. simpl. f_equal.
          replace (Z.min n (Z.max 0 (k - MAX_XCORR_OFFSET - 1) + 1))
            with (Z.max 1 (k - MAX_XCORR_OFFSET)) by lia.
          replace (Z.min n (Z.min n (k + MAX_XCORR_OFFSET) + 1))
            with (Z.min n (k + MAX_XCORR_OFFSET + 1)) by lia.
          rewrite (Rsum_between_split rs (Z.max 1 (k - MAX_XCORR_OFFSET))
                     (Z.min n (k + MAX_XCORR_OFFSET + 1))) by lia.
          assert (IZR (2 * MAX_XCORR_OFFSET) <> 0%R)
            by (intros E; apply eq_IZR_R0 in E; lia).
          field. assumption.
        * rewrite rd_wr_ne by lia. apply Hdone. lia.
      + intros j Hj. rewrite rd_wr_ne by lia. apply Htodo. lia. }
  destruct HI as (_ & Hdone & _). apply Hdone. lia.
Qed.

End Background.

(** Claim C2, as the code has it.  In exact arithmetic
    [SubtractBackground] takes from every bin below [end] the sum of the
    other bins at most [MAX_XCORR_OFFSET] away (bin 0 never counted),
    divided by [2 * MAX_XCORR_OFFSET] whatever the number of bins
    summed.  For a spectrum whose bins all hold the intensity [v] the
    result is therefore exactly 0 at the indices that have the whole
    window inside the array, [MAX_XCORR_OFFSET < i] and
    [i + MAX_XCORR_OFFSET < end], for every length. *)
Theorem background_window_mean (Hd : Headers xreal) :
  0 < MAX_XCORR_OFFSET ->
  (forall (rs : list R) (n i : Z),
      0 <= i < n -> n <= Z.of_nat (length rs) ->
      rd d0 (SubtractBackground (map XFin rs) n) i
      = XFin (rd 0%R rs i
              - (Rsum_between rs (Z.max 1 (i - MAX_XCORR_OFFSET))
                                 (Z.min n (i + MAX_XCORR_OFFSET + 1))
                 - rd 0%R rs i) / IZR (2 * MAX_XCORR_OFFSET)))
  /\ (forall (v : R) (n i : Z),
         MAX_XCORR_OFFSET < i -> i + MAX_XCORR_OFFSET < n ->
         rd d0 (SubtractBackground (replicate (Z.to_nat n) (XFin v)) n) i = XFin 0).
Proof.
  intros HM. split.
  - intros rs n i Hi Hn. apply SubtractBackground_exact; assumption.
  - intros v n i Hlo Hhi.
    replace (replicate (Z.to_nat n) (XFin v))
      with (map XFin (replicate (Z.to_nat n) v))
      by (change (map XFin (replicate (Z.to_nat n) v))
            with (XFin <$> replicate (Z.to_nat n) v);
          apply fmap_replicate).
    rewrite SubtractBackground_exact
      by (try assumption; rewrite ?length_replicate; lia).
    rewrite Rsum_between_replicate by lia.
    assert (Hrd : rd 0%R (replicate (Z.to_nat n) v) i = v).
    { unfold rd. destruct (Z.ltb_spec i 0); [lia|].
      rewrite lookup_replicate_2 by lia. reflexivity. }
    rewrite Hrd.
    replace (Z.min n (i + MAX_XCORR_OFFSET + 1) - Z.max 1 (i - MAX_XCORR_OFFSET))
      with (2 * MAX_XCORR_OFFSET + 1) by lia.
    rewrite plus_IZR.
    assert (IZR (2 * MAX_XCORR_OFFSET) <> 0%R)
      by (intros E; apply eq_IZR_R0 in E; lia).
    f_equal. field. assumption.
Qed.

(** With the window of the Crux headers: bin 100 of 200 equal bins. *)
Lemma background_window_mean_witness :
  rd d0 (SubtractBackground (H0 := Crux.headers)
           (replicate (Z.to_nat 200) (XFin 7)) 200) 100 = XFin 0.
Proof.
  apply (proj2 (background_window_mean Crux.headers ltac:(simpl; lia)) 7%R 200 100);
    simpl; lia.
Defined.

(** Claim C2, as the spec has it, fails at the ends of the array: in
    binary64, of 200 bins that all hold 1.0 the first keeps more than
    one half, while bin 100 is cleared. *)
Lemma background_not_uniform :
  let r := SubtractBackground (H0 := Crux.headers) (replicate 200 (B64.of_Z 1)) 200 in
  (dlit 1 2 <? rd d0 r 0)%D = true /\ rd d0 r 100 = B64.of_Z 0.
Proof. vm_compute. split; reflexivity. Qed.


(** ** Region normalisation *)

(** ** Comparisons of finite extended reals *)

Lemma xlt_fin (a b : R) : xlt (XFin a) (XFin b) = if Rlt_dec a b then true else false.
Proof. reflexivity. Qed.

Lemma xle_fin (a b : R) : xle (XFin a) (XFin b) = if Rle_dec a b then true else false.
Proof.
  unfold xle, xlt, xeq.
  destruct (Rlt_dec a b), (Req_dec_T a b), (Rle_dec a b); simpl; try reflexivity; lra.
Qed.

Lemma xeq_fin (a b : R) : xeq (XFin a) (XFin b) = if Req_dec_T a b then true else false.
Proof. reflexivity. Qed.

Section Regions.

Context `{Hd : Headers xreal}.

Variable c : R.

Lemma region_threshold_spec (s i : Z) (peaks : list xreal) (g : Z -> R) :
  0 <= i -> 0 <= s -> (i + 1) * s <= Z.of_nat (length peaks) ->
  (forall idx, rd d0 peaks idx = XFin (g idx)) ->
  let r := region_threshold (XFin c) s i peaks in
  length (fst r) = length peaks
  /\ snd r = XFin (Rmax_upto (fun j => threshold c (g j)) (i * s) (Z.to_nat s))
  /\ forall idx, rd d0 (fst r) idx
                 = XFin (if in_region (i * s) s idx then threshold c (g idx) else g idx).
Proof.
  intros Hi Hs Hlen Hg. unfold region_threshold.
  pose (Inv := fun (k : Z) (st : list xreal * xreal) =>
    length (fst st) = length peaks
    /\ snd st = XFin (Rmax_upto (fun j => threshold c (g j)) (i * s) (Z.to_nat k))
    /\ forall idx, rd d0 (fst st) idx
         = XFin (if in_region (i * s) k idx then threshold c (g idx) else g idx)).
  apply (for_up_inv Inv); [exact Hs| |].
  - unfold Inv; simpl. repeat split. intros idx. rewrite Hg.
    unfold in_region. destruct (Z.leb_spec (i * s) idx), (Z.ltb_spec idx (i * s + 0));
      simpl; try reflexivity; lia.
  - intros k [ps hi] Hk (Hl & Hhi & Hps). simpl in Hl, Hhi, Hps.
    set (index := i * s + k).
    assert (Hin : 0 <= index < Z.of_nat (length ps)) by (unfold index; nia).
    assert (Hcur : rd d0 ps index = XFin (g index)).
    { rewrite Hps. unfold in_region, index.
      destruct (Z.leb_spec (i * s) (i * s + k)), (Z.ltb_spec (i * s + k) (i * s + k));
        simpl; try reflexivity; lia. }
    set (ps' := if (rd d0 ps index <=? XFin c)%D then wr ps index d0 else ps).
    assert (Hnew : rd d0 ps' index = XFin (threshold c (g index))).
    { unfold ps'. rewrite Hcur. cbn [dle XR.ops]. rewrite xle_fin. unfold threshold.
      destruct (Rle_dec (g index) c).
      - rewrite rd_wr_eq by exact Hin. reflexivity.
      - exact Hcur. }
    assert (Hl' : length ps' = length peaks).
    { unfold ps'. destruct (_ <=? _)%D; [rewrite length_wr|]; exact Hl. }
    assert (Hother : forall idx, idx <> index -> rd d0 ps' idx = rd d0 ps idx).
    { intros idx Hne. unfold ps'. destruct (_ <=? _)%D; [|reflexivity].
      apply rd_wr_ne. lia. }
    assert (Hrest : forall idx, rd d0 ps' idx
              = XFin (if in_region (i * s) (k + 1) idx then threshold c (g idx) else g idx)).
    { intros idx. destruct (Z.eq_dec idx index) as [->|Hne].
      - rewrite Hnew. unfold in_region, index.
        destruct (Z.leb_spec (i * s) (i * s + k)), (Z.ltb_spec (i * s + k) (i * s + (k + 1)));
          simpl; try reflexivity; lia.
      - rewrite Hother by exact Hne. rewrite Hps. unfold in_region. unfold index in Hne.
        destruct (Z.leb_spec (i * s) idx), (Z.ltb_spec idx (i * s + k)),
          (Z.ltb_spec idx (i * s + (k + 1))); simpl; try reflexivity; lia. }
    change (Inv (k + 1)
              (if (rd d0 ps' index >? hi)%D then (ps', rd d0 ps' index) else (ps', hi))).
    replace (Z.to_nat (k + 1)) with (S (Z.to_nat k)) in * by lia.
    unfold Inv. replace (Z.to_nat (k + 1)) with (S (Z.to_nat k)) by lia.
    simpl Rmax_upto. rewrite Z2Nat.id by lia. fold index.
    rewrite Hnew, Hhi. cbn [dlt XR.ops]. rewrite xlt_fin.
    set (m := Rmax_upto (fun j => threshold c (g j)) (i * s) (Z.to_nat k)).
    destruct (Rlt_dec m (threshold c (g index))) as [Hlt|Hge]; simpl.
    + split; [exact Hl'|]. split; [|exact Hrest].
      f_equal. unfold Rmax. destruct (Rle_dec m _); [reflexivity|lra].
    + split; [exact Hl'|]. split; [|exact Hrest].
      f_equal. unfold Rmax. destruct (Rle_dec m _); [lra|reflexivity].
Qed.

Lemma region_scale_spec (q : R) (s i : Z) (peaks : list xreal) (g : Z -> R) :
  0 <= i -> 0 <= s -> (i + 1) * s <= Z.of_nat (length peaks) ->
  (forall idx, rd d0 peaks idx = XFin (g idx)) ->
  let r := region_scale (XFin q) s i peaks in
  length r = length peaks
  /\ forall idx, rd d0 r idx
                 = XFin (if in_region (i * s) s idx then g idx * q else g idx)%R.
Proof.
  intros Hi Hs Hlen Hg. unfold region_scale.
  pose (Inv := fun (k : Z) (ps : list xreal) =>
    length ps = length peaks
    /\ forall idx, rd d0 ps idx
         = XFin (if in_region (i * s) k idx then g idx * q else g idx)%R).
  apply (for_up_inv Inv); [exact Hs| |].
  - unfold Inv. split; [reflexivity|]. intros idx. rewrite Hg. unfold in_region.
    destruct (Z.leb_spec (i * s) idx), (Z.ltb_spec idx (i * s + 0));
      simpl; try reflexivity; lia.
  - intros k ps Hk (Hl & Hps).
    set (index := i * s + k).
    assert (Hin : 0 <= index < Z.of_nat (length ps)) by (unfold index; nia).
    assert (Hcur : rd d0 ps index = XFin (g index)).
    { rewrite Hps. unfold in_region, index.
      destruct (Z.leb_spec (i * s) (i * s + k)), (Z.ltb_spec (i * s + k) (i * s + k));
        simpl; try reflexivity; lia. }
    unfold Inv. rewrite Hcur. cbn [deq XR.ops]. unfold d0. cbn [of_int XR.ops]. rewrite xeq_fin.
    destruct (Req_dec_T (g index) (IZR 0)) as [Hz|Hnz]; simpl.
    + split; [exact Hl|]. intros idx. rewrite Hps. unfold in_region.
      destruct (Z.eq_dec idx index) as [->|Hne].
      * unfold index.
        destruct (Z.leb_spec (i * s) (i * s + k)), (Z.ltb_spec (i * s + k) (i * s + k)),
          (Z.ltb_spec (i * s + k) (i * s + (k + 1))); simpl; try lia.
        fold index. rewrite Hz. f_equal. lra.
      * unfold index in Hne.
        destruct (Z.leb_spec (i * s) idx), (Z.ltb_spec idx (i * s + k)),
          (Z.ltb_spec idx (i * s + (k + 1))); simpl; try reflexivity; lia.
    + rewrite length_wr. split; [exact Hl|]. intros idx.
      destruct (Z.eq_dec idx index) as [->|Hne].
      * rewrite rd_wr_eq by exact Hin. unfold in_region, index.
        destruct (Z.leb_spec (i * s) (i * s + k)), (Z.ltb_spec (i * s + k) (i * s + (k + 1)));
          simpl; try reflexivity; lia.
      * rewrite rd_wr_ne by lia. rewrite Hps. unfold in_region. unfold index in Hne.
        destruct (Z.leb_spec (i * s) idx), (Z.ltb_spec idx (i * s + k)),
          (Z.ltb_spec idx (i * s + (k + 1))); simpl; try reflexivity; lia.
Qed.

End Regions.

Section Regions2.

Context `{Hd : Headers xreal}.

Lemma Rmax_upto_ext (f f' : Z -> R) (lo : Z) (k : nat) :
  (forall j, lo <= j < lo + Z.of_nat k -> f j = f' j) ->
  Rmax_upto f lo k = Rmax_upto f' lo k.
Proof.
  induction k as [|k IH]; intros Hext; [reflexivity|].
  simpl. rewrite IH by (intros j Hj; apply Hext; lia).
  rewrite Hext by lia. reflexivity.
Qed.

Lemma Rmax_upto_nonneg (f : Z -> R) (lo : Z) (k : nat) : (0 <= Rmax_upto f lo k)%R.
Proof.
  induction k as [|k IH]; simpl; [lra|].
  eapply Rle_trans; [exact IH|apply Rmax_l].
Qed.

Lemma Rmax_upto_upper (f : Z -> R) (lo : Z) (k : nat) (j : Z) :
  lo <= j < lo + Z.of_nat k -> (f j <= Rmax_upto f lo k)%R.
Proof.
  induction k as [|k IH]; intros Hj; [lia|]. simpl.
  destruct (Z.eq_dec j (lo + Z.of_nat k)) as [->|Hne].
  - apply Rmax_r.
  - eapply Rle_trans; [apply IH; lia|apply Rmax_l].
Qed.

Lemma Rmax_upto_attained (f : Z -> R) (lo : Z) (k : nat) :
  Rmax_upto f lo k = 0%R
  \/ exists j, lo <= j < lo + Z.of_nat k /\ f j = Rmax_upto f lo k.
Proof.
  induction k as [|k IH]; [left; reflexivity|]. simpl.
  unfold Rmax. destruct (Rle_dec (Rmax_upto f lo k) (f (lo + Z.of_nat k))).
  - right. exists (lo + Z.of_nat k). split; [lia|reflexivity].
  - destruct IH as [E|(j & Hj & E)]; [left; exact E|].
    right. exists j. split; [lia|exact E].
Qed.

Lemma normalized_ext (c : R) (g g' : Z -> R) (s idx : Z) :
  0 < s ->
  (forall j, idx / s * s <= j < idx / s * s + s -> g j = g' j) ->
  normalized c g s idx = normalized c g' s idx.
Proof.
  intros Hs Hext. unfold normalized.
  rewrite (Rmax_upto_ext (fun j => threshold c (g j)) (fun j => threshold c (g' j)))
    by (intros j Hj; rewrite Hext by lia; reflexivity).
  rewrite (Hext idx); [reflexivity|].
  pose proof (Z.div_mod idx s ltac:(lia)). pose proof (Z.mod_pos_bound idx s Hs). lia.
Qed.

Lemma normalize_region_spec (c : R) (s i : Z) (peaks : list xreal) (g : Z -> R) :
  0 <= i -> 0 < s -> (i + 1) * s <= Z.of_nat (length peaks) ->
  (forall idx, rd d0 peaks idx = XFin (g idx)) ->
  let r := normalize_region (XFin c) s i peaks in
  length r = length peaks
  /\ forall idx, rd d0 r idx
                 = XFin (if in_region (i * s) s idx then normalized c g s idx else g idx).
Proof.
  intros Hi Hs Hlen Hg. unfold normalize_region.
  destruct (region_threshold_spec c s i peaks g Hi ltac:(lia) Hlen Hg)
    as (Hl & Hhi & Hps).
  destruct (region_threshold (XFin c) s i peaks) as [ps hi]. simpl in Hl, Hhi, Hps.
  assert (Hnorm : forall idx, in_region (i * s) s idx = true ->
            normalized c g s idx
            = let m := Rmax_upto (fun j => threshold c (g j)) (i * s) (Z.to_nat s) in
              if Req_dec_T m 0 then threshold c (g idx)
              else (threshold c (g idx) * (50 / m))%R).
  { intros idx Hin. unfold normalized. unfold in_region in Hin.
    apply andb_prop in Hin. destruct Hin as [H1 H2].
    apply Z.leb_le in H1. apply Z.ltb_lt in H2.
    replace (idx / s) with i; [reflexivity|].
    apply Z.div_unique with (idx - i * s); lia. }
  rewrite Hhi. cbn [deq XR.ops]. unfold d0. cbn [of_int XR.ops]. rewrite xeq_fin.
  set (m := Rmax_upto (fun j => threshold c (g j)) (i * s) (Z.to_nat s)) in *.
  destruct (Req_dec_T m (IZR 0)) as [Hz|Hnz].
  - split; [exact Hl|]. intros idx. rewrite Hps.
    destruct (in_region (i * s) s idx) eqn:Hin; [|reflexivity].
    rewrite (Hnorm idx Hin). cbv zeta. fold m.
    destruct (Req_dec_T m 0); [reflexivity|contradiction].
  - assert (Hq : (of_int 50 / XFin m)%D = XFin (50 / m)).
    { cbn [ddiv of_int XR.ops]. unfold xdiv.
      destruct (Req_dec_T m 0); [contradiction|reflexivity]. }
    unfold d0 in Hps. cbn [of_int XR.ops] in Hps.
    change (@of_int xreal XR.ops 50) with (XFin 50). 
    change (@of_int xreal XR.ops 50) with (XFin 50) in Hq.
    rewrite Hq.
    destruct (region_scale_spec (50 / m) s i ps
                (fun idx => if in_region (i * s) s idx then threshold c (g idx) else g idx)
                Hi ltac:(lia) ltac:(lia) Hps) as (Hl2 & Hps2).
    split; [lia|]. intros idx. rewrite Hps2.
    destruct (in_region (i * s) s idx) eqn:Hin; [|reflexivity].
    rewrite (Hnorm idx Hin). cbv zeta. fold m.
    destruct (Req_dec_T m 0); [contradiction|reflexivity].
Qed.

Lemma cutoff_exact (h : R) : (XFin h * dlit 5 100)%D = XFin (h * (5 / 100)).
Proof.
  unfold dlit. cbn [dmul ddiv of_int XR.ops]. unfold xdiv.
  destruct (Req_dec_T 100 0); [lra|reflexivity].
Qed.

Lemma normalize_regions_spec (rs : list R) (h : R) (largest_mz : Z) (idx : Z) :
  0 < NUM_SPECTRUM_REGIONS -> 0 <= largest_mz ->
  let s := largest_mz / NUM_SPECTRUM_REGIONS + 1 in
  NUM_SPECTRUM_REGIONS * s <= Z.of_nat (length rs) ->
  0 <= idx < NUM_SPECTRUM_REGIONS * s ->
  rd d0 (normalize_regions (map XFin rs) (XFin h) largest_mz) idx
  = XFin (normalized (h * (5 / 100)) (rd 0%R rs) s idx).
Proof.
  intros HN Hl s Hlen Hidx. unfold normalize_regions.
  rewrite cutoff_exact. rewrite Z.quot_div_nonneg by lia. fold s.
  set (c := (h * (5 / 100))%R).
  assert (Hs : 0 < s) by (unfold s; pose proof (Z.div_pos largest_mz NUM_SPECTRUM_REGIONS); lia).
  pose (Inv := fun (I : Z) (ps : list xreal) =>
    length ps = length rs
    /\ forall j, rd d0 ps j
         = XFin (if in_region 0 (I * s) j then normalized c (rd 0%R rs) s j
                 else rd 0%R rs j)).
  match goal with
  | |- context [for_up ?n ?body ?s0] => assert (HI : Inv n (for_up n body s0))
  end.
  { apply for_up_inv; [lia| |].
    - unfold Inv. rewrite length_map. split; [reflexivity|]. intros j.
      rewrite rd_XFin. unfold in_region.
      destruct (Z.leb_spec 0 j), (Z.ltb_spec j (0 + 0 * s)); simpl; try reflexivity; lia.
    - intros I ps HI (Hlps & Hps).
      destruct (normalize_region_spec c s I ps _ ltac:(lia) Hs ltac:(nia) Hps)
        as (Hl2 & Hps2).
      unfold Inv. split; [lia|]. intros j. rewrite Hps2.
      destruct (in_region (I * s) s j) eqn:Hin.
      + assert (Hj : I * s <= j < I * s + s).
        { unfold in_region in Hin. apply andb_prop in Hin. destruct Hin as [H1 H2].
          apply Z.leb_le in H1. apply Z.ltb_lt in H2. lia. }
        assert (Hin' : in_region 0 ((I + 1) * s) j = true).
        { unfold in_region. apply andb_true_intro. split;
            [apply Z.leb_le|apply Z.ltb_lt]; nia. }
        rewrite Hin'. f_equal. apply normalized_ext; [exact Hs|].
        intros j' Hj'.
        assert (HIj : j / s = I) by (symmetry; apply Z.div_unique with (j - I * s); lia).
        rewrite HIj in Hj'. unfold in_region.
        destruct (Z.leb_spec 0 j'), (Z.ltb_spec j' (0 + I * s)); simpl; try reflexivity; lia.
      + assert (Hsame : in_region 0 ((I + 1) * s) j = in_region 0 (I * s) j).
        { unfold in_region in *.
          destruct (Z.leb_spec (I * s) j), (Z.ltb_spec j (I * s + s)),
            (Z.leb_spec 0 j), (Z.ltb_spec j (0 + I * s)),
            (Z.ltb_spec j (0 + (I + 1) * s)); simpl in *; try reflexivity;
            try discriminate; nia. }
        rewrite Hsame. reflexivity. }
  destruct HI as (_ & Hps). rewrite Hps. unfold in_region.
  destruct (Z.leb_spec 0 idx), (Z.ltb_spec idx (0 + NUM_SPECTRUM_REGIONS * s));
    simpl; try reflexivity; lia.
Qed.

End Regions2.

(** Claim C3, as the code has it.  In exact arithmetic, with [h] the
    highest intensity of the whole spectrum and regions of
    [largest_mz / NUM_SPECTRUM_REGIONS + 1] bins: every bin of a region
    that is at or below 5% of [h] is zeroed; then, when the region
    still has a bin above 0, every bin is multiplied by 50 over the
    region's largest bin, so that the largest bin becomes 50 and no bin
    exceeds it; a region with no such bin stays as the cut left it. *)
Theorem region_normalisation (Hd : Headers xreal) (rs : list R) (h : R)
        (largest_mz i : Z) :
  0 < NUM_SPECTRUM_REGIONS -> 0 <= largest_mz ->
  let s := largest_mz / NUM_SPECTRUM_REGIONS + 1 in
  let c := (h * (5 / 100))%R in
  let out := normalize_regions (map XFin rs) (XFin h) largest_mz in
  let m := Rmax_upto (fun j => threshold c (rd 0%R rs j)) (i * s) (Z.to_nat s) in
  NUM_SPECTRUM_REGIONS * s <= Z.of_nat (length rs) ->
  0 <= i < NUM_SPECTRUM_REGIONS ->
  (forall idx, i * s <= idx < (i + 1) * s ->
     rd d0 out idx
     = XFin (if Req_dec_T m 0 then threshold c (rd 0%R rs idx)
             else threshold c (rd 0%R rs idx) * (50 / m))%R)
  /\ (m <> 0%R ->
      (exists idx, i * s <= idx < (i + 1) * s /\ rd d0 out idx = XFin 50)
      /\ (forall idx, i * s <= idx < (i + 1) * s ->
            exists x, rd d0 out idx = XFin x /\ (x <= 50)%R)).
Proof.
  intros HN Hl s c out m Hlen Hi.
  assert (Hs : 0 < s)
    by (unfold s; pose proof (Z.div_pos largest_mz NUM_SPECTRUM_REGIONS); lia).
  assert (Hbin : forall idx, i * s <= idx < (i + 1) * s ->
            rd d0 out idx
            = XFin (if Req_dec_T m 0 then threshold c (rd 0%R rs idx)
                    else threshold c (rd 0%R rs idx) * (50 / m))%R).
  { intros idx Hidx. unfold out.
    rewrite normalize_regions_spec by (try assumption; fold s; nia).
    fold s c. unfold normalized.
    replace (idx / s) with i
      by (apply Z.div_unique with (idx - i * s); lia).
    reflexivity. }
  split; [exact Hbin|]. intros Hm.
  assert (Hpos : (0 < m)%R)
    by (pose proof (Rmax_upto_nonneg (fun j => threshold c (rd 0%R rs j))
                      (i * s) (Z.to_nat s)); fold m in H; lra).
  split.
  - destruct (Rmax_upto_attained (fun j => threshold c (rd 0%R rs j))
                (i * s) (Z.to_nat s)) as [E|(j & Hj & E)]; [fold m in E; lra|].
    exists j. split; [lia|]. rewrite Hbin by lia.
    destruct (Req_dec_T m 0); [lra|]. fold m in E. rewrite E. f_equal. field. lra.
  - intros idx Hidx. rewrite Hbin by exact Hidx.
    destruct (Req_dec_T m 0); [lra|]. eexists. split; [reflexivity|].
    pose proof (Rmax_upto_upper (fun j => threshold c (rd 0%R rs j))
                  (i * s) (Z.to_nat s) idx ltac:(lia)) as Hup.
    fold m in Hup. cbv beta in Hup.
    replace 50%R with (m * (50 / m))%R at 2 by (field; lra).
    apply Rmult_le_compat_r; [|exact Hup].
    apply Rlt_le, Rdiv_lt_0_compat; lra.
Qed.

(** Twenty bins in ten regions of two, with the Crux headers. *)
Lemma region_normalisation_witness :
  let rs := [100; 0; 4; 1; 0; 0; 0; 0; 0; 0; 0; 0; 0; 0; 0; 0; 0; 0; 0; 9]%R in
  let c := (100 * (5 / 100))%R in
  let out := normalize_regions (H0 := Crux.headers) (map XFin rs) (XFin 100) 19 in
  let m := Rmax_upto (fun j => threshold c (rd 0%R rs j)) (9 * 2) 2 in
  (forall idx, 9 * 2 <= idx < (9 + 1) * 2 ->
     rd d0 out idx
     = XFin (if Req_dec_T m 0 then threshold c (rd 0%R rs idx)
             else threshold c (rd 0%R rs idx) * (50 / m))%R)
  /\ (m <> 0%R ->
      (exists idx, 9 * 2 <= idx < (9 + 1) * 2 /\ rd d0 out idx = XFin 50)
      /\ (forall idx, 9 * 2 <= idx < (9 + 1) * 2 ->
            exists x, rd d0 out idx = XFin x /\ (x <= 50)%R)).
Proof.
  apply (region_normalisation Crux.headers
           [100; 0; 4; 1; 0; 0; 0; 0; 0; 0; 0; 0; 0; 0; 0; 0; 0; 0; 0; 9]%R
           100 19 9);
    vm_compute; repeat split; first [reflexivity | discriminate].
Defined.

(** Claim C3, as the spec has it, fails: the cut-off is 5% of the
    highest intensity of the whole spectrum, not of the region.  In
    [three_peaks] the peaks at m/z 50 and 51 are alone in their region
    (bins 48 to 53), with square-rooted intensities 4 and 1; neither is below 5%
    of their region's maximum 4, yet both are zeroed (they are below 5%
    of the global 100) and the region's maximum is 0, not 50. *)
Lemma region_cutoff_is_global :
  let peaks := fst (bucket_peaks (H0 := Crux.headers) global_bins plain_params
                      three_peaks 2 (replicate 175 d0) zero_counters) in
  mass2bin (Headers := Crux.headers) (B64.of_Z 50) = 50
  /\ mass2bin (Headers := Crux.headers) (B64.of_Z 51) = 51
  /\ rd d0 peaks 10 = B64.of_Z 50
  /\ rd d0 peaks 50 = B64.of_Z 0
  /\ rd d0 peaks 51 = B64.of_Z 0.
Proof. vm_compute. repeat split. Qed.

(** ** The range test *)

Section RangeSkip.

Context {D : Type} `{DoubleOps D} `{Headers D}.

Variables (spectrum : Spectrum (D := D)) (params : PreprocessParams (D := D)).
Variable cut_off : D.

Local Abbreviation step := (fun st p => fill_step spectrum params cut_off p st).







Lemma skip_step_dropped (p : D * D) (peaks : list D) :
  below_cut_off cut_off p = false -> skip_step cut_off p peaks = peaks.
Proof.
  unfold below_cut_off, skip_step. intros Hp.
  apply negb_false_iff in Hp. rewrite Hp. reflexivity.
Qed.

Lemma fill_skip_kept (ps : list (D * D)) (peaks : list D) :
  fill_skip cut_off ps peaks = fill_skip cut_off (kept_peaks cut_off ps) peaks.
Proof.
  unfold fill_skip, kept_peaks. revert peaks.
  induction ps as [|p ps IH]; intros peaks; simpl; [reflexivity|].
  destruct (below_cut_off cut_off p) eqn:Hp; simpl.
  - apply IH.
  - rewrite (skip_step_dropped p peaks Hp). apply IH.
Qed.

End RangeSkip.

Lemma PreprocessSpectrum_counters {D} `{DoubleOps D} `{Headers D}
      global params spectrum charge observed counters :
  snd (PreprocessSpectrum global params spectrum charge observed counters)
  = snd (bucket_peaks global params spectrum charge (peaks_ observed) counters).
Proof.
  unfold PreprocessSpectrum.
  destruct (bucket_peaks global params spectrum charge (peaks_ observed) counters).
  reflexivity.
Qed.



(** ** The order of binary64 *)

Lemma SFltb_irrefl (x : spec_float) : SFltb x x = false.
Proof.
  unfold SFltb. destruct x as [s|s| |s m e]; simpl; try reflexivity.
  - destruct s; reflexivity.
  - destruct s; rewrite Z.compare_refl;
      change (Pos.compare_cont Eq m m) with (Pos.compare m m);
      rewrite Pos.compare_refl; reflexivity.
Qed.

Lemma SFltb_finite_spec (s1 s2 : bool) (m1 m2 : positive) (e1 e2 : Z) :
  SFltb (S754_finite s1 m1 e1) (S754_finite s2 m2 e2) = true <->
  match s1, s2 with
  | true, false => True
  | false, true => False
  | false, false => e1 < e2 \/ (e1 = e2 /\ (m1 < m2)%positive)
  | true, true => e2 < e1 \/ (e1 = e2 /\ (m2 < m1)%positive)
  end.
Proof.
  unfold SFltb. simpl.
  change (Pos.compare_cont Eq m1 m2) with (Pos.compare m1 m2).
  destruct s1, s2; simpl; try (split; [trivial|reflexivity]);
    try (split; [discriminate|contradiction]).
  - destruct (Z.compare_spec e1 e2) as [E|L|G]; simpl.
    + destruct (Pos.compare_spec m1 m2) as [E'|L'|G']; simpl;
        split; intros Hx; try discriminate; try reflexivity;
        try (right; split; [exact E|exact G']);
        destruct Hx as [Hx|[_ Hx]]; try lia.
    + split; intros Hx; try discriminate. destruct Hx as [Hx|[Hx _]]; lia.
    + split; intros _; [left; lia|reflexivity].
  - destruct (Z.compare_spec e1 e2) as [E|L|G]; simpl.
    + destruct (Pos.compare_spec m1 m2) as [E'|L'|G']; simpl;
        split; intros Hx; try discriminate; try reflexivity;
        try (right; split; [exact E|exact L']);
        destruct Hx as [Hx|[_ Hx]]; try lia.
    + split; intros _; [left; lia|reflexivity].
    + split; intros Hx; try discriminate. destruct Hx as [Hx|[Hx _]]; lia.
Qed.

Lemma SFltb_trans (x y z : spec_float) :
  SFltb x y = true -> SFltb y z = true -> SFltb x z = true.
Proof.
  destruct x as [sx|sx| |sx mx ex], y as [sy|sy| |sy my ey], z as [sz|sz| |sz mz ez];
    try (unfold SFltb; simpl; repeat match goal with b : bool |- _ => destruct b end;
         simpl; congruence).
  rewrite !SFltb_finite_spec.
  destruct sx, sy, sz; try tauto; intros [H1|[H1 H1']] [H2|[H2 H2']]; try lia.
Qed.

(** ** The skip-preprocessing branch *)

Section SkipBranch.

Context `{Hd : Headers spec_float}.

Lemma memset0_spec (peaks : list spec_float) (n : Z) :
  length (memset0 peaks n) = length peaks
  /\ forall b, 0 <= b < n -> rd d0 (memset0 peaks n) b = d0.
Proof.
  unfold memset0. destruct (Z.le_gt_cases n 0) as [Hn|Hn].
  - rewrite for_up_nonpos by exact Hn. split; [reflexivity|]. intros; lia.
  - apply (for_up_inv (fun k a => length a = length peaks
                                  /\ forall b, 0 <= b < k -> rd d0 a b = d0));
      [lia| |].
    + split; [reflexivity|]. intros; lia.
    + intros i a Hi (Hl & Ha). rewrite length_wr. split; [exact Hl|].
      intros b Hb. destruct (Z.eq_dec b i) as [->|Hne].
      * destruct (Z.lt_ge_cases i (Z.of_nat (length a))).
        -- apply rd_wr_eq. lia.
        -- rewrite wr_outside by lia. apply rd_outside. lia.
      * rewrite rd_wr_ne by lia. apply Ha. lia.
Qed.

Lemma skip_step_length cut_off p (peaks : list spec_float) :
  length (skip_step cut_off p peaks) = length peaks.
Proof.
  unfold skip_step.
  repeat match goal with |- context [if ?b then _ else _] => destruct b end;
    rewrite ?length_wr; reflexivity.
Qed.

(** One more kept peak keeps every bin a bucket maximum. *)
Lemma skip_step_bucket cut_off (ps : list (spec_float * spec_float)) p
      (peaks : list spec_float) (b : Z) :
  below_cut_off cut_off p = true ->
  0 <= b < Z.of_nat (length peaks) ->
  bucket_max ps b (rd d0 peaks b) ->
  bucket_max (ps ++ [p]) b (rd d0 (skip_step cut_off p peaks) b).
Proof.
  intros Hp Hb [Hval Hup]. unfold skip_step.
  unfold below_cut_off in Hp. apply negb_true_iff in Hp. rewrite Hp.
  set (mz := mass2bin (fst p)).
  destruct (Z.eq_dec mz b) as [Emz|Nmz].
  - (* the peak falls in this bin *)
    rewrite Emz.
    destruct (snd p >? rd d0 peaks b)%D eqn:Hgt.
    + rewrite rd_wr_eq by exact Hb. split.
      * right. exists p. split; [apply in_or_app; right; left; reflexivity|].
        split; [exact Emz|reflexivity].
      * intros q Hq Hqb. apply in_app_or in Hq. destruct Hq as [Hq|[<-|[]]].
        -- specialize (Hup q Hq Hqb). cbn [dlt B64.ops] in *.
           destruct (SFltb (snd p) (snd q)) eqn:E; [|reflexivity].
           rewrite (SFltb_trans _ _ _ Hgt E) in Hup. discriminate.
        -- cbn [dlt B64.ops]. apply SFltb_irrefl.
    + split.
      * destruct Hval as [Hz|(q & Hq & Hqb & Hqv)]; [left; exact Hz|].
        right. exists q. split; [apply in_or_app; left; exact Hq|]. split; assumption.
      * intros q Hq Hqb. apply in_app_or in Hq. destruct Hq as [Hq|[<-|[]]].
        -- apply Hup; assumption.
        -- exact Hgt.
  - (* the peak falls elsewhere *)
    assert (Hsame : rd d0 (if (snd p >? rd d0 peaks mz)%D
                           then wr peaks mz (snd p) else peaks) b = rd d0 peaks b).
    { destruct (snd p >? rd d0 peaks mz)%D; [apply rd_wr_ne; exact Nmz|reflexivity]. }
    rewrite Hsame. split.
    + destruct Hval as [Hz|(q & Hq & Hqb & Hqv)]; [left; exact Hz|].
      right. exists q. split; [apply in_or_app; left; exact Hq|]. split; assumption.
    + intros q Hq Hqb. apply in_app_or in Hq. destruct Hq as [Hq|[<-|[]]].
      * apply Hup; assumption.
      * contradiction.
Qed.

Lemma fill_skip_bucket cut_off (ps : list (spec_float * spec_float))
      (peaks : list spec_float) (b : Z) :
  Forall (fun p => below_cut_off cut_off p = true) ps ->
  0 <= b < Z.of_nat (length peaks) ->
  rd d0 peaks b = d0 ->
  length (fill_skip cut_off ps peaks) = length peaks
  /\ bucket_max ps b (rd d0 (fill_skip cut_off ps peaks) b).
Proof.
  intros Hall Hb H0. unfold fill_skip.
  induction ps as [|p ps IH] using rev_ind.
  - simpl. split; [reflexivity|]. split; [left; exact H0|]. intros q [].
  - apply Forall_app in Hall. destruct Hall as [Hps Hp].
    inversion Hp as [|? ? Hp' _]; subst.
    destruct (IH Hps) as [Hl Hbm].
    rewrite fold_left_app. simpl. split.
    + rewrite skip_step_length. exact Hl.
    + apply skip_step_bucket; [exact Hp'|rewrite Hl; exact Hb|exact Hbm].
Qed.

End SkipBranch.

Lemma kept_peaks_below {D} `{DoubleOps D} (cut_off : D) (ps : list (D * D)) :
  Forall (fun p => below_cut_off cut_off p = true) (kept_peaks cut_off ps).
Proof.
  unfold kept_peaks. apply List.Forall_forall. intros p Hp.
  apply filter_In in Hp. tauto.
Qed.

(** Claim C4, as the code has it.  Under skip-preprocessing no counter
    changes and, before the background is subtracted, every bin holds
    the largest raw intensity among the peaks below the cut-off that
    fall into it (0 when there is none): no square root, no precursor
    or isotope removal, no region normalisation.  Background
    subtraction, [MakeInteger] and [ComputeCache] then run as in the
    normal branch. *)
Theorem skip_preprocessing_buckets (Hd : Headers spec_float) (global : MaxBin)
        (params : PreprocessParams) (spectrum : Spectrum) (charge : Z)
        (observed : ObservedPeakSet) (counters : Counters) :
  skip_preprocessing params = true ->
  let cut_off := experimental_mass_cut_off (PrecursorMZ spectrum) charge in
  let kept := kept_peaks cut_off (peak_list spectrum) in
  let bucket := fst (bucket_peaks global params spectrum charge
                       (peaks_ observed) counters) in
  let r := PreprocessSpectrum global params spectrum charge observed counters in
  snd r = counters
  /\ (forall b, 0 <= b < BackgroundBinEnd global ->
                b < Z.of_nat (length (peaks_ observed)) ->
                bucket_max kept b (rd d0 bucket b))
  /\ peaks_ (fst r) = SubtractBackground bucket (BackgroundBinEnd (max_mz_ (fst r)))
  /\ cache_ (fst r)
     = ComputeCache (max_mz_ (fst r)) (cache_end_ (fst r)) (NL_ observed) (FP_ observed)
         (MakeInteger (peaks_ (fst r)) (max_mz_ (fst r)) (cache_ observed)).
Proof.
  intros Hskip cut_off kept bucket r.
  assert (Hbk : bucket_peaks global params spectrum charge (peaks_ observed) counters
                = (fill_skip cut_off kept
                     (memset0 (peaks_ observed) (BackgroundBinEnd global)), counters)).
  { unfold bucket_peaks, bucket_peaks_of. rewrite Hskip. fold cut_off.
    rewrite (fill_skip_kept cut_off). reflexivity. }
  split; [|split; [|split]].
  - unfold r. rewrite PreprocessSpectrum_counters, Hbk. reflexivity.
  - intros b Hb Hlen. unfold bucket. rewrite Hbk. simpl.
    destruct (memset0_spec (peaks_ observed) (BackgroundBinEnd global)) as [Hl Hz].
    apply fill_skip_bucket.
    + apply kept_peaks_below.
    + rewrite Hl. lia.
    + apply Hz. exact Hb.
  - unfold r, PreprocessSpectrum, bucket.
    destruct (bucket_peaks global params spectrum charge (peaks_ observed) counters).
    reflexivity.
  - unfold r, PreprocessSpectrum.
    destruct (bucket_peaks global params spectrum charge (peaks_ observed) counters).
    reflexivity.
Qed.

(** The theorem at [peak_beyond_range] with the Crux headers. *)
Lemma skip_preprocessing_buckets_witness :
  snd (PreprocessSpectrum (H0 := Crux.headers) global_bins skip_params
         peak_beyond_range 1 empty_peak_set zero_counters) = zero_counters
  /\ (forall b, 0 <= b < BackgroundBinEnd global_bins ->
                b < Z.of_nat (length (peaks_ empty_peak_set)) ->
                bucket_max (H0 := Crux.headers)
                  (kept_peaks (experimental_mass_cut_off (H0 := Crux.headers)
                                 (PrecursorMZ peak_beyond_range) 1)
                              (peak_list peak_beyond_range)) b
                  (rd d0 (fst (bucket_peaks (H0 := Crux.headers) global_bins
                                 skip_params peak_beyond_range 1
                                 (peaks_ empty_peak_set) zero_counters)) b)).
Proof.
  pose proof (skip_preprocessing_buckets Crux.headers global_bins skip_params
                peak_beyond_range 1 empty_peak_set zero_counters eq_refl) as W.
  cbv zeta in W. exact (conj (proj1 W) (proj1 (proj2 W))).
Defined.

(** Claim C4, as the spec has it, fails: the background is subtracted
    under skip-preprocessing too.  The one peak of [peak_beyond_range]
    below the cut-off falls into bin 20 with intensity 1; bin 19
    receives no peak, yet ends below zero, and the cache holds -333 for
    it (and 50000, not 1, for bin 20). *)
Lemma skip_preprocessing_subtracts_background :
  let r := fst (PreprocessSpectrum (H0 := Crux.headers) global_bins skip_params
                  peak_beyond_range 1 empty_peak_set zero_counters) in
  map (fun p => mass2bin (Headers := Crux.headers) (fst p))
      (peak_list peak_beyond_range) = [20; 90]
  /\ (rd d0 (peaks_ r) 19 <? d0)%D = true
  /\ Peak (cache_ r) PeakMain 19 = -333
  /\ Peak (cache_ r) PeakMain 20 = 50000.
Proof. vm_compute. repeat split. Qed.

(** ** The peak cache *)

Lemma wrap_in_range (z : Z) : Int32.in_range z -> Int32.wrap z = z.
Proof.
  unfold Int32.in_range, Int32.wrap, Int32.min_signed, Int32.max_signed.
  intros Hz. rewrite Z.mod_small; lia.
Qed.

Lemma type_code_bound (t : TheoreticalPeakType) : 0 <= type_code t < NUM_PEAK_TYPES.
Proof. destruct t; unfold NUM_PEAK_TYPES; simpl; lia. Qed.

Lemma type_code_inj (t t' : TheoreticalPeakType) : type_code t = type_code t' -> t = t'.
Proof. destruct t, t'; simpl; intros E; try reflexivity; discriminate. Qed.

Lemma Code_inj (t t' : TheoreticalPeakType) (i i' : Z) :
  Code t i = Code t' i' -> t = t' /\ i = i'.
Proof.
  unfold Code. pose proof (type_code_bound t). pose proof (type_code_bound t').
  unfold NUM_PEAK_TYPES in *. intros E.
  assert (i = i') by lia. subst i'. split; [apply type_code_inj; lia|reflexivity].
Qed.

Lemma Code_range (t : TheoreticalPeakType) (i n : Z) :
  0 <= i < n -> 0 <= Code t i < n * NUM_PEAK_TYPES.
Proof.
  unfold Code. pose proof (type_code_bound t). unfold NUM_PEAK_TYPES in *. lia.
Qed.

Lemma Peak_set_eq (cache : list Z) (t : TheoreticalPeakType) (i v : Z) :
  0 <= Code t i < Z.of_nat (length cache) ->
  Peak (set_Peak cache t i v) t i = v.
Proof. intros Hc. unfold Peak, set_Peak. apply rd_wr_eq. exact Hc. Qed.

Lemma Peak_set_ne (cache : list Z) (t t' : TheoreticalPeakType) (i i' v : Z) :
  t <> t' \/ i <> i' ->
  Peak (set_Peak cache t i v) t' i' = Peak cache t' i'.
Proof.
  intros Hne. unfold Peak, set_Peak. apply rd_wr_ne.
  intros E. apply Code_inj in E. destruct E, Hne; contradiction.
Qed.

Lemma length_set_Peak (cache : list Z) t i v :
  length (set_Peak cache t i v) = length cache.
Proof. apply length_wr. Qed.


(** The second loop: zero from [BackgroundBinEnd * NUM_PEAK_TYPES] to
    [cache_end]. *)
Lemma cache_clear_tail_spec (max_mz : MaxBin) (cache_end : Z) (cache : list Z) :
  0 <= BackgroundBinEnd max_mz ->
  cache_end <= Z.of_nat (length cache) ->
  let out := cache_clear_tail max_mz cache_end cache in
  length out = length cache
  /\ forall idx, rd 0 out idx
       = if (BackgroundBinEnd max_mz * NUM_PEAK_TYPES <=? idx) && (idx <? cache_end)
         then 0 else rd 0 cache idx.
Proof.
  intros Hn Hlen. unfold cache_clear_tail.
  set (start := BackgroundBinEnd max_mz * NUM_PEAK_TYPES).
  assert (Hstart : 0 <= start) by (unfold start, NUM_PEAK_TYPES; lia).
  destruct (Z.le_gt_cases (cache_end - start) 0) as [Hle|Hgt].
  - rewrite for_up_nonpos by exact Hle. split; [reflexivity|]. intros idx.
    destruct (Z.leb_spec start idx), (Z.ltb_spec idx cache_end); simpl; try reflexivity; lia.
  - pose (Inv := fun (k : Z) (out : list Z) =>
      length out = length cache
      /\ forall idx, rd 0 out idx
           = if (start <=? idx) && (idx <? start + k) then 0 else rd 0 cache idx).
    assert (HI : Inv (cache_end - start)
                   (for_up (cache_end - start) (fun k c => wr c (start + k) 0) cache)).
    { apply for_up_inv; [lia| |].
      - split; [reflexivity|]. intros idx.
        destruct (Z.leb_spec start idx), (Z.ltb_spec idx (start + 0));
          simpl; try reflexivity; lia.
      - intros k out Hk (Hl & Hout). unfold Inv. rewrite length_wr.
        split; [exact Hl|]. intros idx.
        destruct (Z.eq_dec idx (start + k)) as [->|Hne].
        + rewrite rd_wr_eq by lia.
          destruct (Z.leb_spec start (start + k)), (Z.ltb_spec (start + k) (start + (k + 1)));
            simpl; try reflexivity; lia.
        + rewrite rd_wr_ne by lia. rewrite Hout.
          destruct (Z.leb_spec start idx), (Z.ltb_spec idx (start + k)),
            (Z.ltb_spec idx (start + (k + 1))); simpl; try reflexivity; lia. }
    destruct HI as [Hl Hout]. split; [exact Hl|]. intros idx. rewrite Hout.
    replace (start + (cache_end - start)) with cache_end by lia. reflexivity.
Qed.

Section Combined.

Context {D : Type} `{Headers D}.

(** The third loop: the combined series, B equal to Y, below
    [CacheBinEnd]; the four basic series as they were. *)
Lemma cache_combined_spec (max_mz : MaxBin) (NL FP : bool) (cache : list Z) :
  0 <= CacheBinEnd max_mz ->
  CacheBinEnd max_mz * NUM_PEAK_TYPES <= Z.of_nat (length cache) ->
  let out := cache_combined max_mz NL FP cache in
  length out = length cache
  /\ (forall i, 0 <= i < CacheBinEnd max_mz ->
        Peak out PeakCombinedB1 i = Peak out PeakCombinedY1 i
        /\ Peak out PeakCombinedB2 i = Peak out PeakCombinedY2 i)
  /\ (forall t i, CacheBinEnd max_mz <= i -> Peak out t i = Peak cache t i)
  /\ (forall t i, t = PeakMain \/ t = LossPeak \/ t = FlankingPeak \/ t = PrimaryPeak ->
                  Peak out t i = Peak cache t i).
Proof.
  intros Hn Hlen. unfold cache_combined.
  pose (Inv := fun (k : Z) (out : list Z) =>
    length out = length cache
    /\ (forall i, 0 <= i < k ->
          Peak out PeakCombinedB1 i = Peak out PeakCombinedY1 i
          /\ Peak out PeakCombinedB2 i = Peak out PeakCombinedY2 i)
    /\ (forall t i, k <= i -> Peak out t i = Peak cache t i)
    /\ (forall t i, t = PeakMain \/ t = LossPeak \/ t = FlankingPeak \/ t = PrimaryPeak ->
                    Peak out t i = Peak cache t i)).
  assert (HI : forall n, 0 <= n <= CacheBinEnd max_mz ->
            Inv n (for_up n
              (fun i cache =>
                 let flanks := Peak cache PrimaryPeak i in
                 let flanks :=
                   if FP then
                     let flanks :=
                       if 0 <? i then Int32.add flanks (Peak cache FlankingPeak (i - 1))
                       else flanks in
                     if i <? CacheBinEnd max_mz - 1
                     then Int32.add flanks (Peak cache FlankingPeak (i + 1))
                     else flanks
                   else flanks in
                 let Y1 := flanks in
                 let Y1 :=
                   if NL then
                     let Y1 :=
                       if BIN_NH3 <? i then Int32.add Y1 (Peak cache LossPeak (i - BIN_NH3))
                       else Y1 in
                     if BIN_H2O <? i then Int32.add Y1 (Peak cache LossPeak (i - BIN_H2O))
                     else Y1
                   else Y1 in
                 let cache := set_Peak cache PeakCombinedY1 i Y1 in
                 let B1 := Y1 in
                 let cache := set_Peak cache PeakCombinedB1 i B1 in
                 let cache := set_Peak cache PeakCombinedY2 i flanks in
                 set_Peak cache PeakCombinedB2 i flanks) cache)).
  { intros n Hnn. apply for_up_inv; [lia| |].
    - unfold Inv. split; [reflexivity|]. split; [intros; lia|]. split; intros; reflexivity.
    - intros k out Hk (Hl & Hdone & Hlater & Hbasic). unfold Inv. cbv zeta.
      match goal with
      | |- context [set_Peak (set_Peak (set_Peak (set_Peak out _ _ ?y1) _ _ _) _ _ ?fl) _ _ _] =>
          generalize y1 as Y1; generalize fl as flanks
      end.
      intros flanks Y1.
      assert (Hin : forall t, 0 <= Code t k < Z.of_nat (length out)).
      { intros t. pose proof (Code_range t k (CacheBinEnd max_mz) ltac:(lia)). lia. }
      rewrite !length_set_Peak. split; [exact Hl|]. split; [|split].
      + intros i Hi. destruct (Z.eq_dec i k) as [->|Hne].
        * split.
          -- rewrite (Peak_set_ne _ PeakCombinedB2 PeakCombinedB1) by (left; discriminate).
             rewrite (Peak_set_ne _ PeakCombinedY2 PeakCombinedB1) by (left; discriminate).
             rewrite Peak_set_eq by (rewrite length_set_Peak; apply Hin).
             rewrite !Peak_set_ne by (left; discriminate).
             rewrite Peak_set_eq by apply Hin. reflexivity.
          -- rewrite Peak_set_eq by (rewrite !length_set_Peak; apply Hin).
             rewrite (Peak_set_ne _ PeakCombinedB2 PeakCombinedY2) by (left; discriminate).
             rewrite Peak_set_eq by (rewrite !length_set_Peak; apply Hin). reflexivity.
        * rewrite !Peak_set_ne by (right; lia). apply Hdone. lia.
      + intros t i Hi. rewrite !Peak_set_ne by (right; lia). apply Hlater. lia.
      + intros t i Ht. rewrite !Peak_set_ne by (left; intuition congruence).
        apply Hbasic. exact Ht. }
  destruct (HI (CacheBinEnd max_mz) ltac:(lia)) as (H1 & H2 & H3 & H4).
  repeat split; try assumption; apply H2; assumption.
Qed.

End Combined.



(** ** The compiled scorer *)

Module CompiledFacts.

Import Compiled.

Lemma run_adds (cache : list Z) (theoretical : list Z) (r : regs) :
  run_program cache (map AddCache theoretical) r
  = {| eax := fold_left (fun total code => Int32.add total (rd 0 cache code))
                        theoretical (eax r);
       ecx := ecx r; edi := edi r; results := results r |}.
Proof.
  unfold run_program. revert r.
  induction theoretical as [|code rest IH]; intros r; simpl.
  - destruct r; reflexivity.
  - rewrite IH. reflexivity.
Qed.

(** One generated routine: it stores the dot product and the counter
    and steps the counter down. *)
Lemma run_compile (cache : list Z) (theoretical : list Z) (r : regs) :
  run_program cache (compile theoretical) r
  = {| eax := ecx r;
       ecx := ecx r - 1;
       edi := edi r + 1 + 1;
       results := wr (wr (results r) (edi r) (DotProd cache theoretical))
                     (edi r + 1) (ecx r) |}.
Proof.
  unfold compile. unfold run_program at 1. simpl fold_left.
  rewrite fold_left_app.
  change (fold_left (fun r i => step cache i r) (map AddCache theoretical) ?x)
    with (run_program cache (map AddCache theoretical) x).
  rewrite run_adds. reflexivity.
Qed.

Lemma run_queue_cons (cache : list Z) (prog : list instr) (rest : list (list instr))
      (r : regs) :
  run_queue cache (prog :: rest) r
  = if ecx (run_program cache prog r) =? 0 then run_program cache prog r
    else run_queue cache rest (run_program cache prog r).
Proof. reflexivity. Qed.

Lemma run_queue_spec (cache : list Z) (queue : list (list Z)) (r : regs) :
  ecx r = Z.of_nat (length queue) ->
  0 <= edi r ->
  edi r + 2 * Z.of_nat (length queue) <= Z.of_nat (length (results r)) ->
  let r' := run_queue cache (map compile queue) r in
  length (results r') = length (results r)
  /\ (forall k, (k < length queue)%nat ->
        rd 0 (results r') (edi r + 2 * Z.of_nat k) = DotProd cache (nth k queue [])
        /\ rd 0 (results r') (edi r + 2 * Z.of_nat k + 1) = ecx r - Z.of_nat k)
  /\ (forall idx, idx < edi r -> rd 0 (results r') idx = rd 0 (results r) idx).
Proof.
  revert r. induction queue as [|theoretical rest IH]; intros r Hc Hd Hlen.
  - simpl. split; [reflexivity|]. split; [intros k Hk; simpl in Hk; lia|reflexivity].
  - rewrite map_cons, run_queue_cons, run_compile. cbn [ecx].
    set (r1 := {| eax := ecx r; ecx := ecx r - 1; edi := edi r + 1 + 1;
                  results := wr (wr (results r) (edi r) (DotProd cache theoretical))
                                (edi r + 1) (ecx r) |}).
    simpl length in Hc, Hlen.
    assert (Hl1 : length (results r1) = length (results r))
      by (unfold r1; simpl; rewrite !length_wr; reflexivity).
    assert (Hfirst : rd 0 (results r1) (edi r) = DotProd cache theoretical
                     /\ rd 0 (results r1) (edi r + 1) = ecx r).
    { unfold r1; simpl. split.
      - rewrite rd_wr_ne by lia. apply rd_wr_eq. lia.
      - apply rd_wr_eq. rewrite length_wr. lia. }
    assert (Hbefore : forall idx, idx < edi r -> rd 0 (results r1) idx = rd 0 (results r) idx).
    { intros idx Hidx. unfold r1; simpl. rewrite !rd_wr_ne by lia. reflexivity. }
    destruct (Z.eqb_spec (ecx r - 1) 0) as [Hz|Hnz].
    + (* the last routine returns *)
      assert (rest = []) by (destruct rest; [reflexivity|simpl in Hc; lia]). subst rest.
      split; [exact Hl1|]. split; [|exact Hbefore].
      intros k Hk. simpl in Hk. assert (k = 0%nat) by lia. subst k.
      replace (edi r + 2 * Z.of_nat 0) with (edi r) by lia.
      replace (ecx r - Z.of_nat 0) with (ecx r) by lia. exact Hfirst.
    + destruct (IH r1) as (Hl & Hrest & Hkeep).
      * unfold r1; simpl. lia.
      * unfold r1; simpl. lia.
      * rewrite Hl1. unfold r1; simpl. lia.
      * split; [lia|]. split.
        -- intros k Hk. destruct k as [|k].
           ++ replace (edi r + 2 * Z.of_nat 0) with (edi r) by lia.
              replace (ecx r - Z.of_nat 0) with (ecx r) by lia.
              rewrite !Hkeep by (unfold r1; simpl; lia). exact Hfirst.
           ++ simpl in Hk. destruct (Hrest k ltac:(lia)) as [E1 E2].
              change (edi r1) with (edi r + 1 + 1) in E1, E2.
              change (ecx r1) with (ecx r - 1) in E2. simpl nth.
              replace (edi r + 2 * Z.of_nat (S k)) with (edi r + 1 + 1 + 2 * Z.of_nat k) by lia.
              split; [exact E1|]. rewrite E2. lia.
        -- intros idx Hidx. rewrite Hkeep by (unfold r1; simpl; lia).
           apply Hbefore. exact Hidx.
Qed.

End CompiledFacts.

(** Claim C5.  Run on a fresh result array with room for the queue, the
    generated routines leave one pair per candidate: the score is
    [DotProd] of the cache with the candidate's theoretical peaks, and
    the counter is the queue size less the candidate's index, its
    position counted from the back. *)
Theorem collectScoresCompiled_DotProd (cache : list Z) (queue : list (list Z))
        (match_arr : Compiled.Arr2) :
  Compiled.arr_size match_arr = 0 ->
  2 * Z.of_nat (length queue) <= Z.of_nat (length (Compiled.arr_data match_arr)) ->
  Compiled.pairs
    (Compiled.collectScoresCompiled queue cache match_arr (Z.of_nat (length queue)))
  = map (fun k => (DotProd cache (nth k queue []),
                   Z.of_nat (length queue) - Z.of_nat k))
        (seq 0 (length queue)).
Proof.
  intros Hsize Hcap. unfold Compiled.collectScoresCompiled.
  destruct queue as [|q0 rest] eqn:Hq.
  - unfold Compiled.pairs. rewrite Hsize. reflexivity.
  - rewrite <- Hq in *. clear Hq rest q0.
    set (r0 := {| Compiled.eax := 0; Compiled.ecx := Z.of_nat (length queue);
                  Compiled.edi := 0; Compiled.results := Compiled.arr_data match_arr |}).
    destruct (CompiledFacts.run_queue_spec cache queue r0 eq_refl ltac:(simpl; lia)
                ltac:(simpl; lia)) as (_ & Hres & _).
    unfold Compiled.pairs. cbn [Compiled.arr_size Compiled.arr_data].
    rewrite Nat2Z.id. apply map_ext_in. intros k Hk. apply in_seq in Hk.
    destruct (Hres k ltac:(lia)) as [E1 E2].
    change (Compiled.edi r0) with 0 in E1, E2.
    change (Compiled.ecx r0) with (Z.of_nat (length queue)) in E2.
    rewrite Z.add_0_l in E1, E2. fold r0. rewrite E1, E2. reflexivity.
Qed.

(** Three candidates over a cache of four cells. *)
Lemma collectScoresCompiled_DotProd_witness :
  Compiled.pairs
    (Compiled.collectScoresCompiled [[0; 2]; [1]; [3; 3]] [5; 7; 11; -2]
       {| Compiled.arr_data := replicate 6 0; Compiled.arr_size := 0 |} 3)
  = [(16, 3); (7, 2); (-4, 1)].
Proof.
  apply (collectScoresCompiled_DotProd [5; 7; 11; -2] [[0; 2]; [1]; [3; 3]]
           {| Compiled.arr_data := replicate 6 0; Compiled.arr_size := 0 |});
    [reflexivity|vm_compute; discriminate].
Defined.

(** ** The isotope-error parameter *)

Module IsotopeErrorFacts.

Import IsotopeErrors.

Lemma existsb_eqb_In (x : Z) (l : list Z) : existsb (Z.eqb x) l = true <-> In x l.
Proof.
  rewrite existsb_exists. split.
  - intros (y & Hy & E). apply Z.eqb_eq in E. subst. exact Hy.
  - intros Hx. exists x. split; [exact Hx|apply Z.eqb_refl].
Qed.

(** The loop over the values ends in a fatal error as soon as the
    values hold a negative one, hold one twice, or hold one whose
    negation is already in the list. *)
Lemma negate_all_fatal (vs negs : list Z) :
  (exists v, In v vs /\ v < 0)
  \/ ~ List.NoDup vs
  \/ (exists v, In v vs /\ In (- v) negs) ->
  is_fatal (negate_all vs negs) = true.
Proof.
  revert negs. induction vs as [|e rest IH]; intros negs Hbad.
  - destruct Hbad as [(v & [] & _)|[Hd|(v & [] & _)]].
    exfalso. apply Hd. constructor.
  - simpl. destruct (Z.ltb_spec e 0) as [Hneg|Hpos]; [reflexivity|].
    destruct (existsb (Z.eqb (- e)) negs) eqn:Hdup; [reflexivity|].
    assert (Hnot : ~ In (- e) negs).
    { intros Hin. apply existsb_eqb_In in Hin. congruence. }
    apply IH. destruct Hbad as [(v & Hv & Hlt)|[Hd|(v & Hv & Hin)]].
    + destruct Hv as [<-|Hv]; [lia|]. left. exists v. split; assumption.
    + destruct (in_dec Z.eq_dec e rest) as [Hin|Hout].
      * right. right. exists e. split; [exact Hin|].
        apply in_or_app. right. left. reflexivity.
      * right. left. intros Hnd. apply Hd. constructor; assumption.
    + destruct Hv as [<-|Hv]; [contradiction|].
      right. right. exists v. split; [exact Hv|]. apply in_or_app. left. exact Hin.
Qed.

End IsotopeErrorFacts.

(** Claim C8.  The string "1,2" parses to the sorted list -2, -1, 0;
    ",1" and "1,,2" are fatal whatever the field reader does with them;
    and every input whose fields hold a negative value or the same
    value twice is fatal (here "1,-2" and "2,1,2" for the field reader
    [Split_int]). *)
Theorem isotope_error_parsing :
  let parse := IsotopeErrors.getNegativeIsotopeErrors IsotopeErrors.Split_int in
  parse (list_ascii_of_string "1,2") = Done [-2; -1; 0]
  /\ (forall Split,
        is_fatal (IsotopeErrors.getNegativeIsotopeErrors Split
                    (list_ascii_of_string ",1")) = true)
  /\ (forall Split,
        is_fatal (IsotopeErrors.getNegativeIsotopeErrors Split
                    (list_ascii_of_string "1,,2")) = true)
  /\ is_fatal (parse (list_ascii_of_string "1,-2")) = true
  /\ is_fatal (parse (list_ascii_of_string "2,1,2")) = true
  /\ (forall Split s vs,
        s <> [] ->
        Split s ","%char = Some vs ->
        (exists v, In v vs /\ v < 0) \/ ~ List.NoDup vs ->
        is_fatal (IsotopeErrors.getNegativeIsotopeErrors Split s) = true).
Proof.
  cbv zeta. split; [reflexivity|]. split; [reflexivity|]. split; [reflexivity|].
  split; [reflexivity|]. split; [reflexivity|].
  intros Split s vs Hs Hsplit Hbad.
  unfold IsotopeErrors.getNegativeIsotopeErrors.
  destruct (IsotopeErrors.leading_comma s); [reflexivity|].
  destruct (IsotopeErrors.dangling_comma s); [reflexivity|].
  destruct s as [|c s']; [contradiction|].
  rewrite Hsplit.
  pose proof (IsotopeErrorFacts.negate_all_fatal vs [0]
                ltac:(destruct Hbad; [left|right; left]; assumption)) as Hf.
  destruct (IsotopeErrors.negate_all vs [0]); [discriminate|reflexivity].
Qed.

(** The same value twice, "3,3", through the general case. *)
Lemma isotope_error_parsing_witness :
  is_fatal (IsotopeErrors.getNegativeIsotopeErrors IsotopeErrors.Split_int
              (list_ascii_of_string "3,3")) = true.
Proof.
  refine (proj2 (proj2 (proj2 (proj2 (proj2 isotope_error_parsing))))
            IsotopeErrors.Split_int (list_ascii_of_string "3,3") [3; 3] _ _ _).
  - discriminate.
  - reflexivity.
  - right. intros Hn. inversion Hn as [|x l Hin _]. apply Hin. left. reflexivity.
Defined.

(** ** The precursor window *)

Section MassWindow.

Context `{Hd : Headers spec_float}.

(** Zero times a finite bin width is a zero. *)
Lemma zero_isotope_offset :
  B64.is_finite BIN_WIDTH = true ->
  exists b, (of_int 0 * BIN_WIDTH)%D = S754_zero b.
Proof.
  intros Hfin. cbn [dmul of_int B64.ops].
  destruct BIN_WIDTH as [s|s| |s m e]; try discriminate; simpl; eauto.
Qed.

(** Adding a zero changes nothing, except that it turns the zero of
    the other sign into +0. *)
Lemma add_zero (m : spec_float) (b : bool) :
  SFadd B64.prec B64.emax m (S754_zero b) = m
  \/ (B64.is_zero m = true /\ SFadd B64.prec B64.emax m (S754_zero b) = S754_zero false).
Proof.
  destruct m as [s|s| |s mm e]; simpl; try (left; reflexivity).
  destruct s, b; simpl; auto.
Qed.

Lemma sub_from_zero (s s' : bool) (w : spec_float) :
  B64.same_value (SFsub B64.prec B64.emax (S754_zero s) w)
                 (SFsub B64.prec B64.emax (S754_zero s') w).
Proof.
  unfold B64.same_value.
  destruct w as [sw|sw| |sw mw ew]; simpl; try (left; reflexivity).
  destruct s, s', sw; simpl; auto.
Qed.

Lemma add_to_zero (s s' : bool) (w : spec_float) :
  B64.same_value (SFadd B64.prec B64.emax (S754_zero s) w)
                 (SFadd B64.prec B64.emax (S754_zero s') w).
Proof.
  unfold B64.same_value.
  destruct w as [sw|sw| |sw mw ew]; simpl; try (left; reflexivity).
  destruct s, s', sw; simpl; auto.
Qed.

End MassWindow.

(** Claim C9.  In binary64, for a finite bin width, every neutral mass
    [m] and every window [w]: WINDOW_MASS with the isotope errors {0}
    gives one window, whose ends are also the range, and these are
    [m - w] and [m + w] (the same value always; the same datum unless
    [m] is the negative zero, which adding the zero offset turns into
    +0). *)
Theorem computeWindow_mass (Hd : Headers spec_float) (sc : SpecCharge)
        (precursor_window : spec_float) (max_charge : Z) :
  B64.is_finite BIN_WIDTH = true ->
  exists lo hi,
    computeWindow sc WINDOW_MASS precursor_window max_charge [0]
    = Done {| out_min := [lo]; out_max := [hi]; min_range := lo; max_range := hi |}
    /\ B64.same_value lo (neutral_mass sc - precursor_window)%D
    /\ B64.same_value hi (neutral_mass sc + precursor_window)%D
    /\ (neutral_mass sc <> S754_zero true ->
        lo = (neutral_mass sc - precursor_window)%D
        /\ hi = (neutral_mass sc + precursor_window)%D).
Proof.
  intros Hfin. destruct (zero_isotope_offset Hfin) as [b Hb].
  eexists. eexists. split; [reflexivity|].
  cbn [front back hd List.last]. rewrite Hb. cbn [dadd dsub B64.ops].
  destruct (add_zero (neutral_mass sc) b) as [E|[Hz E]]; rewrite E.
  - repeat split; try (left; reflexivity).
  - destruct (neutral_mass sc) as [s| | |] eqn:Em; try discriminate.
    split; [apply sub_from_zero|]. split; [apply add_to_zero|].
    intros Hne. destruct s; [contradiction|]. split; reflexivity.
Qed.

(** [one_pair] with a window of 3 and the bin width of the Crux headers. *)
Lemma computeWindow_mass_witness :
  exists lo hi,
    computeWindow (H0 := Crux.headers) one_pair WINDOW_MASS (B64.of_Z 3) 5 [0]
    = Done {| out_min := [lo]; out_max := [hi]; min_range := lo; max_range := hi |}
    /\ B64.same_value lo (neutral_mass one_pair - B64.of_Z 3)%D
    /\ B64.same_value hi (neutral_mass one_pair + B64.of_Z 3)%D
    /\ (neutral_mass one_pair <> S754_zero true ->
        lo = (neutral_mass one_pair - B64.of_Z 3)%D
        /\ hi = (neutral_mass one_pair + B64.of_Z 3)%D).
Proof.
  apply (computeWindow_mass Crux.headers one_pair (B64.of_Z 3) 5). reflexivity.
Defined.

(** ** The guard on deisotoping with exact p-values *)

Section Guard.

Context {D : Type} `{DoubleOps D} `{Headers D}.

Variable SetActiveRange : Window (D := D) -> Z.
Variable cfg : SearchConfig (D := D).

Lemma search_pair_skips (sc : SpecCharge (D := D)) :
  eligible cfg sc = false -> search_pair SetActiveRange cfg sc = Done None.
Proof.
  unfold eligible, search_pair. intros He.
  destruct (in_cascade cfg _ _); [reflexivity|].
  destruct (filtered_out cfg sc); [reflexivity|discriminate].
Qed.

Lemma search_pair_aborts (sc : SpecCharge (D := D)) :
  exact_pval_search cfg = true ->
  (deisotope (preprocess_params cfg) !=? d0)%D = true ->
  eligible cfg sc = true ->
  is_fatal (search_pair SetActiveRange cfg sc) = true.
Proof.
  unfold eligible, search_pair. intros Hx Hd He.
  destruct (in_cascade cfg _ _); [discriminate|].
  destruct (filtered_out cfg sc); [discriminate|].
  destruct (computeWindow _ _ _ _ _) as [w|msg]; [|reflexivity].
  simpl. rewrite Hx, Hd. reflexivity.
Qed.

Lemma search_pair_guarded (sc : SpecCharge (D := D)) (s : Scored (D := D)) :
  search_pair SetActiveRange cfg sc = Done (Some s) -> guarded s.
Proof.
  unfold search_pair, guarded.
  destruct (in_cascade cfg _ _); [discriminate|].
  destruct (filtered_out cfg sc); [discriminate|].
  destruct (computeWindow _ _ _ _ _) as [w|msg]; [|discriminate].
  simpl. destruct (exact_pval_search cfg); simpl.
  - destruct (deisotope (preprocess_params cfg) !=? d0)%D eqn:Hd; [discriminate|].
    intros E _. inversion E; subst. simpl. exact Hd.
  - destruct (SetActiveRange w =? 0); [discriminate|].
    intros E. inversion E; subst. simpl. discriminate.
Qed.

Lemma search_loop_aborts (pairs : list (SpecCharge (D := D))) (reported : list (Scored (D := D))) :
  exact_pval_search cfg = true ->
  (deisotope (preprocess_params cfg) !=? d0)%D = true ->
  if existsb (eligible cfg) pairs
  then is_fatal (search_loop SetActiveRange cfg pairs reported) = true
  else search_loop SetActiveRange cfg pairs reported = Done reported.
Proof.
  intros Hx Hd. revert reported.
  induction pairs as [|sc rest IH]; intros reported; simpl; [reflexivity|].
  destruct (eligible cfg sc) eqn:He; simpl.
  - pose proof (search_pair_aborts sc Hx Hd He) as Hf.
    destruct (search_pair SetActiveRange cfg sc); [discriminate|reflexivity].
  - rewrite (search_pair_skips sc He). simpl. apply IH.
Qed.

Lemma search_loop_guarded (pairs : list (SpecCharge (D := D))) (reported log : list (Scored (D := D))) :
  Forall guarded reported ->
  search_loop SetActiveRange cfg pairs reported = Done log ->
  Forall guarded log.
Proof.
  revert reported. induction pairs as [|sc rest IH]; intros reported Hrep; simpl.
  - intros E. inversion E; subst. exact Hrep.
  - destruct (search_pair SetActiveRange cfg sc) as [[s|]|msg] eqn:Hp; simpl.
    + apply IH. apply Forall_app. split; [exact Hrep|].
      constructor; [|constructor]. exact (search_pair_guarded sc s Hp).
    + apply IH. exact Hrep.
    + discriminate.
Qed.

Lemma join_all_guarded (rs : list (outcome (list (Scored (D := D))))) (log : list (Scored (D := D))) :
  (forall r l, In r rs -> r = Done l -> Forall guarded l) ->
  join_all rs = Done log -> Forall guarded log.
Proof.
  revert log. induction rs as [|r rest IH]; intros log Hall; simpl.
  - intros E. inversion E. constructor.
  - destruct r as [a|msg]; simpl; [|discriminate].
    destruct (join_all rest) as [b|msg] eqn:Hj; simpl; [|discriminate].
    intros E. inversion E; subst. apply Forall_app. split.
    + apply (Hall (Done a) a); [left; reflexivity|reflexivity].
    + apply IH; [|reflexivity]. intros r l Hr. apply Hall. right. exact Hr.
Qed.

Lemma join_all_fatal (rs : list (outcome (list (Scored (D := D))))) :
  (exists r, In r rs /\ is_fatal r = true) -> is_fatal (join_all rs) = true.
Proof.
  induction rs as [|r rest IH]; intros (r0 & Hin & Hf); [destruct Hin|].
  simpl. destruct r as [a|msg]; [|reflexivity]. simpl.
  destruct Hin as [<-|Hin]; [discriminate|].
  pose proof (IH (ex_intro _ r0 (conj Hin Hf))) as Hj.
  destruct (join_all rest); [discriminate|reflexivity].
Qed.

Lemma join_all_quiet (rs : list (outcome (list (Scored (D := D))))) :
  (forall r, In r rs -> r = Done []) -> join_all rs = Done [].
Proof.
  induction rs as [|r rest IH]; intros Hall; [reflexivity|].
  simpl. rewrite (Hall r) by (left; reflexivity). simpl.
  rewrite IH by (intros r' Hr'; apply Hall; right; exact Hr'). reflexivity.
Qed.

(** Every pair belongs to the slice of one thread, and a slice holds
    pairs of the list only. *)
Lemma thread_slice_covers (num_threads : nat) (spec_charges : list (SpecCharge (D := D)))
      (sc : SpecCharge (D := D)) :
  (0 < num_threads)%nat -> In sc spec_charges ->
  exists t, (t < num_threads)%nat /\ In sc (thread_slice t num_threads spec_charges).
Proof.
  intros HT Hin. apply list_elem_of_In in Hin.
  apply list_elem_of_lookup in Hin. destruct Hin as [i Hi].
  exists (i mod num_threads)%nat. split; [apply Nat.mod_upper_bound; lia|].
  unfold thread_slice. destruct num_threads as [|T']; [lia|].
  apply list_elem_of_In. apply list_elem_of_omap.
  exists (i / S T')%nat. split.
  - apply list_elem_of_In. apply in_seq.
    pose proof (lookup_lt_Some _ _ _ Hi).
    pose proof (Nat.Div0.div_le_upper_bound i (S T') i).
    assert (i / S T' <= i)%nat by (apply Nat.Div0.div_le_upper_bound; nia). lia.
  - rewrite <- Hi. f_equal.
    pose proof (Nat.div_mod_eq i (S T')). lia.
Qed.

Lemma thread_slice_within (t num_threads : nat) (spec_charges : list (SpecCharge (D := D)))
      (sc : SpecCharge (D := D)) :
  In sc (thread_slice t num_threads spec_charges) -> In sc spec_charges.
Proof.
  unfold thread_slice. destruct num_threads as [|T']; [intros []|].
  intros Hin. apply list_elem_of_In in Hin. apply list_elem_of_omap in Hin.
  destruct Hin as (k & _ & Hk). apply list_elem_of_In.
  eapply list_elem_of_lookup_2. exact Hk.
Qed.

End Guard.

(** *** The key of the cascade map *)

(** The key is the residue of [scan_num * 10 + charge] modulo 2^32:
    the wrap-around of the [int] product and sum does not show after
    the conversion to [unsigned int]. *)
Lemma cascade_key_mod (scan_num charge : Z) :
  cascade_key scan_num charge = (scan_num * 10 + charge) mod 2 ^ 32.
Proof.
  unfold cascade_key, UInt32.of_int, Int32.add, Int32.mul, Int32.wrap.
  rewrite <- (Zminus_mod_idemp_l ((_ + _ + 2 ^ 31) mod 2 ^ 32)).
  rewrite Z.mod_mod by lia.
  rewrite Zminus_mod_idemp_l.
  replace ((scan_num * 10 + 2 ^ 31) mod 2 ^ 32 - 2 ^ 31 + charge + 2 ^ 31 - 2 ^ 31)
    with ((scan_num * 10 + 2 ^ 31) mod 2 ^ 32 + (charge - 2 ^ 31)) by lia.
  rewrite Zplus_mod_idemp_l. f_equal. lia.
Qed.

Lemma cascade_key_range (scan_num charge : Z) :
  0 <= cascade_key scan_num charge < 2 ^ 32.
Proof. rewrite cascade_key_mod. apply Z.mod_pos_bound. lia. Qed.

(** Where [scan_num * 10 + charge] is itself an [unsigned int], it is
    the key. *)
Lemma cascade_key_exact (scan_num charge : Z) :
  0 <= scan_num * 10 + charge < 2 ^ 32 ->
  cascade_key scan_num charge = scan_num * 10 + charge.
Proof. intros H. rewrite cascade_key_mod. apply Z.mod_small. exact H. Qed.

(** The scan 429496730 at charge 2 is looked up under the key 6, and a
    negative scan number under a key from the upper half of
    [unsigned int]: with these keys in the map the pairs are passed
    over, and the run, which would abort on either of them, ends
    quietly. *)
Lemma cascade_key_wraps :
  cascade_key 429496730 2 = 6
  /\ cascade_key (-1) 2 = 4294967288
  /\ search (H0 := Crux.headers) (fun _ => 7) (cascade_config [6; 4294967288]) 1
       [pair_of_scan 429496730; pair_of_scan (-1)] = Done []
  /\ is_fatal (search (H0 := Crux.headers) (fun _ => 7) (cascade_config [4294967302]) 1
                 [pair_of_scan 429496730]) = true.
Proof. vm_compute. repeat split. Qed.

(** Claim C7, as the code has it.  The guard sits in the scan loop,
    after the filters.  With exact p-values and a nonzero deisotoping
    threshold configured, the run aborts with a fatal error as soon as
    one spectrum-charge pair passes the cascade and range filters, and
    it ends quietly, with nothing scored, when none does.  In every
    run that ends, whatever the configuration, each pair scored by
    exact p-value was scored with the deisotoping threshold at zero. *)
Theorem deisotope_guard {D : Type} (ops : DoubleOps D) (hd : Headers D)
        (SetActiveRange : Window (D := D) -> Z) (cfg : SearchConfig (D := D))
        (num_threads : nat) (spec_charges : list (SpecCharge (D := D))) :
  (0 < num_threads)%nat ->
  (forall log, search SetActiveRange cfg num_threads spec_charges = Done log ->
               Forall guarded log)
  /\ (exact_pval_search cfg = true ->
      (deisotope (preprocess_params cfg) !=? d0)%D = true ->
      if existsb (eligible cfg) spec_charges
      then is_fatal (search SetActiveRange cfg num_threads spec_charges) = true
      else search SetActiveRange cfg num_threads spec_charges = Done []).
Proof.
  intros HT. split.
  - intros log Hlog. unfold search in Hlog.
    apply (join_all_guarded _ log) in Hlog; [exact Hlog|].
    intros r l Hr ->. apply in_map_iff in Hr. destruct Hr as (t & Ht & _).
    unfold search_thread in Ht.
    apply (search_loop_guarded SetActiveRange cfg
             (thread_slice t num_threads spec_charges) [] l); [constructor|exact Ht].
  - intros Hx Hd. destruct (existsb (eligible cfg) spec_charges) eqn:He.
    + apply existsb_exists in He. destruct He as (sc & Hin & Hel).
      destruct (thread_slice_covers num_threads spec_charges sc HT Hin) as (t & Ht & Hsl).
      apply join_all_fatal.
      exists (search_thread SetActiveRange cfg t num_threads spec_charges). split.
      * apply in_map_iff. exists t. split; [reflexivity|]. apply in_seq. lia.
      * unfold search_thread.
        pose proof (search_loop_aborts SetActiveRange cfg
                      (thread_slice t num_threads spec_charges) [] Hx Hd) as Hl.
        assert (Hex : existsb (eligible cfg) (thread_slice t num_threads spec_charges) = true)
          by (apply existsb_exists; exists sc; split; assumption).
        rewrite Hex in Hl. exact Hl.
    + apply join_all_quiet. intros r Hr. apply in_map_iff in Hr.
      destruct Hr as (t & <- & _). unfold search_thread.
      pose proof (search_loop_aborts SetActiveRange cfg
                    (thread_slice t num_threads spec_charges) [] Hx Hd) as Hl.
      assert (Hex : existsb (eligible cfg) (thread_slice t num_threads spec_charges) = false).
      { destruct (existsb (eligible cfg) (thread_slice t num_threads spec_charges)) eqn:E;
          [|reflexivity].
        apply existsb_exists in E. destruct E as (sc & Hin & Hel).
        apply thread_slice_within in Hin.
        assert (existsb (eligible cfg) spec_charges = true)
          by (apply existsb_exists; exists sc; split; assumption).
        congruence. }
      rewrite Hex in Hl. exact Hl.
Qed.

(** Two threads over one eligible pair: the run aborts. *)
Lemma deisotope_guard_witness :
  is_fatal (search (H0 := Crux.headers) (fun _ => 7) exact_deisotope_all_scans 2 [one_pair])
  = true.
Proof.
  exact (proj2 (deisotope_guard B64.ops Crux.headers (fun _ => 7)
                  exact_deisotope_all_scans 2 [one_pair] ltac:(lia))
               eq_refl eq_refl).
Defined.

(** Claim C7, as the spec has it, fails when no pair passes the
    filters: with exact p-values and a deisotoping threshold of 1
    configured, a run over the one pair [one_pair], whose scan 1 lies
    outside the scans 5 to 10, ends without a fatal error. *)
Lemma filtered_run_does_not_abort :
  exact_pval_search exact_deisotope_config = true
  /\ (deisotope (preprocess_params exact_deisotope_config) !=? d0)%D = true
  /\ search (H0 := Crux.headers) (fun _ => 7) exact_deisotope_config 1 [one_pair]
     = Done [].
Proof. vm_compute. repeat split. Qed.

(** ** The exact p-value table *)

Lemma for_up_succ {S} (n : Z) (body : Z -> S -> S) (s : S) :
  0 <= n -> for_up (n + 1) body s = body n (for_up n body s).
Proof.
  intros Hn. unfold for_up.
  replace (Z.to_nat (n + 1)) with (Datatypes.S (Z.to_nat n)) by lia.
  rewrite seq_S, fold_left_app. simpl. rewrite Z2Nat.id by lia. reflexivity.
Qed.

Lemma sum_from_nonneg (c : Z -> R) (j : Z) (len : nat) :
  (forall i, j <= i < j + Z.of_nat len -> (0 <= c i)%R) ->
  (0 <= sum_from c j len)%R.
Proof.
  revert j. induction len as [|l IH]; intros j Hc; simpl; [lra|].
  pose proof (Hc j ltac:(lia)).
  pose proof (IH (j + 1) ltac:(intros; apply Hc; lia)). lra.
Qed.

Lemma sum_from_snoc (c : Z -> R) (j : Z) (len : nat) :
  sum_from c j (S len) = (sum_from c j len + c (j + Z.of_nat len)%Z)%R.
Proof.
  revert j. induction len as [|l IH]; intros j.
  - simpl. rewrite Z.add_0_r. lra.
  - change (sum_from c j (S (S l))) with (c j + sum_from c (j + 1) (S l))%R.
    rewrite IH. simpl sum_from at 2.
    replace (j + 1 + Z.of_nat l) with (j + Z.of_nat (S l)) by lia. lra.
Qed.

Lemma sum_from_pos (c : Z -> R) (j : Z) (len : nat) (i : Z) :
  (forall i, j <= i < j + Z.of_nat len -> (0 <= c i)%R) ->
  j <= i < j + Z.of_nat len -> (0 < c i)%R ->
  (0 < sum_from c j len)%R.
Proof.
  revert j. induction len as [|l IH]; intros j Hc Hi Hpos; [lia|].
  simpl. pose proof (Hc j ltac:(lia)) as Hj.
  destruct (Z.eq_dec i j) as [->|Hne].
  - pose proof (sum_from_nonneg c (j + 1) l ltac:(intros; apply Hc; lia)). lra.
  - pose proof (IH (j + 1) ltac:(intros; apply Hc; lia) ltac:(lia) Hpos). lra.
Qed.

Section Table.

Variables (n : Z) (count : Z -> xreal) (c : Z -> R).

Hypothesis Hcount : forall row, 0 <= row < n -> count row = XFin (c row).
Hypothesis Hnonneg : forall row, 0 <= row < n -> (0 <= c row)%R.

Hypothesis HT : (0 < grand_total n c)%R.

Lemma totalCount_exact (k : Z) :
  0 <= k <= n -> totalCount k count = XFin (sum_from c 0 (Z.to_nat k)).
Proof.
  intros Hk.
  apply (for_up_inv (fun i t => 0 <= i <= k -> t = XFin (sum_from c 0 (Z.to_nat i))));
    [lia| | |lia].
  - intros _. reflexivity.
  - intros i t Hi IH _. rewrite IH by lia. rewrite Hcount by lia.
    replace (Z.to_nat (i + 1)) with (S (Z.to_nat i)) by lia.
    rewrite sum_from_snoc. simpl. rewrite Z2Nat.id by lia. reflexivity.
Qed.

Lemma cumulative_step (row : Z) :
  0 <= row < n -> cumulative n c row = (c row + cumulative n c (row + 1))%R.
Proof.
  intros Hr. unfold cumulative.
  replace (Z.to_nat (n - row)) with (S (Z.to_nat (n - (row + 1)))) by lia.
  reflexivity.
Qed.

Lemma cumulative_nonneg (row : Z) : 0 <= row -> (0 <= cumulative n c row)%R.
Proof.
  intros Hr. unfold cumulative. apply sum_from_nonneg. intros i Hi. apply Hnonneg. lia.
Qed.

(** The first closing loop: counts, their total, their halves. *)
Lemma first_loop_spec :
  0 <= n ->
  let st := for_up n
      (fun row '(p, total, adjust) =>
         let p := wr p row (count row) in
         let total := (total + rd d0 p row)%D in
         (p, total, wr adjust row (rd d0 p row / of_int 2)%D))
      (replicate (Z.to_nat n) d0, d0, replicate (Z.to_nat n) d0) in
  length (fst (fst st)) = Z.to_nat n
  /\ length (snd st) = Z.to_nat n
  /\ snd (fst st) = XFin (grand_total n c)
  /\ forall j, 0 <= j < n ->
       rd d0 (fst (fst st)) j = XFin (c j) /\ rd d0 (snd st) j = XFin (c j / 2).
Proof.
  intros Hn.
  pose (Inv := fun (k : Z) (st : list xreal * xreal * list xreal) =>
    length (fst (fst st)) = Z.to_nat n
    /\ length (snd st) = Z.to_nat n
    /\ snd (fst st) = totalCount k count
    /\ forall j, 0 <= j < k ->
         rd d0 (fst (fst st)) j = XFin (c j) /\ rd d0 (snd st) j = XFin (c j / 2)).
  cbv zeta.
  match goal with
  | |- context [for_up n ?body ?s0] => assert (HI : Inv n (for_up n body s0))
  end.
  { apply for_up_inv; [exact Hn| |].
    - unfold Inv; simpl. rewrite !length_replicate. repeat split; intros; lia.
    - intros k [[p total] adj] Hk (Hlp & Hla & Htot & Hdone). simpl in *.
      assert (Hp : rd d0 (wr p k (count k)) k = XFin (c k)).
      { rewrite rd_wr_eq by lia. apply Hcount. exact Hk. }
      unfold Inv; simpl. rewrite !length_wr. split; [exact Hlp|]. split; [exact Hla|].
      split.
      + unfold totalCount. rewrite for_up_succ by lia.
        fold (totalCount k count). rewrite <- Htot.
        change (rd (XFin 0) (wr p k (count k)) k) with (rd d0 (wr p k (count k)) k).
        rewrite Hp, Hcount by exact Hk. reflexivity.
      + intros j Hj. destruct (Z.eq_dec j k) as [->|Hne].
        * split; [exact Hp|]. rewrite rd_wr_eq by lia.
          change (rd (XFin 0) (wr p k (count k)) k) with (rd d0 (wr p k (count k)) k).
          rewrite Hp. unfold xdiv. destruct (Req_dec_T 2 0); [lra|reflexivity].
        * rewrite !rd_wr_ne by lia. apply Hdone. lia. }
  destruct HI as (H1 & H2 & H3 & H4). rewrite H3, totalCount_exact by lia.
  repeat split; try assumption; apply H4; assumption.
Qed.

(** The second closing loop: from the counts to the cumulative n c counts. *)
Lemma second_loop_spec (p : list xreal) :
  0 < n -> length p = Z.to_nat n ->
  (forall j, 0 <= j < n -> rd d0 p j = XFin (c j)) ->
  let p' := for_down (n - 1)
              (fun row p => wr p row (rd d0 p row + rd d0 p (row + 1))%D) p in
  length p' = Z.to_nat n
  /\ forall j, 0 <= j < n -> rd d0 p' j = XFin (cumulative n c j).
Proof.
  intros Hn Hl Hp.
  pose (Inv := fun (i : Z) (q : list xreal) =>
    length q = Z.to_nat n
    /\ (forall j, i <= j < n -> rd d0 q j = XFin (cumulative n c j))
    /\ (forall j, 0 <= j < i -> rd d0 q j = XFin (c j))).
  cbv zeta.
  match goal with
  | |- context [for_down ?m ?body ?s0] => assert (HI : Inv 0 (for_down m body s0))
  end.
  { apply for_down_inv; [lia| |].
    - unfold Inv. split; [exact Hl|]. split.
      + intros j Hj. assert (j = n - 1) by lia. subst j.
        rewrite Hp by lia. f_equal. rewrite cumulative_step by lia.
        unfold cumulative. replace (n - (n - 1 + 1)) with 0 by lia. simpl. lra.
      + intros j Hj. apply Hp. lia.
    - intros i q Hi (Hlq & Hdone & Htodo). unfold Inv.
      rewrite length_wr. split; [exact Hlq|]. split.
      + intros j Hj. destruct (Z.eq_dec j i) as [->|Hne].
        * rewrite rd_wr_eq by lia. rewrite Htodo by lia. rewrite Hdone by lia.
          simpl. f_equal. rewrite (cumulative_step i) by lia. reflexivity.
        * rewrite rd_wr_ne by lia. apply Hdone. lia.
      + intros j Hj. rewrite rd_wr_ne by lia. apply Htodo. lia. }
  destruct HI as (H1 & H2 & _). split; [exact H1|]. intros j Hj. apply H2. lia.
Qed.

(** One entry through [exp (log _ - log total)]: the quotient. *)
Lemma normalise_exact (a : R) :
  (0 <= a)%R ->
  xexp (xsub (xlog (XFin a)) (xlog (XFin (grand_total n c))))
  = XFin (a / grand_total n c).
Proof.
  intros Ha. unfold xlog at 2.
  destruct (Rlt_dec (grand_total n c) 0); [lra|].
  destruct (Req_dec_T (grand_total n c) 0); [lra|].
  unfold xlog. destruct (Rlt_dec a 0); [lra|].
  destruct (Req_dec_T a 0) as [->|Hne]; simpl.
  - f_equal. unfold Rdiv. lra.
  - f_equal. unfold Rminus. rewrite exp_plus, exp_Ropp, !exp_ln by lra. reflexivity.
Qed.

(** The table in closed form: the cumulative n c count less half the
    count, over the total. *)
Lemma pValueScoreObs_exact (row : Z) :
  0 <= row < n ->
  rd d0 (pValueScoreObs n count) row
  = XFin ((cumulative n c row - c row / 2) / (grand_total n c)).
Proof.
  intros Hrow. unfold pValueScoreObs.
  destruct (first_loop_spec ltac:(lia)) as (Hlp & Hla & Htot & Hfirst).
  destruct (for_up n _ _) as [[p total] adj]. simpl in Hlp, Hla, Htot, Hfirst.
  destruct (second_loop_spec p ltac:(lia) Hlp ltac:(intros j Hj; apply Hfirst; exact Hj))
    as (Hl2 & Hcum).
  set (p2 := for_down (n - 1) _ p) in *.
  subst total.
  pose (Inv := fun (k : Z) (q : list xreal) =>
    length q = Z.to_nat n
    /\ (forall j, 0 <= j < k ->
          rd d0 q j = XFin ((cumulative n c j - c j / 2) / grand_total n c))
    /\ (forall j, k <= j < n -> rd d0 q j = XFin (cumulative n c j))).
  match goal with
  | |- context [for_up n ?body ?s0] => assert (HI : Inv n (for_up n body s0))
  end.
  { apply for_up_inv; [lia| |].
    - unfold Inv. split; [exact Hl2|]. split; [intros; lia|]. intros j Hj. apply Hcum. lia.
    - intros k q Hk (Hlq & Hdone & Htodo). unfold Inv.
      rewrite !length_wr. split; [exact Hlq|]. split.
      + intros j Hj. destruct (Z.eq_dec j k) as [->|Hne].
        * rewrite rd_wr_eq by (rewrite length_wr; lia).
          rewrite rd_wr_eq by lia. rewrite Htodo by lia.
          replace (rd d0 adj k) with (XFin (c k / 2)) by (symmetry; apply (Hfirst k Hk)).
          cbn [dsub dlog dexp XR.ops XR.math].
          change (xsub (XFin (cumulative n c k)) (XFin (c k / 2)))
            with (XFin (cumulative n c k + - (c k / 2))).
          rewrite normalise_exact.
          -- reflexivity.
          -- rewrite (cumulative_step k Hk).
             pose proof (Hnonneg k Hk). pose proof (cumulative_nonneg (k + 1) ltac:(lia)). lra.
        * rewrite !rd_wr_ne by lia. apply Hdone. lia.
      + intros j Hj. rewrite !rd_wr_ne by lia. apply Htodo. lia. }
  destruct HI as (_ & Hdone & _). apply Hdone. exact Hrow.
Qed.

Lemma pValueScoreObs_monotone (row : Z) :
  0 <= row -> row + 1 < n ->
  (rd d0 (pValueScoreObs n count) (row + 1) <=? rd d0 (pValueScoreObs n count) row)%D
  = true.
Proof.
  intros Hr Hn. rewrite !pValueScoreObs_exact by lia.
  cbn [dle XR.ops]. unfold xle, xlt, xeq.
  rewrite (cumulative_step row) by lia.
  pose proof (Hnonneg row ltac:(lia)). pose proof (Hnonneg (row + 1) ltac:(lia)).
  rewrite (cumulative_step (row + 1)) by lia.
  set (s := cumulative n c (row + 1 + 1)).
  assert (Hle : ((c (row + 1) + s - c (row + 1) / 2) / (grand_total n c)
                 <= (c row + (c (row + 1) + s) - c row / 2) / (grand_total n c))%R).
  { apply Rmult_le_compat_r; [apply Rlt_le, Rinv_0_lt_compat; exact HT|]. lra. }
  destruct (Rlt_dec _ _); [reflexivity|]. destruct (Req_dec_T _ _); [reflexivity|]. lra.
Qed.


End Table.

(** ** The score counts are counts *)

Lemma finite_nonneg_val (x : xreal) :
  finite_nonneg x -> x = XFin (xval x) /\ (0 <= xval x)%R.
Proof. intros (r & -> & Hr). split; [reflexivity|exact Hr]. Qed.

Lemma finite_nonneg_zero : finite_nonneg d0.
Proof. exists 0%R. split; [reflexivity|lra]. Qed.

Lemma finite_nonneg_one : finite_nonneg (of_int 1).
Proof. exists 1%R. split; [reflexivity|lra]. Qed.

Lemma finite_nonneg_add (x y : xreal) :
  finite_nonneg x -> finite_nonneg y -> finite_nonneg (x + y)%D.
Proof.
  intros (a & -> & Ha) (b & -> & Hb). exists (a + b)%R. split; [reflexivity|lra].
Qed.

Lemma finite_nonneg_mul (x y : xreal) :
  finite_nonneg x -> finite_nonneg y -> finite_nonneg (x * y)%D.
Proof.
  intros (a & -> & Ha) (b & -> & Hb). exists (a * b)%R.
  split; [reflexivity|apply Rmult_le_pos; assumption].
Qed.

Lemma finite_nonneg_rd (l : list xreal) (i : Z) :
  Forall finite_nonneg l -> finite_nonneg (rd d0 l i).
Proof.
  intros Hl. unfold rd. destruct (i <? 0); [apply finite_nonneg_zero|].
  destruct (l !! Z.to_nat i) as [x|] eqn:E; simpl; [|apply finite_nonneg_zero].
  rewrite Forall_forall in Hl. apply Hl.
  apply (list_elem_of_lookup_2 _ _ _ E).
Qed.

Lemma for_up_preserves {S} (P : S -> Prop) (n : Z) (body : Z -> S -> S) (s : S) :
  P s -> (forall i s, 0 <= i < n -> P s -> P (body i s)) -> P (for_up n body s).
Proof.
  intros Hs Hstep. destruct (Z.le_gt_cases 0 n) as [Hn|Hn].
  - apply (for_up_inv (fun _ s => P s)); assumption.
  - rewrite for_up_nonpos by lia. exact Hs.
Qed.

Lemma for_range_preserves {S} (P : S -> Prop) (lo hi : Z) (body : Z -> S -> S) (s : S) :
  P s -> (forall i s, lo <= i < hi -> P s -> P (body i s)) ->
  P (for_range lo hi body s).
Proof.
  intros Hs Hstep. unfold for_range. apply for_up_preserves; [exact Hs|].
  intros i s' Hi. apply Hstep. lia.
Qed.

Section Counts.

Context {hd : Headers xreal}.

Lemma rd_wr_cases {A} (d : A) (l : list A) (i j : Z) (x : A) :
  rd d (wr l i x) j = x \/ rd d (wr l i x) j = rd d l j.
Proof.
  destruct (Z.eq_dec i j) as [->|Hne]; [|right; apply rd_wr_ne; exact Hne].
  destruct (Z_lt_dec j 0) as [Hneg|Hpos].
  - right. rewrite wr_outside by lia. reflexivity.
  - destruct (Z_lt_dec j (Z.of_nat (length l))) as [Hin|Hout].
    + left. apply rd_wr_eq. lia.
    + right. rewrite wr_outside by lia. reflexivity.
Qed.

Lemma dyn_get_set (a : list (list xreal)) (r c r' c' : Z) (v : xreal) :
  dyn_get (dyn_set a r c v) r' c' = v
  \/ dyn_get (dyn_set a r c v) r' c' = dyn_get a r' c'.
Proof.
  unfold dyn_get, dyn_set.
  destruct (rd_wr_cases [] a r r' (wr (rd [] a r) c v)) as [E|E]; rewrite E.
  - destruct (Z.eq_dec r r') as [->|Hne].
    + apply rd_wr_cases.
    + right. rewrite rd_wr_ne in E by exact Hne. rewrite <- E. reflexivity.
  - right. reflexivity.
Qed.

Lemma counts_set (a : list (list xreal)) (r c : Z) (v : xreal) :
  counts a -> finite_nonneg v -> counts (dyn_set a r c v).
Proof.
  intros Ha Hv row col. destruct (dyn_get_set a r c row col v) as [E|E]; rewrite E.
  - exact Hv.
  - apply Ha.
Qed.

Lemma counts_init (n m : nat) : counts (replicate n (replicate m d0)).
Proof.
  intros row col. unfold dyn_get.
  assert (E : rd [] (replicate n (replicate m d0)) row = replicate m d0
              \/ rd [] (replicate n (replicate m d0)) row = []).
  { unfold rd. destruct (row <? 0); [right; reflexivity|].
    destruct (replicate n (replicate m d0) !! Z.to_nat row) as [l|] eqn:E.
    - apply lookup_replicate in E. left. simpl. tauto.
    - right. reflexivity. }
  destruct E as [-> | ->].
  - rewrite rd_replicate. apply finite_nonneg_zero.
  - rewrite rd_outside by (simpl; lia). apply finite_nonneg_zero.
Qed.

Lemma dyn_cell_nonneg (nAA : Z) (aaFreq : list xreal) (aaMass : list Z)
      (a : list (list xreal)) (evidenceRow col : Z) (sumScore : xreal) :
  Forall finite_nonneg aaFreq -> counts a -> finite_nonneg sumScore ->
  finite_nonneg (dyn_cell nAA aaFreq aaMass a evidenceRow col sumScore).
Proof.
  intros Hf Ha Hs. unfold dyn_cell. apply for_up_preserves; [exact Hs|].
  intros de s _ Hs'. apply finite_nonneg_add; [exact Hs'|].
  apply finite_nonneg_mul; [apply Ha|apply finite_nonneg_rd; exact Hf].
Qed.

Lemma counts_first (b : Bounds) (evidenceObs : list Z) (nAA : Z)
      (aaFreqN : list xreal) (aaMass : list Z) (a : list (list xreal)) :
  Forall finite_nonneg aaFreqN -> counts a ->
  counts (dyn_first b evidenceObs nAA aaFreqN aaMass a).
Proof.
  intros Hf Ha. unfold dyn_first. apply for_up_preserves; [exact Ha|].
  intros de a' _ Ha'. cbv zeta. destruct (_ <=? _); [|exact Ha'].
  apply counts_set; [exact Ha'|].
  apply finite_nonneg_add; [apply Ha'|].
  apply finite_nonneg_mul; [apply Ha'|apply finite_nonneg_rd; exact Hf].
Qed.

Lemma counts_inner (b : Bounds) (evidenceObs : list Z) (nAA : Z)
      (aaFreqI : list xreal) (aaMass : list Z) (a : list (list xreal)) :
  Forall finite_nonneg aaFreqI -> counts a ->
  counts (dyn_inner b evidenceObs nAA aaFreqI aaMass a).
Proof.
  intros Hf Ha. unfold dyn_inner. apply for_range_preserves; [exact Ha|].
  intros ma a' _ Ha'. cbv zeta. apply for_range_preserves; [exact Ha'|].
  intros row a'' _ Ha''. apply counts_set; [exact Ha''|].
  apply dyn_cell_nonneg; [exact Hf|exact Ha''|apply Ha''].
Qed.

Lemma counts_last (b : Bounds) (nAA : Z) (aaFreqC : list xreal) (aaMass : list Z)
      (a : list (list xreal)) :
  Forall finite_nonneg aaFreqC -> counts a ->
  counts (dyn_last b nAA aaFreqC aaMass a).
Proof.
  intros Hf Ha. unfold dyn_last. cbv zeta. apply for_range_preserves; [exact Ha|].
  intros row a' _ Ha'. apply counts_set; [exact Ha'|].
  apply dyn_cell_nonneg; [exact Hf|exact Ha'|apply finite_nonneg_zero].
Qed.

Lemma counts_dynProgArray (b : Bounds) (evidenceObs : list Z) (nAA : Z)
      (aaFreqN aaFreqI aaFreqC : list xreal) (aaMass : list Z) :
  Forall finite_nonneg aaFreqN -> Forall finite_nonneg aaFreqI ->
  Forall finite_nonneg aaFreqC ->
  counts (dynProgArray b evidenceObs nAA aaFreqN aaFreqI aaFreqC aaMass).
Proof.
  intros HN HI HC. unfold dynProgArray. cbv zeta.
  apply counts_last; [exact HC|]. apply counts_inner; [exact HI|].
  apply counts_set; [|apply finite_nonneg_zero].
  apply counts_first; [exact HN|].
  apply counts_set; [apply counts_init|apply finite_nonneg_one].
Qed.

End Counts.

(** Claim C1.  For every evidence vector, peptide integer mass and
    amino-acid tables with finite, non-negative frequencies, whenever
    some score has a positive count, the p-value table of
    [calcScoreCount] does not increase with the score: for every score
    [X] with both [X] and [X + 1] in the table, the p-value of
    [X + 1] is at most that of [X].  Arithmetic is exact, over the
    extended reals. *)
Theorem pvalue_monotone (hd : Headers xreal) (evidenceObs : list Z)
        (pepMassInt maxEvidence minEvidence maxScore minScore nAA : Z)
        (aaFreqN aaFreqI aaFreqC : list xreal) (aaMass : list Z) :
  let b := bounds pepMassInt maxEvidence minEvidence maxScore minScore nAA aaMass in
  let a := dynProgArray b evidenceObs nAA aaFreqN aaFreqI aaFreqC aaMass in
  let r := calcScoreCount evidenceObs pepMassInt maxEvidence minEvidence
             maxScore minScore nAA aaFreqN aaFreqI aaFreqC aaMass in
  Forall finite_nonneg aaFreqN ->
  Forall finite_nonneg aaFreqI ->
  Forall finite_nonneg aaFreqC ->
  (exists row, 0 <= row < nRow b
               /\ (d0 <? dyn_get a row (maxDeltaMass b + colLast b))%D = true) ->
  forall X, 0 <= X + fst r -> X + 1 + fst r < nRow b ->
    (p_value r (X + 1) <=? p_value r X)%D = true.
Proof.
  intros b a r HN HI HC (row0 & Hrow0 & Hpos) X Hlo Hhi.
  pose proof (counts_dynProgArray b evidenceObs nAA _ _ _ aaMass HN HI HC) as Ha.
  fold a in Ha.
  set (count := fun row => dyn_get a row (maxDeltaMass b + colLast b)).
  set (c := fun row => xval (count row)).
  assert (Hcount : forall row, 0 <= row < nRow b -> count row = XFin (c row)).
  { intros row _. apply (finite_nonneg_val (count row)). apply Ha. }
  assert (Hnonneg : forall row, 0 <= row < nRow b -> (0 <= c row)%R).
  { intros row _. apply (finite_nonneg_val (count row)). apply Ha. }
  assert (HT : (0 < grand_total (nRow b) c)%R).
  { unfold grand_total. apply (sum_from_pos c 0 _ row0).
    - intros i Hi. apply Hnonneg. lia.
    - lia.
    - fold (count row0) in Hpos. rewrite (Hcount row0 Hrow0) in Hpos.
      unfold d0 in Hpos. cbn [of_int dlt XR.ops] in Hpos.
      unfold xlt in Hpos. destruct (Rlt_dec _ _) as [Hlt|]; [|discriminate].
      simpl in Hlt. exact Hlt. }
  unfold p_value. subst r. unfold calcScoreCount. cbv zeta. cbn [fst snd].
  fold b. fold a. fold count.
  replace (X + 1 + scoreOffsetObs b) with (X + scoreOffsetObs b + 1) by lia.
  apply (pValueScoreObs_monotone (nRow b) count c Hcount Hnonneg HT).
  - exact Hlo.
  - unfold calcScoreCount in Hhi. cbn [fst] in Hhi. fold b in Hhi. lia.
Qed.

(** *** The bins of the Crux distribution, in exact arithmetic *)

Lemma xdiv_fin (a b : R) : b <> 0%R -> xdiv (XFin a) (XFin b) = XFin (a / b).
Proof. intros Hb. unfold xdiv. destruct (Req_dec_T b 0); [contradiction|reflexivity]. Qed.

Lemma xto_int_fin (r : R) (z : Z) :
  (0 <= r)%R -> (IZR z <= r < IZR z + 1)%R ->
  Int32.min_signed <= z <= Int32.max_signed ->
  xto_int (XFin r) = z.
Proof.
  intros Hr Hz Hrange. unfold xto_int.
  destruct (Rlt_dec r 0); [lra|].
  rewrite <- (Int_part_spec r z) by lra.
  destruct (Z.leb_spec Int32.min_signed z); [|lia].
  destruct (Z.leb_spec z Int32.max_signed); [|lia]. reflexivity.
Qed.

Section OneResidue.

#[local] Existing Instance crux_exact.

Ltac crux_bin :=
  cbn [mass2bin bin2mass mono_h mono_oh crux_exact Crux.headers];
  unfold Crux.bin_width, Crux.bin_offset, dlit;
  cbn [of_int ddiv dadd dsub dmul to_int XR.ops];
  repeat (rewrite !xdiv_fin by lra; cbn [xadd xsub xopp xmul]).

Lemma mass2bin_mono_h : mass2bin mono_h = 1.
Proof.
  unfold crux_exact. crux_bin.
  apply xto_int_fin; [lra|lra|vm_compute; split; discriminate].
Qed.

Lemma mass2bin_last : mass2bin (bin2mass 20 - mono_oh)%D = 3.
Proof.
  unfold crux_exact. crux_bin.
  apply xto_int_fin; [lra|lra|vm_compute; split; discriminate].
Qed.

Lemma one_residue_bounds :
  bounds 20 0 0 0 0 1 [1]
  = {| maxDeltaMass := 1; colStart := 1; scoreOffsetObs := 1; nRow := 2;
       nCol := 21; rowFirst := 1; rowLast := 1; colFirst := 2; colLast := 3;
       initCountRow := 1; initCountCol := 2 |}.
Proof. unfold bounds. rewrite mass2bin_mono_h, mass2bin_last. reflexivity. Qed.

Lemma one_residue_count :
  let b := bounds 20 0 0 0 0 1 [1] in
  (d0 <? dyn_get (dynProgArray b [] 1 [of_int 1] [of_int 1] [of_int 1] [1])
           1 (maxDeltaMass b + colLast b))%D = true.
Proof.
  cbv zeta. rewrite one_residue_bounds.
  cbv -[IZR Rplus Rmult Rlt_dec].
  destruct (Rlt_dec _ _) as [|Hn]; [reflexivity|]. exfalso. apply Hn. lra.
Qed.

Lemma one_residue_rows :
  let b := bounds 20 0 0 0 0 1 [1] in
  scoreOffsetObs b = 1 /\ nRow b = 2.
Proof. cbv zeta. rewrite one_residue_bounds. split; reflexivity. Qed.

End OneResidue.

(** The table of [one_residue_table] at the scores -1 and 0. *)
Lemma pvalue_monotone_witness :
  (p_value one_residue_table (-1 + 1) <=? p_value one_residue_table (-1))%D = true.
Proof.
  destruct one_residue_rows as [Hoff Hrows].
  refine (pvalue_monotone crux_exact [] 20 0 0 0 0 1
            [of_int 1] [of_int 1] [of_int 1] [1] _ _ _ _ (-1) _ _).
  - repeat constructor; apply finite_nonneg_one.
  - repeat constructor; apply finite_nonneg_one.
  - repeat constructor; apply finite_nonneg_one.
  - exists 1. split; [rewrite Hrows; lia|exact one_residue_count].
  - unfold calcScoreCount. cbv zeta. cbn [fst]. rewrite Hoff. lia.
  - unfold calcScoreCount. cbv zeta. cbn [fst]. rewrite Hoff, Hrows. lia.
Defined.

Section Unreachable.

#[local] Existing Instance crux_exact.

Lemma heavy_residue_bounds :
  bounds 20 0 0 0 0 1 [5]
  = {| maxDeltaMass := 5; colStart := 1; scoreOffsetObs := 1; nRow := 2;
       nCol := 25; rowFirst := 1; rowLast := 1; colFirst := 2; colLast := 3;
       initCountRow := 1; initCountCol := 6 |}.
Proof. unfold bounds. rewrite mass2bin_mono_h, mass2bin_last. reflexivity. Qed.

(** Where nothing is counted the normalisation is [0 / 0] at every
    score: no sequence of residues of integer mass 5 has integer
    mass 20. *)
Lemma unreachable_mass_table :
  snd (calcScoreCount [] 20 0 0 0 0 1 [of_int 1] [of_int 1] [of_int 1] [5])
  = [XNaN; XNaN].
Proof.
  unfold calcScoreCount. cbv zeta. cbn [snd]. rewrite heavy_residue_bounds.
  cbv -[IZR Rplus Rmult Rminus Ropp Rdiv Rinv Rlt_dec Req_dec_T ln exp].
  repeat (match goal with
          | |- context [Req_dec_T ?a ?b] =>
              destruct (Req_dec_T a b); try (exfalso; lra)
          | |- context [Rlt_dec ?a ?b] =>
              destruct (Rlt_dec a b); try (exfalso; lra)
          end; cbv beta iota).
  reflexivity.
Qed.

End Unreachable.

(** * Further properties *)

(** ** The sparse dot product *)

Lemma wrap_add_l (a b : Z) : Int32.wrap (Int32.wrap a + b) = Int32.wrap (a + b).
Proof.
  unfold Int32.wrap.
  replace ((a + 2 ^ 31) mod 2 ^ 32 - 2 ^ 31 + b + 2 ^ 31)
    with ((a + 2 ^ 31) mod 2 ^ 32 + b) by lia.
  rewrite Z.add_mod_idemp_l by lia. f_equal. f_equal. lia.
Qed.

Lemma wrap_add_r (a b : Z) : Int32.wrap (a + Int32.wrap b) = Int32.wrap (a + b).
Proof. rewrite Z.add_comm, wrap_add_l. f_equal. lia. Qed.

Lemma DotProd_from (cache theoretical : list Z) (total : Z) :
  fold_left (fun total code => Int32.add total (rd 0 cache code)) theoretical
            (Int32.wrap total)
  = Int32.wrap (total + sum_at cache theoretical).
Proof.
  revert total. induction theoretical as [|code rest IH]; intros total; simpl.
  - f_equal. lia.
  - unfold Int32.add at 2. rewrite wrap_add_l, IH. f_equal. lia.
Qed.

Lemma sum_at_app (cache a b : list Z) :
  sum_at cache (a ++ b) = sum_at cache a + sum_at cache b.
Proof.
  unfold sum_at. induction a as [|x a IH]; simpl; [reflexivity|].
  rewrite IH. lia.
Qed.

Lemma sum_at_perm (cache a b : list Z) :
  Permutation a b -> sum_at cache a = sum_at cache b.
Proof.
  induction 1; simpl; try lia.
Qed.

Lemma DotProd_sum (cache theoretical : list Z) :
  DotProd cache theoretical = Int32.wrap (sum_at cache theoretical).
Proof.
  unfold DotProd. rewrite <- (Z.add_0_l (sum_at cache theoretical)), <- DotProd_from.
  reflexivity.
Qed.

(** Property X1.  The order of the theoretical peaks does not matter
    to [DotProd], wrap-around included. *)
Theorem DotProd_permutation (cache a b : list Z) :
  Permutation a b -> DotProd cache a = DotProd cache b.
Proof.
  intros Hp. rewrite !DotProd_sum. f_equal. apply sum_at_perm. exact Hp.
Qed.

(** Three peaks of a cache of four cells, in two orders. *)
Lemma DotProd_permutation_witness :
  DotProd [5; 7; 11; -2] [0; 3; 1] = DotProd [5; 7; 11; -2] [1; 0; 3].
Proof.
  apply (DotProd_permutation [5; 7; 11; -2] [0; 3; 1] [1; 0; 3]).
  apply Permutation_sym, (Permutation_cons_app [0; 3] [] 1), Permutation_refl.
Defined.

(** Property X2.  The dot product with two lists of peaks one after
    the other is the [int] sum of the two dot products. *)
Theorem DotProd_app (cache a b : list Z) :
  DotProd cache (a ++ b) = Int32.add (DotProd cache a) (DotProd cache b).
Proof.
  rewrite !DotProd_sum, sum_at_app. unfold Int32.add.
  rewrite wrap_add_l, wrap_add_r. reflexivity.
Qed.

(** Property X3.  When the exact sum fits an [int], [DotProd] returns
    it, whatever the partial sums did. *)
Theorem DotProd_exact (cache theoretical : list Z) :
  Int32.in_range (sum_at cache theoretical) ->
  DotProd cache theoretical = sum_at cache theoretical.
Proof.
  intros Hr. rewrite DotProd_sum. apply wrap_in_range. exact Hr.
Qed.

(** The first partial sum is the largest [int]; the next addition
    wraps around, and the sum still comes out. *)
Lemma DotProd_exact_witness :
  DotProd [2147483647; 1; -5] [0; 1; 2] = 2147483643.
Proof.
  apply (DotProd_exact [2147483647; 1; -5] [0; 1; 2]).
  vm_compute. split; discriminate.
Defined.

(** ** The weights of the peak cache *)

Lemma add_wrap (a b : Z) : Int32.add (Int32.wrap a) (Int32.wrap b) = Int32.wrap (a + b).
Proof. unfold Int32.add. rewrite wrap_add_l, wrap_add_r. reflexivity. Qed.

Lemma add_wrap_l (a b : Z) : Int32.add (Int32.wrap a) b = Int32.wrap (a + b).
Proof. unfold Int32.add. apply wrap_add_l. Qed.

(** The first loop without the overflow hypothesis: the multiples are
    taken in [int]. *)
Lemma cache_multiples_wrap (max_mz : MaxBin) (cache : list Z) :
  0 <= BackgroundBinEnd max_mz ->
  BackgroundBinEnd max_mz * NUM_PEAK_TYPES <= Z.of_nat (length cache) ->
  let out := cache_multiples max_mz cache in
  length out = length cache
  /\ (forall i, 0 <= i < BackgroundBinEnd max_mz ->
        Peak out LossPeak i = Int32.wrap (2 * Peak cache PeakMain i)
        /\ Peak out FlankingPeak i = Int32.wrap (5 * Peak cache PeakMain i)
        /\ Peak out PrimaryPeak i = Int32.wrap (10 * Peak cache PeakMain i))
  /\ (forall i, Peak out PeakMain i = Peak cache PeakMain i)
  /\ (forall t i, BackgroundBinEnd max_mz <= i \/ i < 0 \/
                  (t <> LossPeak /\ t <> FlankingPeak /\ t <> PrimaryPeak) ->
                  Peak out t i = Peak cache t i).
Proof.
  intros Hn Hlen. unfold cache_multiples.
  pose (Inv := fun (k : Z) (out : list Z) =>
    length out = length cache
    /\ (forall i, 0 <= i < k ->
          Peak out LossPeak i = Int32.wrap (2 * Peak cache PeakMain i)
          /\ Peak out FlankingPeak i = Int32.wrap (5 * Peak cache PeakMain i)
          /\ Peak out PrimaryPeak i = Int32.wrap (10 * Peak cache PeakMain i))
    /\ (forall i, Peak out PeakMain i = Peak cache PeakMain i)
    /\ (forall t i, k <= i \/ i < 0 \/
                    (t <> LossPeak /\ t <> FlankingPeak /\ t <> PrimaryPeak) ->
                    Peak out t i = Peak cache t i)).
  cbv zeta.
  match goal with
  | |- context [for_up ?n ?body ?s0] => assert (HI : Inv n (for_up n body s0))
  end.
  { apply for_up_inv; [exact Hn| |].
    - unfold Inv. split; [reflexivity|]. split; [intros; lia|].
      split; intros; reflexivity.
    - intros k out Hk (Hl & Hdone & Hmain & Hkeep). unfold Inv. cbv zeta.
      rewrite !length_set_Peak. split; [exact Hl|].
      rewrite (Hmain k).
      set (x := Peak cache PeakMain k).
      assert (Hin : forall t, 0 <= Code t k < Z.of_nat (length out)).
      { intros t. pose proof (Code_range t k (BackgroundBinEnd max_mz) Hk). lia. }
      assert (Hy : Int32.add x x = Int32.wrap (2 * x)).
      { unfold Int32.add. f_equal. lia. }
      rewrite Hy.
      assert (Hz : Int32.add (Int32.add (Int32.wrap (2 * x)) (Int32.wrap (2 * x))) x
                   = Int32.wrap (5 * x)).
      { rewrite add_wrap, add_wrap_l. f_equal. lia. }
      rewrite Hz.
      assert (Hw : Int32.add (Int32.wrap (5 * x)) (Int32.wrap (5 * x))
                   = Int32.wrap (10 * x)).
      { rewrite add_wrap. f_equal. lia. }
      rewrite Hw. split; [|split].
      + intros i Hi. destruct (Z.eq_dec i k) as [->|Hne].
        * fold x. repeat split.
          -- rewrite !Peak_set_ne by (left; discriminate).
             apply Peak_set_eq. apply Hin.
          -- rewrite Peak_set_ne by (left; discriminate).
             apply Peak_set_eq. rewrite length_set_Peak. apply Hin.
          -- apply Peak_set_eq. rewrite !length_set_Peak. apply Hin.
        * rewrite !Peak_set_ne by (right; lia). apply Hdone. lia.
      + intros i. rewrite !Peak_set_ne by (left; discriminate). apply Hmain.
      + intros t i Hti.
        assert (Hne : forall t', (t' = LossPeak \/ t' = FlankingPeak \/ t' = PrimaryPeak) ->
                                 t' <> t \/ k <> i).
        { intros t' Ht'. destruct Hti as [Hi|[Hi|(H1 & H2 & H3)]];
            [right; lia|right; lia|left; intuition congruence]. }
        rewrite !Peak_set_ne by (apply Hne; tauto).
        apply Hkeep. destruct Hti as [Hi|[Hi|Ht]]; [left; lia|tauto|tauto]. }
  exact HI.
Qed.

Section CombinedValues.

Context {D : Type} `{Headers D}.

(** The third loop writes combined cells only and reads basic cells
    only, so every bin gets the value computed from the cache the loop
    started with. *)
Lemma cache_combined_values (max_mz : MaxBin) (NL FP : bool) (cache : list Z) :
  0 <= CacheBinEnd max_mz ->
  CacheBinEnd max_mz * NUM_PEAK_TYPES <= Z.of_nat (length cache) ->
  let out := cache_combined max_mz NL FP cache in
  forall i, 0 <= i < CacheBinEnd max_mz ->
    Peak out PeakCombinedY1 i = Y1_of max_mz NL FP cache i
    /\ Peak out PeakCombinedY2 i = flanks_of max_mz FP cache i.
Proof.
  intros Hn Hlen. unfold cache_combined.
  pose (Inv := fun (k : Z) (out : list Z) =>
    length out = length cache
    /\ (forall i, 0 <= i < k ->
          Peak out PeakCombinedY1 i = Y1_of max_mz NL FP cache i
          /\ Peak out PeakCombinedY2 i = flanks_of max_mz FP cache i)
    /\ (forall t i, t = PeakMain \/ t = LossPeak \/ t = FlankingPeak \/ t = PrimaryPeak ->
                    Peak out t i = Peak cache t i)).
  cbv zeta.
  match goal with
  | |- context [for_up ?n ?body ?s0] => assert (HI : Inv n (for_up n body s0))
  end.
  { apply for_up_inv; [exact Hn| |].
    - unfold Inv. split; [reflexivity|]. split; [intros; lia|]. intros; reflexivity.
    - intros k out Hk (Hl & Hdone & Hbasic). unfold Inv.
      change (Inv (k + 1)
                (set_Peak
                   (set_Peak
                      (set_Peak
                         (set_Peak out PeakCombinedY1 k (Y1_of max_mz NL FP out k))
                         PeakCombinedB1 k (Y1_of max_mz NL FP out k))
                      PeakCombinedY2 k (flanks_of max_mz FP out k))
                   PeakCombinedB2 k (flanks_of max_mz FP out k))).
      assert (Hf : flanks_of max_mz FP out k = flanks_of max_mz FP cache k).
      { unfold flanks_of. rewrite !(Hbasic PrimaryPeak), !(Hbasic FlankingPeak) by tauto.
        reflexivity. }
      assert (Hy : Y1_of max_mz NL FP out k = Y1_of max_mz NL FP cache k).
      { unfold Y1_of. rewrite Hf, !(Hbasic LossPeak) by tauto. reflexivity. }
      rewrite Hf, Hy.
      assert (Hin : forall t, 0 <= Code t k < Z.of_nat (length out)).
      { intros t. pose proof (Code_range t k (CacheBinEnd max_mz) ltac:(lia)). lia. }
      unfold Inv. rewrite !length_set_Peak. split; [exact Hl|]. split.
      + intros i Hi. destruct (Z.eq_dec i k) as [->|Hne].
        * split.
          -- rewrite !Peak_set_ne by (left; discriminate).
             apply Peak_set_eq. apply Hin.
          -- rewrite Peak_set_ne by (left; discriminate).
             apply Peak_set_eq. rewrite !length_set_Peak. apply Hin.
        * rewrite !Peak_set_ne by (right; lia). apply Hdone. lia.
      + intros t i Ht. rewrite !Peak_set_ne by (left; intuition congruence).
        apply Hbasic. exact Ht. }
  destruct HI as (_ & Hdone & _). exact Hdone.
Qed.

End CombinedValues.

(** Property X4.  The weights of the cache.  Where the bin ends are
    ordered as [MaxBin] keeps them, after [ComputeCache] every bin
    holds, in [int] arithmetic: its base value (none from
    [BackgroundBinEnd] on); 2, 5 and 10 times it as loss, flanking and
    primary peak; below [CacheBinEnd], as combined series 2, ten times
    the base value plus five times each neighbour's (with flanking
    peaks on), and as combined series 1, the same plus twice the base
    values [BIN_NH3] and [BIN_H2O] bins below (with neutral losses
    on); from [CacheBinEnd] on, zero in all combined series. *)
Theorem ComputeCache_weights {D : Type} (hd : Headers D) (max_mz : MaxBin)
        (global_end : Z) (NL FP : bool) (cache : list Z) :
  0 <= BackgroundBinEnd max_mz <= CacheBinEnd max_mz ->
  CacheBinEnd max_mz <= global_end ->
  Z.of_nat (length cache) = global_end * NUM_PEAK_TYPES ->
  let out := ComputeCache max_mz (global_end * NUM_PEAK_TYPES) NL FP cache in
  let x := base_value max_mz cache in
  forall i, 0 <= i < global_end ->
    Peak out PeakMain i = x i
    /\ Peak out LossPeak i = Int32.wrap (2 * x i)
    /\ Peak out FlankingPeak i = Int32.wrap (5 * x i)
    /\ Peak out PrimaryPeak i = Int32.wrap (10 * x i)
    /\ Peak out PeakCombinedY1 i
       = (if i <? CacheBinEnd max_mz
          then Int32.wrap (with_losses max_mz NL FP cache i) else 0)
    /\ Peak out PeakCombinedY2 i
       = (if i <? CacheBinEnd max_mz
          then Int32.wrap (flanked max_mz FP cache i) else 0).
Proof.
  intros Hbins Hglobal Hlen out x i Hi. unfold out, ComputeCache.
  set (m1 := cache_multiples max_mz cache).
  set (m2 := cache_clear_tail max_mz (global_end * NUM_PEAK_TYPES) m1).
  unfold NUM_PEAK_TYPES in Hlen.
  destruct (cache_multiples_wrap max_mz cache ltac:(lia)
              ltac:(unfold NUM_PEAK_TYPES; lia)) as (Hl1 & Hmul & Hmain1 & Hkeep1).
  fold m1 in Hl1, Hmul, Hmain1, Hkeep1.
  destruct (cache_clear_tail_spec max_mz (global_end * NUM_PEAK_TYPES) m1 ltac:(lia)
              ltac:(unfold NUM_PEAK_TYPES; lia)) as (Hl2 & Hclr).
  fold m2 in Hl2, Hclr.
  destruct (cache_combined_spec max_mz NL FP m2 ltac:(lia)
              ltac:(unfold NUM_PEAK_TYPES; lia)) as (Hl3 & _ & Hlater & Hbasic).
  pose proof (cache_combined_values max_mz NL FP m2 ltac:(lia)
                ltac:(unfold NUM_PEAK_TYPES; lia)) as Hval.
  cbv zeta in Hval.
  (* the cells of [m2] *)
  assert (Hm2 : forall t j,
            Peak m2 t j = if (0 <=? j) && (j <? BackgroundBinEnd max_mz)
                          then Peak m1 t j else 0).
  { intros t j. unfold Peak. rewrite Hclr.
    pose proof (type_code_bound t) as Ht. unfold Code, NUM_PEAK_TYPES in *.
    destruct (Z.leb_spec 0 j), (Z.ltb_spec j (BackgroundBinEnd max_mz)),
      (Z.leb_spec (BackgroundBinEnd max_mz * 8) (j * 8 + type_code t)),
      (Z.ltb_spec (j * 8 + type_code t) (global_end * 8));
      simpl; try reflexivity; try lia; apply rd_outside; lia. }
  assert (Hbase : forall j,
            Peak m2 PeakMain j = x j
            /\ Peak m2 LossPeak j = Int32.wrap (2 * x j)
            /\ Peak m2 FlankingPeak j = Int32.wrap (5 * x j)
            /\ Peak m2 PrimaryPeak j = Int32.wrap (10 * x j)).
  { intros j. rewrite !Hm2. unfold x, base_value.
    destruct (Z.leb_spec 0 j), (Z.ltb_spec j (BackgroundBinEnd max_mz)); simpl;
      try (repeat split; reflexivity).
    destruct (Hmul j ltac:(lia)) as (E1 & E2 & E3).
    rewrite Hmain1, E1, E2, E3. repeat split; reflexivity. }
  assert (Hfl : forall j, flanks_of max_mz FP m2 j = Int32.wrap (flanked max_mz FP cache j)).
  { intros j. unfold flanks_of, flanked. fold x. cbv zeta.
    rewrite (proj2 (proj2 (proj2 (Hbase j)))).
    rewrite (proj1 (proj2 (proj2 (Hbase (j - 1))))).
    rewrite (proj1 (proj2 (proj2 (Hbase (j + 1))))).
    destruct FP; [|f_equal; lia].
    destruct (0 <? j), (j <? CacheBinEnd max_mz - 1);
      rewrite ?add_wrap; f_equal; lia. }
  assert (Hy1 : forall j, Y1_of max_mz NL FP m2 j
                          = Int32.wrap (with_losses max_mz NL FP cache j)).
  { intros j. unfold Y1_of, with_losses. fold x. cbv zeta. rewrite Hfl.
    rewrite (proj1 (proj2 (Hbase (j - BIN_NH3)))).
    rewrite (proj1 (proj2 (Hbase (j - BIN_H2O)))).
    destruct NL; [|f_equal; lia].
    destruct (BIN_NH3 <? j), (BIN_H2O <? j); rewrite ?add_wrap; f_equal; lia. }
  rewrite !(Hbasic PeakMain), !(Hbasic LossPeak), !(Hbasic FlankingPeak),
    !(Hbasic PrimaryPeak) by tauto.
  destruct (Hbase i) as (B0 & B1 & B2 & B3). rewrite B0, B1, B2, B3.
  repeat split; try reflexivity.
  - destruct (Z.ltb_spec i (CacheBinEnd max_mz)) as [Hlt|Hge].
    + rewrite (proj1 (Hval i ltac:(lia))). apply Hy1.
    + rewrite Hlater by lia. rewrite Hm2.
      destruct (Z.leb_spec 0 i), (Z.ltb_spec i (BackgroundBinEnd max_mz));
        simpl; try reflexivity; lia.
  - destruct (Z.ltb_spec i (CacheBinEnd max_mz)) as [Hlt|Hge].
    + rewrite (proj2 (Hval i ltac:(lia))). apply Hfl.
    + rewrite Hlater by lia. rewrite Hm2.
      destruct (Z.leb_spec 0 i), (Z.ltb_spec i (BackgroundBinEnd max_mz));
        simpl; try reflexivity; lia.
Qed.

(** Bin 1 of the small cache. *)
Lemma ComputeCache_weights_witness :
  let out := ComputeCache (H0 := Crux.headers (D := spec_float)) small_bins
               (4 * NUM_PEAK_TYPES) true true small_cache in
  let x := base_value small_bins small_cache in
  Peak out PeakMain 1 = x 1
  /\ Peak out LossPeak 1 = Int32.wrap (2 * x 1)
  /\ Peak out FlankingPeak 1 = Int32.wrap (5 * x 1)
  /\ Peak out PrimaryPeak 1 = Int32.wrap (10 * x 1)
  /\ Peak out PeakCombinedY1 1
     = (if 1 <? CacheBinEnd small_bins
        then Int32.wrap (with_losses (H := Crux.headers (D := spec_float))
                           small_bins true true small_cache 1) else 0)
  /\ Peak out PeakCombinedY2 1
     = (if 1 <? CacheBinEnd small_bins
        then Int32.wrap (flanked small_bins true small_cache 1) else 0).
Proof.
  refine (ComputeCache_weights (Crux.headers (D := spec_float)) small_bins 4
            true true small_cache _ _ _ 1 _).
  - vm_compute. split; discriminate.
  - vm_compute. discriminate.
  - reflexivity.
  - lia.
Defined.

(** ** What the preprocessing leaves alone *)

Section Frames.

Context {D : Type} `{DoubleOps D} `{Headers D}.

(** Property X5.  [SubtractBackground] keeps the length of the array
    and changes no entry from [end] on. *)
Theorem SubtractBackground_frame (observed : list D) (end_ : Z) :
  length (SubtractBackground observed end_) = length observed
  /\ forall j, end_ <= j ->
       rd d0 (SubtractBackground observed end_) j = rd d0 observed j.
Proof.
  unfold SubtractBackground. cbv zeta.
  apply (for_up_preserves
           (fun out => length out = length observed
                       /\ forall j, end_ <= j -> rd d0 out j = rd d0 observed j)).
  - split; [reflexivity|]. intros; reflexivity.
  - intros i out Hi [Hl Hout]. rewrite length_wr. split; [exact Hl|].
    intros j Hj. rewrite rd_wr_ne by lia. apply Hout. exact Hj.
Qed.

(** [MakeInteger] sets the [PeakMain] cell of every bin below
    [BackgroundBinEnd] to the rounded 50000-fold of its peak and
    touches no other cell of the cache. *)
Lemma MakeInteger_cells (peaks : list D) (max_mz : MaxBin) (cache : list Z) :
  0 <= BackgroundBinEnd max_mz ->
  BackgroundBinEnd max_mz * NUM_PEAK_TYPES <= Z.of_nat (length cache) ->
  let out := MakeInteger peaks max_mz cache in
  length out = length cache
  /\ (forall i, 0 <= i < BackgroundBinEnd max_mz ->
        Peak out PeakMain i = round_to_int (rd d0 peaks i * of_int 50000)%D)
  /\ (forall t i, t <> PeakMain \/ i < 0 \/ BackgroundBinEnd max_mz <= i ->
        Peak out t i = Peak cache t i).
Proof.
  intros Hn Hlen. unfold MakeInteger. cbv zeta.
  pose (Inv := fun (k : Z) (out : list Z) =>
    length out = length cache
    /\ (forall i, 0 <= i < k ->
          Peak out PeakMain i = round_to_int (rd d0 peaks i * of_int 50000)%D)
    /\ (forall t i, t <> PeakMain \/ i < 0 \/ k <= i -> Peak out t i = Peak cache t i)).
  match goal with
  | |- context [for_up ?n ?body ?s0] => assert (HI : Inv n (for_up n body s0))
  end.
  { apply for_up_inv; [exact Hn| |].
    - unfold Inv. split; [reflexivity|]. split; [intros; lia|]. intros; reflexivity.
    - intros k out Hk (Hl & Hdone & Hkeep). unfold Inv.
      rewrite length_set_Peak. split; [exact Hl|]. split.
      + intros i Hi. destruct (Z.eq_dec i k) as [->|Hne].
        * apply Peak_set_eq.
          pose proof (Code_range PeakMain k (BackgroundBinEnd max_mz) Hk). lia.
        * rewrite Peak_set_ne by (right; lia). apply Hdone. lia.
      + intros t i Hti. rewrite Peak_set_ne.
        * apply Hkeep. destruct Hti as [Ht|[Hi|Hi]]; [tauto|tauto|right; right; lia].
        * destruct Hti as [Ht|[Hi|Hi]]; [left; congruence|right; lia|right; lia]. }
  exact HI.
Qed.

End Frames.

(** ** The integerised peaks in the cache *)

Lemma ComputeCache_base {D : Type} (hd : Headers D) (max_mz : MaxBin)
      (global_end : Z) (NL FP : bool) (cache : list Z) :
  0 <= BackgroundBinEnd max_mz <= CacheBinEnd max_mz ->
  CacheBinEnd max_mz <= global_end ->
  Z.of_nat (length cache) = global_end * NUM_PEAK_TYPES ->
  let out := ComputeCache max_mz (global_end * NUM_PEAK_TYPES) NL FP cache in
  length out = length cache
  /\ forall i, 0 <= i < global_end ->
       Peak out PeakMain i = base_value max_mz cache i.
Proof.
  intros Hbins Hglobal Hlen out. unfold out, ComputeCache.
  set (m1 := cache_multiples max_mz cache).
  set (m2 := cache_clear_tail max_mz (global_end * NUM_PEAK_TYPES) m1).
  unfold NUM_PEAK_TYPES in Hlen.
  destruct (cache_multiples_wrap max_mz cache ltac:(lia)
              ltac:(unfold NUM_PEAK_TYPES; lia)) as (Hl1 & _ & Hmain1 & _).
  fold m1 in Hl1, Hmain1.
  destruct (cache_clear_tail_spec max_mz (global_end * NUM_PEAK_TYPES) m1 ltac:(lia)
              ltac:(unfold NUM_PEAK_TYPES; lia)) as (Hl2 & Hclr).
  fold m2 in Hl2, Hclr.
  destruct (cache_combined_spec max_mz NL FP m2 ltac:(lia)
              ltac:(unfold NUM_PEAK_TYPES; lia)) as (Hl3 & _ & _ & Hbasic).
  split; [congruence|]. intros i Hi.
  rewrite (Hbasic PeakMain) by tauto. unfold Peak at 1. rewrite Hclr.
  unfold base_value. unfold Code, NUM_PEAK_TYPES, type_code.
  destruct (Z.leb_spec 0 i), (Z.ltb_spec i (BackgroundBinEnd max_mz)),
    (Z.leb_spec (BackgroundBinEnd max_mz * 8) (i * 8 + 0)),
    (Z.ltb_spec (i * 8 + 0) (global_end * 8)); simpl; try reflexivity; try lia.
  apply Hmain1.
Qed.

(** Property X6.  After [PreprocessSpectrum], where the bin ends of the
    spectrum are ordered and within the global cache end that sizes the
    array, the base cell of every bin below [BackgroundBinEnd] holds
    the rounded 50000-fold of the bin's background-subtracted
    intensity, and the base cell of every later bin holds 0. *)
Theorem PreprocessSpectrum_integerised
        {D : Type} (ops : DoubleOps D) (hd : Headers D)
        (global : MaxBin) (params : PreprocessParams) (spectrum : Spectrum)
        (charge : Z) (observed : ObservedPeakSet) (counters : Counters) :
  let r := fst (PreprocessSpectrum global params spectrum charge observed counters) in
  0 <= BackgroundBinEnd (max_mz_ r) <= CacheBinEnd (max_mz_ r) ->
  CacheBinEnd (max_mz_ r) <= CacheBinEnd global ->
  Z.of_nat (length (cache_ observed)) = CacheBinEnd global * NUM_PEAK_TYPES ->
  length (cache_ r) = length (cache_ observed)
  /\ forall i, 0 <= i < CacheBinEnd global ->
       Peak (cache_ r) PeakMain i
       = if i <? BackgroundBinEnd (max_mz_ r)
         then round_to_int (rd d0 (peaks_ r) i * of_int 50000)%D
         else 0.
Proof.
  cbv zeta. unfold PreprocessSpectrum. cbv zeta.
  destruct (bucket_peaks global params spectrum charge (peaks_ observed) counters)
    as [peaks counters'].
  cbn [fst cache_ max_mz_ peaks_].
  set (max_mz := InitBin _).
  set (sub := SubtractBackground peaks (BackgroundBinEnd max_mz)).
  intros Hbins Hglobal Hlen.
  destruct (MakeInteger_cells sub max_mz (cache_ observed) ltac:(lia)
              ltac:(unfold NUM_PEAK_TYPES in *; lia)) as (Hl1 & Hset & Hkeep).
  destruct (ComputeCache_base hd max_mz (CacheBinEnd global) (NL_ observed) (FP_ observed)
              (MakeInteger sub max_mz (cache_ observed)) Hbins Hglobal
              ltac:(rewrite Hl1; exact Hlen)) as (Hl2 & Hbase).
  split; [congruence|]. intros i Hi. rewrite (Hbase i Hi). unfold base_value.
  destruct (Z.leb_spec 0 i); [|lia].
  destruct (Z.ltb_spec i (BackgroundBinEnd max_mz)); simpl; [|reflexivity].
  apply Hset. lia.
Qed.

(** [three_peaks] at charge 2, under the Crux headers. *)
Lemma PreprocessSpectrum_integerised_witness :
  let r := fst (PreprocessSpectrum (H0 := Crux.headers) global_bins plain_params
                  three_peaks 2 empty_peak_set zero_counters) in
  length (cache_ r) = length (cache_ empty_peak_set)
  /\ forall i, 0 <= i < CacheBinEnd global_bins ->
       Peak (cache_ r) PeakMain i
       = if i <? BackgroundBinEnd (max_mz_ r)
         then round_to_int (rd d0 (peaks_ r) i * of_int 50000)%D
         else 0.
Proof.
  refine (PreprocessSpectrum_integerised B64.ops Crux.headers global_bins plain_params
            three_peaks 2 empty_peak_set zero_counters _ _ _).
  - lazy. split; discriminate.
  - lazy. discriminate.
  - reflexivity.
Defined.

(** ** The peak counters *)

Section PeakCounters.

Context {D : Type} `{DoubleOps D} `{Headers D}.

Variables (spectrum : Spectrum (D := D)) (params : PreprocessParams (D := D)) (cut_off : D).

(** One round of the "Fill peaks" loop counts its peak once, and no
    counter goes down. *)
Lemma fill_step_counts (p : D * D) (st : FillState) :
  let c := fs_counters st in
  let c' := fs_counters (fill_step spectrum params cut_off p st) in
  counted c' = counted c + 1
  /\ num_range_skipped c <= num_range_skipped c'
  /\ num_precursors_skipped c <= num_precursors_skipped c'
  /\ num_isotopes_skipped c <= num_isotopes_skipped c'
  /\ num_retained c <= num_retained c'.
Proof.
  unfold fill_step, counted. cbv zeta.
  destruct (dle cut_off (fst p)); [simpl; lia|].
  destruct (remove_precursor_peak params && _); [simpl; lia|].
  destruct (negb _ && _); simpl; lia.
Qed.

Lemma fill_fold_counts (l : list (D * D)) (st : FillState) :
  let c := fs_counters st in
  let c' := fs_counters (fold_left (fun st p => fill_step spectrum params cut_off p st) l st) in
  counted c' = counted c + Z.of_nat (length l)
  /\ num_range_skipped c <= num_range_skipped c'
  /\ num_precursors_skipped c <= num_precursors_skipped c'
  /\ num_isotopes_skipped c <= num_isotopes_skipped c'
  /\ num_retained c <= num_retained c'.
Proof.
  cbv zeta. revert st. induction l as [|p l IH]; intros st.
  - simpl. lia.
  - cbn [fold_left length]. pose proof (fill_step_counts p st) as Hs. cbv zeta in Hs.
    specialize (IH (fill_step spectrum params cut_off p st)). lia.
Qed.

(** A peak is dropped as an isotope only with a nonzero threshold and
    a fragment charge to try. *)
Lemma fill_step_no_isotope (p : D * D) (st : FillState) :
  (deisotope params ==? d0)%D = true \/ MaxCharge spectrum <= 1 ->
  num_isotopes_skipped (fs_counters (fill_step spectrum params cut_off p st))
  = num_isotopes_skipped (fs_counters st).
Proof.
  intros Hoff. unfold fill_step. cbv zeta.
  destruct (dle cut_off (fst p)); [reflexivity|].
  destruct (remove_precursor_peak params && _); [reflexivity|].
  assert (Hskip : negb (deisotope params ==? d0)%D
                  && is_isotopic spectrum (deisotope params) (MaxCharge spectrum)
                       (fst p) (snd p) = false).
  { destruct Hoff as [Hz|Hc].
    - rewrite Hz. reflexivity.
    - unfold is_isotopic. replace (Z.to_nat (MaxCharge spectrum - 1)) with 0%nat by lia.
      simpl. apply andb_false_r. }
  rewrite Hskip. reflexivity.
Qed.

Lemma fill_fold_no_isotope (l : list (D * D)) (st : FillState) :
  (deisotope params ==? d0)%D = true \/ MaxCharge spectrum <= 1 ->
  num_isotopes_skipped
    (fs_counters (fold_left (fun st p => fill_step spectrum params cut_off p st) l st))
  = num_isotopes_skipped (fs_counters st).
Proof.
  intros Hoff. revert st. induction l as [|p l IH]; intros st; [reflexivity|].
  cbn [fold_left]. rewrite IH. apply fill_step_no_isotope. exact Hoff.
Qed.

End PeakCounters.

(** Property X7.  Without skip-preprocessing, [PreprocessSpectrum]
    counts every peak of the spectrum in exactly one of the four
    counters: their total grows by the number of peaks, and none of
    them goes down. *)
Theorem PreprocessSpectrum_counts_every_peak
        {D : Type} (ops : DoubleOps D) (hd : Headers D)
        (global : MaxBin) (params : PreprocessParams) (spectrum : Spectrum)
        (charge : Z) (observed : ObservedPeakSet) (counters : Counters) :
  skip_preprocessing params = false ->
  let after := snd (PreprocessSpectrum global params spectrum charge observed counters) in
  counted after = counted counters + Size spectrum
  /\ num_range_skipped counters <= num_range_skipped after
  /\ num_precursors_skipped counters <= num_precursors_skipped after
  /\ num_isotopes_skipped counters <= num_isotopes_skipped after
  /\ num_retained counters <= num_retained after.
Proof.
  intros Hskip after. unfold after. rewrite PreprocessSpectrum_counters.
  unfold bucket_peaks, bucket_peaks_of. cbv zeta. rewrite Hskip. cbn [snd].
  unfold fill_peaks, Size.
  match goal with
  | |- context [fold_left _ (rev ?l) ?st] =>
      pose proof (fill_fold_counts spectrum params
                    (experimental_mass_cut_off (PrecursorMZ spectrum) charge)
                    (rev l) st) as Hc
  end.
  cbv zeta in Hc. cbn [fs_counters] in Hc. rewrite length_rev in Hc. exact Hc.
Qed.

(** The three peaks of [three_peaks]. *)
Lemma PreprocessSpectrum_counts_every_peak_witness :
  let after := snd (PreprocessSpectrum (H0 := Crux.headers) global_bins plain_params
                      three_peaks 2 empty_peak_set zero_counters) in
  counted after = counted zero_counters + Size three_peaks
  /\ num_range_skipped zero_counters <= num_range_skipped after
  /\ num_precursors_skipped zero_counters <= num_precursors_skipped after
  /\ num_isotopes_skipped zero_counters <= num_isotopes_skipped after
  /\ num_retained zero_counters <= num_retained after.
Proof.
  exact (PreprocessSpectrum_counts_every_peak B64.ops Crux.headers global_bins
           plain_params three_peaks 2 empty_peak_set zero_counters eq_refl).
Defined.

(** Property X8.  With the deisotoping threshold at zero, or for a
    spectrum whose largest charge is 1 (no fragment charge is tried
    then), [PreprocessSpectrum] removes no peak as an isotope. *)
Theorem PreprocessSpectrum_no_deisotoping
        {D : Type} (ops : DoubleOps D) (hd : Headers D)
        (global : MaxBin) (params : PreprocessParams) (spectrum : Spectrum)
        (charge : Z) (observed : ObservedPeakSet) (counters : Counters) :
  (deisotope params ==? d0)%D = true \/ MaxCharge spectrum <= 1 ->
  num_isotopes_skipped
    (snd (PreprocessSpectrum global params spectrum charge observed counters))
  = num_isotopes_skipped counters.
Proof.
  intros Hoff. rewrite PreprocessSpectrum_counters.
  unfold bucket_peaks, bucket_peaks_of. cbv zeta.
  destruct (skip_preprocessing params); [reflexivity|]. cbn [snd].
  unfold fill_peaks. rewrite fill_fold_no_isotope by exact Hoff. reflexivity.
Qed.

(** [three_peaks] with the threshold of [plain_params], which is 0. *)
Lemma PreprocessSpectrum_no_deisotoping_witness :
  num_isotopes_skipped
    (snd (PreprocessSpectrum (H0 := Crux.headers) global_bins plain_params
            three_peaks 2 empty_peak_set zero_counters))
  = num_isotopes_skipped zero_counters.
Proof.
  exact (PreprocessSpectrum_no_deisotoping B64.ops Crux.headers global_bins
           plain_params three_peaks 2 empty_peak_set zero_counters
           (or_introl eq_refl)).
Defined.

(** ** Rounding to [int] *)






(** ** The isotope errors the parser returns *)

Module IsotopeErrorResults.

Import IsotopeErrors.

Lemma insert_sorted_perm (x : Z) (l : list Z) : Permutation (x :: l) (insert_sorted x l).
Proof.
  induction l as [|y l IH]; simpl; [reflexivity|].
  destruct (x <=? y); [reflexivity|].
  rewrite perm_swap. apply perm_skip. exact IH.
Qed.

Lemma sort_perm (l : list Z) : Permutation l (sort l).
Proof.
  unfold sort. induction l as [|x l IH]; simpl; [reflexivity|].
  rewrite <- insert_sorted_perm. apply perm_skip. exact IH.
Qed.

Lemma insert_sorted_sorted (x : Z) (l : list Z) :
  Sorted Z.le l -> Sorted Z.le (insert_sorted x l).
Proof.
  induction l as [|y l IH]; intros Hs; simpl.
  - constructor; constructor.
  - destruct (Z.leb_spec x y) as [Hle|Hgt].
    + constructor; [exact Hs|]. constructor. exact Hle.
    + inversion Hs as [|? ? Hs' Hhd]; subst. constructor; [apply IH; exact Hs'|].
      destruct l as [|z l]; simpl.
      * constructor. lia.
      * destruct (Z.leb_spec x z); constructor; [lia|].
        inversion Hhd; subst. assumption.
Qed.

Lemma sort_sorted (l : list Z) : Sorted Z.le (sort l).
Proof.
  unfold sort. induction l as [|x l IH]; simpl; [constructor|].
  apply insert_sorted_sorted. exact IH.
Qed.

(** A sorted list without duplicates increases strictly. *)
Lemma sorted_nodup_strict (l : list Z) :
  Sorted Z.le l -> List.NoDup l -> StronglySorted Z.lt l.
Proof.
  intros Hs Hn. apply Sorted_StronglySorted in Hs; [|intros a b c; lia].
  induction Hs as [|x l Hs IH Hall]; [constructor|].
  inversion Hn as [|? ? Hnotin Hn']; subst.
  constructor; [apply IH; exact Hn'|].
  rewrite List.Forall_forall in *. intros y Hy.
  assert (x <> y) by (intros ->; contradiction).
  specialize (Hall y Hy). lia.
Qed.

(** What the loop leaves when it ends without an error. *)
Lemma negate_all_done (vs negs out : list Z) :
  negate_all vs negs = Done out ->
  out = negs ++ map Z.opp vs
  /\ List.Forall (fun v => 0 <= v) vs
  /\ (List.NoDup negs -> List.NoDup out).
Proof.
  revert negs. induction vs as [|e rest IH]; intros negs Hd; simpl in Hd.
  - injection Hd as <-. rewrite app_nil_r. repeat split; [constructor|tauto].
  - destruct (Z.ltb_spec e 0) as [|He]; [discriminate|].
    destruct (existsb (Z.eqb (- e)) negs) eqn:Hex; [discriminate|].
    destruct (IH _ Hd) as (-> & Hall & Hnd).
    split; [rewrite <- app_assoc; reflexivity|]. split; [constructor; assumption|].
    intros Hn. apply Hnd. apply List.NoDup_app.
    + exact Hn.
    + constructor; [intros []|constructor].
    + intros x Hx [<-|[]].
      apply IsotopeErrorFacts.existsb_eqb_In in Hx. congruence.
Qed.

(** And when it does: nothing is negative, nothing repeats, nothing is
    the zero the list starts with. *)
Lemma negate_all_accepts (vs negs : list Z) :
  List.Forall (fun v => 0 <= v) vs ->
  List.NoDup (negs ++ map Z.opp vs) ->
  negate_all vs negs = Done (negs ++ map Z.opp vs).
Proof.
  revert negs. induction vs as [|e rest IH]; intros negs Hall Hnd; simpl.
  - rewrite app_nil_r. reflexivity.
  - inversion Hall as [|? ? He Hall']; subst.
    destruct (Z.ltb_spec e 0) as [|_]; [lia|].
    destruct (existsb (Z.eqb (- e)) negs) eqn:Hex.
    + apply IsotopeErrorFacts.existsb_eqb_In in Hex.
      simpl in Hnd. apply List.NoDup_remove_2 in Hnd.
      exfalso. apply Hnd. apply in_or_app. left. exact Hex.
    + simpl in Hnd. rewrite (IH (negs ++ [- e]) Hall').
      * rewrite <- app_assoc. reflexivity.
      * rewrite <- app_assoc. exact Hnd.
Qed.

Lemma NoDup_map_opp (l : list Z) : List.NoDup l -> List.NoDup (map Z.opp l).
Proof.
  induction 1 as [|x l Hx Hn IH]; simpl; constructor; [|exact IH].
  intros Hin. apply in_map_iff in Hin. destruct Hin as (y & Heq & Hy).
  assert (y = x) by lia. subst y. contradiction.
Qed.

End IsotopeErrorResults.

Lemma last_of_nonpositive (l : list Z) :
  StronglySorted Z.lt l -> In 0 l -> List.Forall (fun x => x <= 0) l ->
  List.last l 0 = 0.
Proof.
  induction l as [|x l IH]; intros Hs Hin Hall; [reflexivity|].
  destruct l as [|y l]; [destruct Hin as [->|[]]; reflexivity|].
  change (List.last (x :: y :: l) 0) with (List.last (y :: l) 0).
  inversion Hs as [|? ? Hs' Hlt]; subst. inversion Hall as [|? ? Hx Hall']; subst.
  apply IH; [exact Hs'| |exact Hall'].
  destruct Hin as [->|Hin]; [|exact Hin].
  inversion Hlt as [|? ? Hy _]; subst. inversion Hall' as [|? ? Hy' _]; subst. lia.
Qed.

(** Property X10.  Whatever the field reader, a list that
    [getNegativeIsotopeErrors] returns increases strictly (it is sorted
    and has no duplicates), holds no positive number, holds 0, and
    ends in 0. *)
Theorem isotope_errors_returned (Split : list ascii -> ascii -> option (list Z))
        (s : list ascii) (l : list Z) :
  IsotopeErrors.getNegativeIsotopeErrors Split s = Done l ->
  StronglySorted Z.lt l
  /\ List.Forall (fun x => x <= 0) l
  /\ In 0 l
  /\ back l = 0.
Proof.
  intros Hd. unfold IsotopeErrors.getNegativeIsotopeErrors in Hd.
  destruct (IsotopeErrors.leading_comma s); [discriminate|].
  destruct (IsotopeErrors.dangling_comma s); [discriminate|].
  assert (Hnegs : exists negs,
            l = IsotopeErrors.sort negs /\ List.NoDup negs /\ In 0 negs
            /\ List.Forall (fun x => x <= 0) negs).
  { destruct s as [|c s'].
    - simpl in Hd. injection Hd as <-. exists [0]. repeat split.
      + constructor; [intros []|constructor].
      + left; reflexivity.
      + constructor; [lia|constructor].
    - destruct (Split (c :: s') ","%char) as [vs|]; [|discriminate].
      simpl in Hd.
      destruct (IsotopeErrors.negate_all vs [0]) as [negs|] eqn:Hn; [|discriminate].
      simpl in Hd. injection Hd as <-.
      destruct (IsotopeErrorResults.negate_all_done _ _ _ Hn) as (-> & Hall & Hnd).
      exists ([0] ++ map Z.opp vs). repeat split.
      + apply Hnd. constructor; [intros []|constructor].
      + left; reflexivity.
      + constructor; [lia|]. rewrite List.Forall_forall in *.
        intros x Hx. apply in_map_iff in Hx. destruct Hx as (v & <- & Hv).
        specialize (Hall v Hv). simpl in Hall. lia. }
  destruct Hnegs as (negs & -> & Hnd & H0 & Hall).
  pose proof (IsotopeErrorResults.sort_perm negs) as Hp.
  assert (Hs : StronglySorted Z.lt (IsotopeErrors.sort negs)).
  { apply IsotopeErrorResults.sorted_nodup_strict;
      [apply IsotopeErrorResults.sort_sorted|].
    apply (Permutation_NoDup Hp). exact Hnd. }
  assert (Hall' : List.Forall (fun x => x <= 0) (IsotopeErrors.sort negs)).
  { rewrite List.Forall_forall in *. intros x Hx. apply Hall.
    apply (Permutation_in x (Permutation_sym Hp)). exact Hx. }
  assert (H0' : In 0 (IsotopeErrors.sort negs)) by (apply (Permutation_in 0 Hp); exact H0).
  repeat split; try assumption.
  unfold back. apply last_of_nonpositive; assumption.
Qed.

(** The list returned for "1,2". *)
Lemma isotope_errors_returned_witness :
  StronglySorted Z.lt [-2; -1; 0]
  /\ List.Forall (fun x => x <= 0) [-2; -1; 0]
  /\ In 0 [-2; -1; 0]
  /\ back [-2; -1; 0] = 0.
Proof.
  exact (isotope_errors_returned IsotopeErrors.Split_int
           (list_ascii_of_string "1,2") [-2; -1; 0] eq_refl).
Defined.

(** Property X11.  A string free of misplaced commas whose fields are
    positive and distinct is accepted: the result is the sorted list
    of 0 and the negated fields. *)
Theorem isotope_errors_accepted (Split : list ascii -> ascii -> option (list Z))
        (s : list ascii) (vs : list Z) :
  s <> [] ->
  IsotopeErrors.leading_comma s = false ->
  IsotopeErrors.dangling_comma s = false ->
  Split s ","%char = Some vs ->
  List.Forall (fun v => 0 < v) vs ->
  List.NoDup vs ->
  IsotopeErrors.getNegativeIsotopeErrors Split s
  = Done (IsotopeErrors.sort (0 :: map Z.opp vs)).
Proof.
  intros Hs Hlead Hdang Hsplit Hpos Hnd.
  unfold IsotopeErrors.getNegativeIsotopeErrors. rewrite Hlead, Hdang.
  destruct s as [|c s']; [contradiction|]. rewrite Hsplit.
  rewrite (IsotopeErrorResults.negate_all_accepts vs [0]); [reflexivity| |].
  - rewrite List.Forall_forall in *. intros v Hv. specialize (Hpos v Hv). simpl in Hpos. lia.
  - simpl. constructor.
    + intros Hin. apply in_map_iff in Hin. destruct Hin as (v & Hv & Hin).
      rewrite List.Forall_forall in Hpos. specialize (Hpos v Hin). simpl in Hpos. lia.
    + apply IsotopeErrorResults.NoDup_map_opp. exact Hnd.
Qed.

(** "3,1". *)
Lemma isotope_errors_accepted_witness :
  IsotopeErrors.getNegativeIsotopeErrors IsotopeErrors.Split_int
    (list_ascii_of_string "3,1")
  = Done (IsotopeErrors.sort (0 :: map Z.opp [3; 1])).
Proof.
  refine (isotope_errors_accepted IsotopeErrors.Split_int
            (list_ascii_of_string "3,1") [3; 1] _ eq_refl eq_refl eq_refl _ _).
  - discriminate.
  - repeat constructor.
  - constructor; [intros [H|[]]; discriminate|].
    constructor; [intros []|constructor].
Defined.

(** Property X12.  The isotope error 0 cannot be given: it repeats the
    0 that the list starts with, and the run ends with the duplicate
    error. *)
Theorem isotope_error_zero_rejected (Split : list ascii -> ascii -> option (list Z))
        (s : list ascii) (vs : list Z) :
  s <> [] ->
  Split s ","%char = Some vs ->
  In 0 vs ->
  is_fatal (IsotopeErrors.getNegativeIsotopeErrors Split s) = true.
Proof.
  intros Hs Hsplit Hin. unfold IsotopeErrors.getNegativeIsotopeErrors.
  destruct (IsotopeErrors.leading_comma s); [reflexivity|].
  destruct (IsotopeErrors.dangling_comma s); [reflexivity|].
  destruct s as [|c s']; [contradiction|]. rewrite Hsplit.
  assert (Hf : is_fatal (IsotopeErrors.negate_all vs [0]) = true).
  { apply IsotopeErrorFacts.negate_all_fatal. right. right. exists 0.
    split; [exact Hin|]. left. reflexivity. }
  destruct (IsotopeErrors.negate_all vs [0]); [discriminate|reflexivity].
Qed.

(** The string "0". *)
Lemma isotope_error_zero_rejected_witness :
  is_fatal (IsotopeErrors.getNegativeIsotopeErrors IsotopeErrors.Split_int
              (list_ascii_of_string "0")) = true.
Proof.
  refine (isotope_error_zero_rejected IsotopeErrors.Split_int
            (list_ascii_of_string "0") [0] _ eq_refl _).
  - discriminate.
  - left. reflexivity.
Defined.

(** ** The range of the precursor windows *)





(** ** The pairs a thread visits *)

Section Slices.

Context {A : Type}.

(** Collecting the defined values of [f] over 0, 1, ..., when [f]
    is defined on an initial segment only. *)
Lemma omap_seq_lookup (f : nat -> option A) (N : nat) :
  (forall a b, (a <= b)%nat -> f a = None -> f b = None) ->
  (forall k, (N <= k)%nat -> f k = None) ->
  forall k, omap f (seq 0 N) !! k = f k.
Proof.
  intros Hclosed Hend.
  assert (HI : forall M,
            let g := omap f (seq 0 M) in
            (forall k, (k < length g)%nat -> g !! k = f k)
            /\ (length g = M \/ ((length g < M)%nat /\ f (length g) = None))).
  { induction M as [|M [Hlook Hlen]]; cbv zeta in *.
    - simpl. split; [intros; lia|left; reflexivity].
    - rewrite seq_S, omap_app. simpl.
      destruct (f M) as [x|] eqn:EM; simpl.
      + destruct Hlen as [Hlen|[Hlt Hnone]].
        * rewrite length_app. simpl. split; [|left; lia].
          intros k Hk. destruct (Nat.eq_dec k M) as [->|Hne].
          -- rewrite lookup_app_r by lia. rewrite Hlen, Nat.sub_diag. simpl.
             symmetry. exact EM.
          -- rewrite lookup_app_l by lia. apply Hlook. lia.
        * assert (Hle : (length (omap f (seq 0 M)) <= M)%nat) by lia.
          rewrite (Hclosed _ M Hle Hnone) in EM. discriminate.
      + rewrite app_nil_r. split; [exact Hlook|].
        destruct Hlen as [Hlen|[Hlt Hnone]]; right.
        * split; [lia|]. rewrite Hlen. exact EM.
        * split; [lia|exact Hnone]. }
  destruct (HI N) as [Hlook Hlen]. cbv zeta in *. intros k.
  destruct (Nat.lt_ge_cases k (length (omap f (seq 0 N)))) as [Hk|Hk].
  - apply Hlook. exact Hk.
  - rewrite lookup_ge_None_2 by lia. symmetry.
    destruct Hlen as [Hlen|[_ Hnone]].
    + apply Hend. lia.
    + apply (Hclosed _ k Hk Hnone).
Qed.

End Slices.

Section Threads.

Context {D : Type} `{DoubleOps D} `{Headers D}.

Lemma thread_slice_lookup (t num_threads : nat) (spec_charges : list (SpecCharge (D := D)))
      (k : nat) :
  (0 < num_threads)%nat ->
  thread_slice t num_threads spec_charges !! k
  = spec_charges !! (t + k * num_threads)%nat.
Proof.
  intros HT. unfold thread_slice. destruct num_threads as [|T']; [lia|].
  apply (omap_seq_lookup (fun k => spec_charges !! (t + k * S T')%nat)).
  - intros a b Hab Ha. apply lookup_ge_None in Ha. apply lookup_ge_None. nia.
  - intros j Hj. apply lookup_ge_None. nia.
Qed.

End Threads.

(** Property X14.  The threads share the spectrum-charge pairs by
    position: thread [t] visits, in this order, the pairs at [t],
    [t + num_threads], [t + 2 * num_threads], ...; so the pair at
    position [i] is visited by thread [i mod num_threads] at its turn
    [i / num_threads], and by no other thread and at no other turn. *)
Theorem thread_slices_partition {D : Type} (ops : DoubleOps D) (hd : Headers D)
        (num_threads : nat) (spec_charges : list (SpecCharge (D := D))) :
  (0 < num_threads)%nat ->
  (forall t k, thread_slice t num_threads spec_charges !! k
               = spec_charges !! (t + k * num_threads)%nat)
  /\ (forall i, thread_slice (i mod num_threads) num_threads spec_charges
                  !! (i / num_threads)%nat
                = spec_charges !! i)
  /\ (forall i t k, (t < num_threads)%nat -> (t + k * num_threads = i)%nat ->
                    t = (i mod num_threads)%nat /\ k = (i / num_threads)%nat).
Proof.
  intros HT. split; [|split].
  - intros t k. apply thread_slice_lookup. exact HT.
  - intros i. rewrite thread_slice_lookup by exact HT. f_equal.
    pose proof (Nat.div_mod_eq i num_threads). lia.
  - intros i t k Ht <-. split.
    + rewrite Nat.Div0.mod_add. symmetry. apply Nat.mod_small. exact Ht.
    + rewrite Nat.div_add by lia. rewrite Nat.div_small by exact Ht. reflexivity.
Qed.

(** Three pairs on two threads. *)
Lemma thread_slices_partition_witness :
  (forall t k, thread_slice t 2 [one_pair; one_pair; one_pair] !! k
               = [one_pair; one_pair; one_pair] !! (t + k * 2)%nat)
  /\ (forall i, thread_slice (i mod 2) 2 [one_pair; one_pair; one_pair] !! (i / 2)%nat
                = [one_pair; one_pair; one_pair] !! i)
  /\ (forall i t k, (t < 2)%nat -> (t + k * 2 = i)%nat ->
                    t = (i mod 2)%nat /\ k = (i / 2)%nat).
Proof.
  exact (thread_slices_partition B64.ops Crux.headers 2 [one_pair; one_pair; one_pair]
           ltac:(lia)).
Defined.

(** ** When a run aborts, and what it scores *)

Section Runs.

Context {D : Type} `{DoubleOps D} `{Headers D}.

Variable SetActiveRange : Window (D := D) -> Z.
Variable cfg : SearchConfig (D := D).

Lemma computeWindow_fatal (sc : SpecCharge (D := D)) (wt : WINDOW_TYPE_T)
      (w : D) (max_charge : Z) (errors : list Z) :
  is_fatal (computeWindow sc wt w max_charge errors) = true <-> wt = WINDOW_INVALID.
Proof.
  destruct wt; simpl; split; intros; try reflexivity; try discriminate.
Qed.

(** One pair ends the run exactly when it passes the filters and the
    configuration is an aborting one. *)
Lemma search_pair_fatal (sc : SpecCharge (D := D)) :
  is_fatal (search_pair SetActiveRange cfg sc) = true
  <-> eligible cfg sc = true /\ aborting cfg.
Proof.
  unfold search_pair, eligible, aborting.
  destruct (in_cascade cfg _ _); simpl; [split; [discriminate|intros [? _]; discriminate]|].
  destruct (filtered_out cfg sc); simpl; [split; [discriminate|intros [? _]; discriminate]|].
  pose proof (computeWindow_fatal sc (window_type cfg) (precursor_window cfg)
                (max_precursor_charge cfg) (negative_isotope_errors_ cfg)) as Hw.
  destruct (computeWindow sc _ _ _ _) as [w|msg]; simpl in *.
  - assert (Hvalid : window_type cfg <> WINDOW_INVALID).
    { intros E. apply Hw in E. discriminate. }
    destruct (exact_pval_search cfg); simpl.
    + destruct (deisotope (preprocess_params cfg) ==? d0)%D; simpl.
      * split; [discriminate|]. intros [_ [E|[_ E]]]; [contradiction|discriminate].
      * split; [intros _|reflexivity]. split; [reflexivity|]. right. split; reflexivity.
    + destruct (SetActiveRange w =? 0); simpl;
        (split; [discriminate|]); intros [_ [E|[E _]]];
        solve [contradiction|discriminate].
  - split; [intros _|reflexivity]. split; [reflexivity|]. left. apply Hw. reflexivity.
Qed.

(** What is on record for a pair that was scored. *)
Lemma search_pair_scored (sc : SpecCharge (D := D)) (s : Scored (D := D)) :
  search_pair SetActiveRange cfg sc = Done (Some s) ->
  scored_pair s = sc
  /\ eligible cfg sc = true
  /\ window_type cfg <> WINDOW_INVALID
  /\ scored_exact_pval s = exact_pval_search cfg
  /\ (exact_pval_search cfg = false -> scored_candidates s <> 0).
Proof.
  unfold search_pair, eligible.
  destruct (in_cascade cfg _ _); simpl; [discriminate|].
  destruct (filtered_out cfg sc); simpl; [discriminate|].
  pose proof (computeWindow_fatal sc (window_type cfg) (precursor_window cfg)
                (max_precursor_charge cfg) (negative_isotope_errors_ cfg)) as Hw.
  destruct (computeWindow sc _ _ _ _) as [w|msg]; simpl in *; [|discriminate].
  assert (Hvalid : window_type cfg <> WINDOW_INVALID).
  { intros E. apply Hw in E. discriminate. }
  destruct (exact_pval_search cfg); simpl.
  - destruct (deisotope (preprocess_params cfg) ==? d0)%D; simpl; [|discriminate].
    intros E. injection E as <-. simpl. repeat split; try assumption. discriminate.
  - destruct (Z.eqb_spec (SetActiveRange w) 0) as [|Hne]; [discriminate|].
    intros E. injection E as <-. simpl. repeat split; try assumption.
    intros _. exact Hne.
Qed.

Lemma search_loop_fatal (pairs : list (SpecCharge (D := D)))
      (reported : list (Scored (D := D))) :
  is_fatal (search_loop SetActiveRange cfg pairs reported) = true
  <-> exists sc, In sc pairs /\ is_fatal (search_pair SetActiveRange cfg sc) = true.
Proof.
  revert reported. induction pairs as [|sc rest IH]; intros reported; simpl.
  - split; [discriminate|intros (sc & [] & _)].
  - destruct (search_pair SetActiveRange cfg sc) as [r|msg] eqn:E; simpl.
    + rewrite IH. split.
      * intros (sc' & Hin & Hf). exists sc'. split; [right; exact Hin|exact Hf].
      * intros (sc' & [<-|Hin] & Hf); [rewrite E in Hf; discriminate|].
        exists sc'. split; assumption.
    + split; [intros _|reflexivity]. exists sc. split; [left; reflexivity|].
      rewrite E. reflexivity.
Qed.

Lemma search_loop_scored (P : Scored (D := D) -> Prop)
      (pairs : list (SpecCharge (D := D))) (reported log : list (Scored (D := D))) :
  (forall sc s, In sc pairs -> search_pair SetActiveRange cfg sc = Done (Some s) -> P s) ->
  List.Forall P reported ->
  search_loop SetActiveRange cfg pairs reported = Done log ->
  List.Forall P log.
Proof.
  revert reported. induction pairs as [|sc rest IH]; intros reported Hstep Hrep Hd;
    simpl in Hd.
  - injection Hd as <-. exact Hrep.
  - destruct (search_pair SetActiveRange cfg sc) as [r|msg] eqn:E; simpl in Hd;
      [|discriminate].
    apply (IH _ ltac:(intros sc' s Hin; apply Hstep; right; exact Hin)) in Hd;
      [exact Hd|].
    destruct r as [s|]; [|exact Hrep].
    apply List.Forall_app. split; [exact Hrep|]. constructor; [|constructor].
    apply (Hstep sc s); [left; reflexivity|exact E].
Qed.

Lemma join_all_fatal_inv (rs : list (outcome (list (Scored (D := D))))) :
  is_fatal (join_all rs) = true -> exists r, In r rs /\ is_fatal r = true.
Proof.
  induction rs as [|r rest IH]; simpl; [discriminate|].
  destruct r as [a|msg]; simpl.
  - destruct (join_all rest) as [b|msg]; simpl; [discriminate|].
    intros _. destruct (IH eq_refl) as (r & Hin & Hf).
    exists r. split; [right; exact Hin|exact Hf].
  - intros _. exists (Fatal msg). split; [left; reflexivity|reflexivity].
Qed.

Lemma join_all_scored (P : Scored (D := D) -> Prop)
      (rs : list (outcome (list (Scored (D := D))))) (log : list (Scored (D := D))) :
  (forall r l, In r rs -> r = Done l -> List.Forall P l) ->
  join_all rs = Done log -> List.Forall P log.
Proof.
  revert log. induction rs as [|r rest IH]; intros log Hall Hd; simpl in Hd.
  - injection Hd as <-. constructor.
  - destruct r as [a|msg]; simpl in Hd; [|discriminate].
    destruct (join_all rest) as [b|msg] eqn:E; simpl in Hd; [|discriminate].
    injection Hd as <-. apply List.Forall_app. split.
    + apply (Hall (Done a)); [left; reflexivity|reflexivity].
    + apply IH; [|reflexivity]. intros r l Hin. apply Hall. right. exact Hin.
Qed.

End Runs.

(** Property X15.  A run aborts exactly when some pair passes the
    filters of the search loop and the configuration has an invalid
    window type, or exact p-values together with a nonzero deisotoping
    threshold.  In particular no other pair and no other setting ends
    a run. *)
Theorem search_aborts_iff {D : Type} (ops : DoubleOps D) (hd : Headers D)
        (SetActiveRange : Window (D := D) -> Z) (cfg : SearchConfig (D := D))
        (num_threads : nat) (spec_charges : list (SpecCharge (D := D))) :
  (0 < num_threads)%nat ->
  is_fatal (search SetActiveRange cfg num_threads spec_charges) = true
  <-> existsb (eligible cfg) spec_charges = true /\ aborting cfg.
Proof.
  intros HT. unfold search. split.
  - intros Hf. apply join_all_fatal_inv in Hf. destruct Hf as (r & Hin & Hf).
    apply in_map_iff in Hin. destruct Hin as (t & <- & _).
    unfold search_thread in Hf. apply search_loop_fatal in Hf.
    destruct Hf as (sc & Hin & Hf). apply search_pair_fatal in Hf.
    destruct Hf as [He Ha]. split; [|exact Ha].
    apply existsb_exists. exists sc. split; [|exact He].
    apply (thread_slice_within _ _ _ _ Hin).
  - intros [He Ha]. apply existsb_exists in He. destruct He as (sc & Hin & He).
    destruct (thread_slice_covers num_threads spec_charges sc HT Hin) as (t & Ht & Hsl).
    apply join_all_fatal.
    exists (search_thread SetActiveRange cfg t num_threads spec_charges). split.
    + apply in_map_iff. exists t. split; [reflexivity|]. apply in_seq. lia.
    + unfold search_thread. apply search_loop_fatal. exists sc. split; [exact Hsl|].
      apply search_pair_fatal. split; assumption.
Qed.

(** Exact p-values with a deisotoping threshold, one eligible pair. *)
Lemma search_aborts_iff_witness :
  is_fatal (search (H0 := Crux.headers) (fun _ => 7) exact_deisotope_all_scans 2 [one_pair])
  = true
  <-> existsb (eligible exact_deisotope_all_scans) [one_pair] = true
      /\ aborting exact_deisotope_all_scans.
Proof.
  exact (search_aborts_iff B64.ops Crux.headers (fun _ => 7) exact_deisotope_all_scans
           2 [one_pair] ltac:(lia)).
Defined.

(** Property X16.  In a run that ends, every scored pair is one of the
    pairs given, has passed the cascade and range filters, was scored
    in the configured mode under a valid window type, and, in the
    standard mode, had at least one candidate peptide. *)
Theorem search_scores_eligible {D : Type} (ops : DoubleOps D) (hd : Headers D)
        (SetActiveRange : Window (D := D) -> Z) (cfg : SearchConfig (D := D))
        (num_threads : nat) (spec_charges : list (SpecCharge (D := D)))
        (log : list (Scored (D := D))) :
  search SetActiveRange cfg num_threads spec_charges = Done log ->
  List.Forall (scored_as cfg spec_charges) log.
Proof.
  intros Hd. unfold search in Hd.
  eapply join_all_scored; [|exact Hd].
  intros r l Hr ->. apply in_map_iff in Hr. destruct Hr as (t & Ht & _).
  unfold search_thread in Ht.
  apply (search_loop_scored SetActiveRange cfg (scored_as cfg spec_charges)
           (thread_slice t num_threads spec_charges) [] l); [|constructor|exact Ht].
  intros sc s Hin Hs. apply search_pair_scored in Hs.
  destruct Hs as (Hp & He & Hw & Hx & Hc). unfold scored_as. rewrite Hp.
  repeat split; try assumption. apply (thread_slice_within _ _ _ _ Hin).
Qed.

(** [one_pair] in the standard mode, seven candidates. *)
Lemma search_scores_eligible_witness :
  List.Forall (scored_as standard_config [one_pair])
    [{| scored_pair := one_pair; scored_exact_pval := false;
        scored_deisotope := B64.of_Z 0; scored_candidates := 7 |}].
Proof.
  exact (search_scores_eligible B64.ops Crux.headers (fun _ => 7) standard_config
           2 [one_pair] _ eq_refl).
Defined.

(** ** The p-values as probabilities *)

Lemma sum_from_split (c : Z -> R) (j : Z) (a b : nat) :
  sum_from c j (a + b) = (sum_from c j a + sum_from c (j + Z.of_nat a) b)%R.
Proof.
  revert j. induction a as [|a IH]; intros j.
  - simpl. rewrite Z.add_0_r. lra.
  - change (S a + b)%nat with (S (a + b)). simpl sum_from. rewrite IH.
    replace (j + 1 + Z.of_nat a) with (j + Z.of_nat (S a)) by lia. lra.
Qed.

Lemma sum_from_zero (c : Z -> R) (j : Z) (len : nat) :
  (forall i, j <= i < j + Z.of_nat len -> c i = 0%R) -> sum_from c j len = 0%R.
Proof.
  revert j. induction len as [|l IH]; intros j Hc; simpl; [reflexivity|].
  rewrite (Hc j) by lia. rewrite IH by (intros; apply Hc; lia). lra.
Qed.

Lemma cumulative_le_total (n : Z) (c : Z -> R) (row : Z) :
  (forall j, 0 <= j < n -> (0 <= c j)%R) ->
  0 <= row <= n ->
  (cumulative n c row <= grand_total n c)%R.
Proof.
  intros Hc Hrow. unfold cumulative, grand_total.
  replace (Z.to_nat n) with (Z.to_nat row + Z.to_nat (n - row))%nat by lia.
  rewrite sum_from_split. rewrite Z2Nat.id, Z.add_0_l by lia.
  pose proof (sum_from_nonneg c 0 (Z.to_nat row) ltac:(intros; apply Hc; lia)). lra.
Qed.

Section Setup.

Context {hd : Headers xreal}.

Variables (evidenceObs : list Z)
          (pepMassInt maxEvidence minEvidence maxScore minScore nAA : Z)
          (aaFreqN aaFreqI aaFreqC : list xreal) (aaMass : list Z).

Let b := bounds pepMassInt maxEvidence minEvidence maxScore minScore nAA aaMass.
Let a := dynProgArray b evidenceObs nAA aaFreqN aaFreqI aaFreqC aaMass.
Let count := fun row => dyn_get a row (maxDeltaMass b + colLast b).

(** The last column in numbers. *)
Lemma last_column_counts :
  Forall finite_nonneg aaFreqN -> Forall finite_nonneg aaFreqI ->
  Forall finite_nonneg aaFreqC ->
  (forall row, count row = XFin (xval (count row)))
  /\ (forall row, (0 <= xval (count row))%R).
Proof.
  intros HN HI HC.
  pose proof (counts_dynProgArray b evidenceObs nAA _ _ _ aaMass HN HI HC) as Ha.
  fold a in Ha. split; intros row; apply (finite_nonneg_val (count row)); apply Ha.
Qed.

Lemma last_column_total :
  Forall finite_nonneg aaFreqN -> Forall finite_nonneg aaFreqI ->
  Forall finite_nonneg aaFreqC ->
  (exists row, 0 <= row < nRow b /\ (d0 <? count row)%D = true) ->
  (0 < grand_total (nRow b) (fun row => xval (count row)))%R.
Proof.
  intros HN HI HC (row0 & Hrow0 & Hpos).
  destruct (last_column_counts HN HI HC) as [Hcount Hnonneg].
  unfold grand_total. apply (sum_from_pos _ 0 _ row0).
  - intros i _. apply Hnonneg.
  - lia.
  - rewrite (Hcount row0) in Hpos.
    unfold d0 in Hpos. cbn [of_int dlt XR.ops] in Hpos.
    unfold xlt in Hpos. destruct (Rlt_dec _ _) as [Hlt|]; [|discriminate].
    simpl in Hlt. exact Hlt.
Qed.

End Setup.

(** Property X17.  The p-value table in closed form.  With finite,
    non-negative frequencies and some score counted, the entry for a
    score is, in exact arithmetic, the count of the higher scores plus
    half the count of the score itself, over the total count. *)
Theorem pvalue_closed_form (hd : Headers xreal) (evidenceObs : list Z)
        (pepMassInt maxEvidence minEvidence maxScore minScore nAA : Z)
        (aaFreqN aaFreqI aaFreqC : list xreal) (aaMass : list Z) :
  let b := bounds pepMassInt maxEvidence minEvidence maxScore minScore nAA aaMass in
  let a := dynProgArray b evidenceObs nAA aaFreqN aaFreqI aaFreqC aaMass in
  let r := calcScoreCount evidenceObs pepMassInt maxEvidence minEvidence
             maxScore minScore nAA aaFreqN aaFreqI aaFreqC aaMass in
  let c := fun row => xval (dyn_get a row (maxDeltaMass b + colLast b)) in
  Forall finite_nonneg aaFreqN ->
  Forall finite_nonneg aaFreqI ->
  Forall finite_nonneg aaFreqC ->
  (exists row, 0 <= row < nRow b
               /\ (d0 <? dyn_get a row (maxDeltaMass b + colLast b))%D = true) ->
  forall X, 0 <= X + fst r < nRow b ->
    p_value r X
    = XFin ((cumulative (nRow b) c (X + fst r + 1) + c (X + fst r) / 2)
            / grand_total (nRow b) c).
Proof.
  intros b a r c HN HI HC Hpos X HX.
  destruct (last_column_counts evidenceObs pepMassInt maxEvidence minEvidence maxScore
              minScore nAA _ _ _ aaMass HN HI HC) as [Hcount Hnonneg].
  pose proof (last_column_total evidenceObs pepMassInt maxEvidence minEvidence maxScore
                minScore nAA _ _ _ aaMass HN HI HC Hpos) as HT.
  assert (Hc : forall row, dyn_get a row (maxDeltaMass b + colLast b) = XFin (c row))
    by (intros row; apply Hcount).
  assert (Hc0 : forall row, (0 <= c row)%R) by (intros row; apply Hnonneg).
  change (0 < grand_total (nRow b) c)%R in HT.
  clear Hcount Hnonneg.
  unfold p_value. subst r. unfold calcScoreCount in *. cbv zeta in *. cbn [fst snd] in *.
  fold b in HX |- *. fold a.
  rewrite (pValueScoreObs_exact (nRow b) _ c
             ltac:(intros row _; apply Hc) ltac:(intros row _; apply Hc0) HT)
    by exact HX.
  f_equal. f_equal. rewrite (cumulative_step (nRow b) c) by exact HX. lra.
Qed.

(** The table of [one_residue_table] at the score 0. *)
Lemma pvalue_closed_form_witness :
  let b := bounds (H1 := crux_exact) 20 0 0 0 0 1 [1] in
  let a := dynProgArray b [] 1 [of_int 1] [of_int 1] [of_int 1] [1] in
  let c := fun row => xval (dyn_get a row (maxDeltaMass b + colLast b)) in
  p_value one_residue_table 0
  = XFin ((cumulative (nRow b) c (0 + fst one_residue_table + 1)
           + c (0 + fst one_residue_table) / 2)
          / grand_total (nRow b) c).
Proof.
  destruct one_residue_rows as [Hoff Hrows].
  refine (pvalue_closed_form crux_exact [] 20 0 0 0 0 1
            [of_int 1] [of_int 1] [of_int 1] [1] _ _ _ _ 0 _).
  - repeat constructor; apply finite_nonneg_one.
  - repeat constructor; apply finite_nonneg_one.
  - repeat constructor; apply finite_nonneg_one.
  - exists 1. split; [rewrite Hrows; lia|exact one_residue_count].
  - unfold calcScoreCount. cbv zeta. cbn [fst]. rewrite Hoff, Hrows. lia.
Defined.

(** Property X18.  Under the same conditions every entry of the table
    is a probability: a finite number between 0 and 1. *)
Theorem pvalue_is_probability (hd : Headers xreal) (evidenceObs : list Z)
        (pepMassInt maxEvidence minEvidence maxScore minScore nAA : Z)
        (aaFreqN aaFreqI aaFreqC : list xreal) (aaMass : list Z) :
  let b := bounds pepMassInt maxEvidence minEvidence maxScore minScore nAA aaMass in
  let a := dynProgArray b evidenceObs nAA aaFreqN aaFreqI aaFreqC aaMass in
  let r := calcScoreCount evidenceObs pepMassInt maxEvidence minEvidence
             maxScore minScore nAA aaFreqN aaFreqI aaFreqC aaMass in
  Forall finite_nonneg aaFreqN ->
  Forall finite_nonneg aaFreqI ->
  Forall finite_nonneg aaFreqC ->
  (exists row, 0 <= row < nRow b
               /\ (d0 <? dyn_get a row (maxDeltaMass b + colLast b))%D = true) ->
  forall X, 0 <= X + fst r < nRow b ->
    exists p, p_value r X = XFin p /\ (0 <= p <= 1)%R.
Proof.
  intros b a r HN HI HC Hpos X HX.
  set (c := fun row => xval (dyn_get a row (maxDeltaMass b + colLast b))).
  destruct (last_column_counts evidenceObs pepMassInt maxEvidence minEvidence maxScore
              minScore nAA _ _ _ aaMass HN HI HC) as [Hcount Hnonneg].
  pose proof (last_column_total evidenceObs pepMassInt maxEvidence minEvidence maxScore
                minScore nAA _ _ _ aaMass HN HI HC Hpos) as HT.
  assert (Hc : forall row, dyn_get a row (maxDeltaMass b + colLast b) = XFin (c row))
    by (intros row; apply Hcount).
  assert (Hc0 : forall row, (0 <= c row)%R) by (intros row; apply Hnonneg).
  change (0 < grand_total (nRow b) c)%R in HT.
  clear Hcount Hnonneg.
  unfold p_value. subst r. unfold calcScoreCount in *. cbv zeta in *. cbn [fst snd] in *.
  fold b in HX |- *. fold a.
  rewrite (pValueScoreObs_exact (nRow b) _ c
             ltac:(intros row _; apply Hc) ltac:(intros row _; apply Hc0) HT)
    by exact HX.
  eexists. split; [reflexivity|].
  set (row := X + scoreOffsetObs b) in *.
  pose proof (cumulative_le_total (nRow b) c row ltac:(intros; apply Hc0) ltac:(lia)).
  pose proof (cumulative_step (nRow b) c row HX) as Hstep.
  pose proof (cumulative_nonneg (nRow b) c ltac:(intros; apply Hc0) (row + 1) ltac:(lia)).
  pose proof (Hc0 row).
  split.
  - apply Rmult_le_pos; [lra|]. apply Rlt_le, Rinv_0_lt_compat. exact HT.
  - apply (Rmult_le_reg_r (grand_total (nRow b) c)); [exact HT|].
    unfold Rdiv. rewrite Rmult_assoc, Rinv_l by lra. lra.
Qed.

(** The same entry. *)
Lemma pvalue_is_probability_witness :
  exists p, p_value one_residue_table 0 = XFin p /\ (0 <= p <= 1)%R.
Proof.
  destruct one_residue_rows as [Hoff Hrows].
  refine (pvalue_is_probability crux_exact [] 20 0 0 0 0 1
            [of_int 1] [of_int 1] [of_int 1] [1] _ _ _ _ 0 _).
  - repeat constructor; apply finite_nonneg_one.
  - repeat constructor; apply finite_nonneg_one.
  - repeat constructor; apply finite_nonneg_one.
  - exists 1. split; [rewrite Hrows; lia|exact one_residue_count].
  - unfold calcScoreCount. cbv zeta. cbn [fst]. rewrite Hoff, Hrows. lia.
Defined.

(** ** The size of the p-value table *)

Section TableSize.

Context {D : Type} `{DoubleOps D} `{DoubleMath D} `{Headers D}.

Lemma for_down_preserves {S} (P : S -> Prop) (n : Z) (body : Z -> S -> S) (s : S) :
  P s -> (forall i s, 0 <= i < n -> P s -> P (body i s)) -> P (for_down n body s).
Proof.
  intros Hs Hstep. destruct (Z.le_gt_cases 0 n) as [Hn|Hn].
  - apply (for_down_inv (fun _ s => P s)); assumption.
  - unfold for_down. replace (Z.to_nat n) with 0%nat by lia. exact Hs.
Qed.

Lemma length_pValueScoreObs (n : Z) (count : Z -> D) :
  length (pValueScoreObs n count) = Z.to_nat n.
Proof.
  unfold pValueScoreObs.
  assert (Hfirst : length (fst (fst (for_up n
      (fun row '(p, total, adjust) =>
         let p := wr p row (count row) in
         let total := (total + rd d0 p row)%D in
         (p, total, wr adjust row (rd d0 p row / of_int 2)%D))
      (replicate (Z.to_nat n) d0, d0, replicate (Z.to_nat n) d0)))) = Z.to_nat n).
  { apply (for_up_preserves (fun st => length (fst (fst st)) = Z.to_nat n)).
    - simpl. apply length_replicate.
    - intros i [[p total] adj] _ Hl. simpl in *. rewrite length_wr. exact Hl. }
  destruct (for_up n _ _) as [[p total] adj]. simpl in Hfirst.
  apply (for_up_preserves (fun q => length q = Z.to_nat n)).
  - apply (for_down_preserves (fun q => length q = Z.to_nat n)); [exact Hfirst|].
    intros i q _ Hl. rewrite length_wr. exact Hl.
  - intros i q _ Hl. rewrite !length_wr. exact Hl.
Qed.

End TableSize.

(** Property X19.  The table [calcScoreCount] fills has one entry per
    row of the dynamic programme, and the offset it returns is
    [maxEvidence + 1 - minScore]; so, when the evidence bounds
    enclose 0, every score from [minScore] to [maxScore] has its entry
    at the score plus the offset, where the caller reads it. *)
Theorem calcScoreCount_table_size {D : Type} (ops : DoubleOps D) (math : DoubleMath D)
        (hd : Headers D) (evidenceObs : list Z)
        (pepMassInt maxEvidence minEvidence maxScore minScore nAA : Z)
        (aaFreqN aaFreqI aaFreqC : list D) (aaMass : list Z) :
  let r := calcScoreCount evidenceObs pepMassInt maxEvidence minEvidence
             maxScore minScore nAA aaFreqN aaFreqI aaFreqC aaMass in
  fst r = maxEvidence + 1 - minScore
  /\ length (snd r)
     = Z.to_nat (maxEvidence + 1 - minScore + 1 + maxScore - minEvidence)
  /\ (minEvidence <= 0 <= maxEvidence ->
      forall score, minScore <= score <= maxScore ->
        0 <= score + fst r < Z.of_nat (length (snd r))).
Proof.
  cbv zeta. unfold calcScoreCount. cbv zeta. cbn [fst snd].
  rewrite length_pValueScoreObs. unfold bounds. cbv zeta. cbn [scoreOffsetObs nRow].
  split; [reflexivity|]. split; [f_equal; lia|]. intros He score Hs. lia.
Qed.

(** ** A table with nothing counted *)

(** With every count at zero the total is zero, its logarithm is
    [-inf], and so is that of every cumulative count: each entry is
    [exp (-inf - -inf)]. *)
Lemma pValueScoreObs_nothing_counted (n : Z) (count : Z -> xreal) (row : Z) :
  (forall j, 0 <= j < n -> count j = XFin 0) ->
  0 <= row < n ->
  rd d0 (pValueScoreObs n count) row = XNaN.
Proof.
  intros Hcount Hrow. unfold pValueScoreObs.
  set (c := fun _ : Z => 0%R).
  destruct (first_loop_spec n count c Hcount ltac:(lia)) as (Hlp & Hla & Htot & Hfirst).
  destruct (for_up n _ _) as [[p total] adj].
  cbn [fst snd] in Hlp, Hla, Htot, Hfirst.
  destruct (second_loop_spec n c p ltac:(lia) Hlp
              ltac:(intros j Hj; apply Hfirst; exact Hj)) as (Hl2 & Hcum).
  set (p2 := for_down (n - 1) _ p) in *.
  assert (Hzero : forall j, cumulative n c j = 0%R).
  { intros j. unfold cumulative. apply sum_from_zero. intros; reflexivity. }
  assert (Hg : grand_total n c = 0%R).
  { unfold grand_total. apply sum_from_zero. intros; reflexivity. }
  subst total. rewrite Hg.
  pose (Inv := fun (k : Z) (q : list xreal) =>
    length q = Z.to_nat n
    /\ (forall j, 0 <= j < k -> rd d0 q j = XNaN)
    /\ (forall j, k <= j < n -> rd d0 q j = XFin 0)).
  match goal with
  | |- context [for_up n ?body ?s0] => assert (HI : Inv n (for_up n body s0))
  end.
  { apply for_up_inv; [lia| |].
    - unfold Inv. split; [exact Hl2|]. split; [intros; lia|].
      intros j Hj. rewrite Hcum by lia. rewrite Hzero. reflexivity.
    - intros k q Hk (Hlq & Hdone & Htodo). unfold Inv.
      rewrite !length_wr. split; [exact Hlq|]. split.
      + intros j Hj. destruct (Z.eq_dec j k) as [->|Hne].
        * rewrite rd_wr_eq by (rewrite length_wr; lia).
          rewrite rd_wr_eq by lia. rewrite Htodo by lia.
          replace (rd d0 adj k) with (XFin (c k / 2)) by (symmetry; apply (Hfirst k Hk)).
          cbn [dsub dlog dexp XR.ops XR.math]. unfold c.
          cbn [xsub xadd xopp]. unfold xlog.
          destruct (Rlt_dec (0 + - (0 / 2)) 0); [lra|].
          destruct (Req_dec_T (0 + - (0 / 2)) 0); [|lra].
          destruct (Rlt_dec 0 0); [lra|].
          destruct (Req_dec_T 0 0); [|lra].
          reflexivity.
        * rewrite !rd_wr_ne by lia. apply Hdone. lia.
      + intros j Hj. rewrite !rd_wr_ne by lia. apply Htodo. lia. }
  destruct HI as (_ & Hdone & _). apply Hdone. exact Hrow.
Qed.

(** Property X20.  When the dynamic programme counts nothing for the
    peptide mass (no row of the last column is positive), every entry
    of the table is NaN in exact arithmetic: the normalisation divides
    zero by zero. *)
Theorem pvalue_nothing_counted (hd : Headers xreal) (evidenceObs : list Z)
        (pepMassInt maxEvidence minEvidence maxScore minScore nAA : Z)
        (aaFreqN aaFreqI aaFreqC : list xreal) (aaMass : list Z) :
  let b := bounds pepMassInt maxEvidence minEvidence maxScore minScore nAA aaMass in
  let a := dynProgArray b evidenceObs nAA aaFreqN aaFreqI aaFreqC aaMass in
  let r := calcScoreCount evidenceObs pepMassInt maxEvidence minEvidence
             maxScore minScore nAA aaFreqN aaFreqI aaFreqC aaMass in
  Forall finite_nonneg aaFreqN ->
  Forall finite_nonneg aaFreqI ->
  Forall finite_nonneg aaFreqC ->
  (forall row, 0 <= row < nRow b ->
               (d0 <? dyn_get a row (maxDeltaMass b + colLast b))%D = false) ->
  forall X, 0 <= X + fst r < nRow b -> p_value r X = XNaN.
Proof.
  intros b a r HN HI HC Hnone X HX.
  destruct (last_column_counts evidenceObs pepMassInt maxEvidence minEvidence maxScore
              minScore nAA _ _ _ aaMass HN HI HC) as [Hcount Hnonneg].
  unfold p_value. subst r. unfold calcScoreCount in *. cbv zeta in *. cbn [fst snd] in *.
  fold b in HX |- *. fold a.
  apply pValueScoreObs_nothing_counted; [|exact HX].
  intros j Hj. specialize (Hnone j Hj). fold b a in Hcount, Hnonneg.
  rewrite (Hcount j) in Hnone |- *. specialize (Hnonneg j).
  unfold d0 in Hnone. cbn [of_int dlt XR.ops] in Hnone. unfold xlt in Hnone.
  destruct (Rlt_dec _ _) as [|Hn]; [discriminate|].
  f_equal. apply Rle_antisym; [|exact Hnonneg].
  apply Rnot_lt_le. exact Hn.
Qed.

Section HeavyResidue.

#[local] Existing Instance crux_exact.

Lemma heavy_residue_count (row : Z) :
  let b := bounds 20 0 0 0 0 1 [5] in
  0 <= row < nRow b ->
  (d0 <? dyn_get (dynProgArray b [] 1 [of_int 1] [of_int 1] [of_int 1] [5])
           row (maxDeltaMass b + colLast b))%D = false.
Proof.
  cbv zeta. rewrite heavy_residue_bounds. cbn [nRow]. intros Hrow.
  assert (Hr : row = 0 \/ row = 1) by lia.
  destruct Hr as [-> | ->]; cbv -[IZR Rplus Rmult Rlt_dec];
    (destruct (Rlt_dec _ _) as [Hlt|]; [exfalso; lra|reflexivity]).
Qed.

End HeavyResidue.

(** The table of [heavy_residue_table] at the score 0. *)
Lemma pvalue_nothing_counted_witness :
  p_value heavy_residue_table 0 = XNaN.
Proof.
  refine (pvalue_nothing_counted crux_exact [] 20 0 0 0 0 1
            [of_int 1] [of_int 1] [of_int 1] [5] _ _ _ _ 0 _).
  - repeat constructor; apply finite_nonneg_one.
  - repeat constructor; apply finite_nonneg_one.
  - repeat constructor; apply finite_nonneg_one.
  - exact heavy_residue_count.
  - unfold calcScoreCount. cbv zeta. cbn [fst]. rewrite heavy_residue_bounds.
    cbn [scoreOffsetObs nRow]. lia.
Defined.

(** ** The integer masses of the candidates *)

Lemma unique_from_spec (prev : Z) (l : list Z) :
  StronglySorted Z.le l -> List.Forall (fun x => prev <= x) l ->
  StronglySorted Z.lt (unique_from prev l)
  /\ List.Forall (fun x => prev < x) (unique_from prev l)
  /\ forall x, In x (unique_from prev l) <-> In x l /\ x <> prev.
Proof.
  revert prev. induction l as [|y l IH]; intros prev Hs Hall; simpl.
  - split; [constructor|]. split; [constructor|]. intros x. tauto.
  - inversion Hs as [|? ? Hs' Hy]; subst. inversion Hall as [|? ? Hpy Hall']; subst.
    destruct (Z.eqb_spec y prev) as [->|Hne].
    + destruct (IH prev Hs' Hall') as (H1 & H2 & H3).
      split; [exact H1|]. split; [exact H2|].
      intros x. rewrite H3. split; [tauto|]. intros [[<-|Hin] Hx]; [contradiction|tauto].
    + destruct (IH y Hs' Hy) as (H1 & H2 & H3).
      split; [constructor; assumption|]. split.
      * constructor; [lia|]. rewrite List.Forall_forall in *. intros x Hx.
        specialize (H2 x Hx). simpl in H2. lia.
      * intros x. simpl. rewrite H3. split.
        -- intros [<-|[Hin Hx]]; [split; [left; reflexivity|exact Hne]|].
           split; [right; exact Hin|].
           rewrite List.Forall_forall in Hy. specialize (Hy x Hin). simpl in Hy. lia.
        -- intros [[<-|Hin] Hx]; [left; reflexivity|].
           destruct (Z.eq_dec x y) as [->|Hxy]; [left; reflexivity|right; tauto].
Qed.

Lemma unique_spec (l : list Z) :
  Sorted Z.le l ->
  StronglySorted Z.lt (unique l) /\ forall x, In x (unique l) <-> In x l.
Proof.
  intros Hs. apply Sorted_StronglySorted in Hs; [|intros a b c; lia].
  destruct l as [|y l]; simpl.
  - split; [constructor|]. intros x. tauto.
  - inversion Hs as [|? ? Hs' Hy]; subst.
    destruct (unique_from_spec y l Hs' Hy) as (H1 & H2 & H3).
    split; [constructor; assumption|]. intros x. rewrite H3.
    destruct (Z.eq_dec x y) as [->|Hne]; tauto.
Qed.

Lemma first_index_found (mass : Z) (l : list Z) (ma : Z) :
  In mass l ->
  exists k, first_index mass l ma = Some (ma + Z.of_nat k)
            /\ l !! k = Some mass.
Proof.
  revert ma. induction l as [|x l IH]; intros ma Hin; [destruct Hin|]. simpl.
  destruct (Z.eqb_spec x mass) as [->|Hne].
  - exists 0%nat. split; [f_equal; lia|reflexivity].
  - destruct Hin as [->|Hin]; [contradiction|].
    destruct (IH (ma + 1) Hin) as (k & Hk & Hl).
    exists (S k). split; [rewrite Hk; f_equal; lia|exact Hl].
Qed.

(** Property X21.  The integer masses for which a p-value table is
    computed increase strictly and are exactly the masses of the
    selected candidates; and the search for a candidate's mass ends at
    an index of the list that holds this very mass, so every candidate
    reads the table of its own mass. *)
Theorem pepMassIntUnique_lookup (pepMassInt : list Z) :
  let uniq := pepMassIntUnique pepMassInt in
  StronglySorted Z.lt uniq
  /\ (forall x, In x uniq <-> In x pepMassInt)
  /\ (forall mass, In mass pepMassInt ->
        0 <= pepMassIntIdx uniq mass < Z.of_nat (length uniq)
        /\ rd 0 uniq (pepMassIntIdx uniq mass) = mass).
Proof.
  cbv zeta. unfold pepMassIntUnique.
  destruct (unique_spec (IsotopeErrors.sort pepMassInt)
              (IsotopeErrorResults.sort_sorted pepMassInt)) as [Hs Hin].
  pose proof (IsotopeErrorResults.sort_perm pepMassInt) as Hp.
  assert (Hsame : forall x, In x (unique (IsotopeErrors.sort pepMassInt))
                            <-> In x pepMassInt).
  { intros x. rewrite Hin. split; apply Permutation_in;
      [apply Permutation_sym; exact Hp|exact Hp]. }
  split; [exact Hs|]. split; [exact Hsame|].
  intros mass Hmass. apply Hsame in Hmass.
  destruct (first_index_found mass _ 0 Hmass) as (k & Hk & Hl).
  unfold pepMassIntIdx. rewrite Hk. simpl default.
  pose proof (lookup_lt_Some _ _ _ Hl). split; [lia|].
  unfold rd. destruct (Z.ltb_spec (0 + Z.of_nat k) 0); [lia|].
  replace (Z.to_nat (0 + Z.of_nat k)) with k by lia. rewrite Hl. reflexivity.
Qed.

(** ** What the checks of [main] establish *)

Lemma check_threads_done (hardware_concurrency : Z) (p : MainParams) (n : Z) :
  check_threads hardware_concurrency p = Done n ->
  (1 <= n <= 64 \/ (num_threads_param p < 1 /\ n = hardware_concurrency))
  /\ (peptide_centric_search p = true -> n = 1).
Proof.
  unfold check_threads. cbv zeta. destruct (peptide_centric_search p); simpl.
  - intros E. injection E as <-. split; [left; lia|reflexivity].
  - destruct (Z.ltb_spec (num_threads_param p) 1).
    + intros E. injection E as <-. split; [right; split; [assumption|reflexivity]|].
      discriminate.
    + destruct (Z.ltb_spec 64 (num_threads_param p)); [discriminate|].
      intros E. injection E as <-. split; [left; lia|discriminate].
Qed.

Lemma check_charge_done (atoi : string -> Z) (p : MainParams) (c : Z) :
  check_charge atoi p = Done c ->
  0 <= c <= 6 /\ (c = 0 <-> spectrum_charge p = "all"%string).
Proof.
  unfold check_charge. cbv zeta.
  destruct (String.eqb_spec (spectrum_charge p) "all") as [Hall|Hno].
  - intros E. injection E as <-. split; [lia|]. split; [intros _; exact Hall|reflexivity].
  - destruct (Z.ltb_spec (atoi (spectrum_charge p)) 1); [discriminate|].
    destruct (Z.ltb_spec 6 (atoi (spectrum_charge p))); [discriminate|].
    simpl. intros E. injection E as <-. split; [lia|]. split; [lia|contradiction].
Qed.

Lemma check_scans_done (atoi : string -> Z)
      (get_range_from_string : string -> option (Z * Z)) (BILLION : Z)
      (p : MainParams) (lo hi : Z) :
  0 <= BILLION ->
  check_scans atoi get_range_from_string BILLION p = Done (lo, hi) -> lo <= hi.
Proof.
  intros HB. unfold check_scans. cbv zeta.
  destruct (String.eqb _ _); [intros E; injection E as <- <-; exact HB|].
  destruct (negb _); [intros E; injection E as <- <-; lia|].
  destruct (get_range_from_string _) as [[lo' hi']|]; [|discriminate].
  destruct (Z.ltb_spec hi' lo'); [discriminate|].
  intros E. injection E as <- <-. lia.
Qed.

(** Property X22.  When the checks of [main] are passed (and [BILLION]
    is not negative), the search starts with: a thread count from 1
    to 64, unless the count asked for was below 1 and the hardware's
    own count is taken, and exactly 1 in a peptide-centric search; a
    charge to search from 1 to 6, or 0 for "all"; a first scan that is
    not above the last; the default bin width whenever exact p-values
    are computed; and Sp scores computed whenever SQT output is on. *)
Theorem main_checks_passed (atoi : string -> Z) (hardware_concurrency : Z)
        (get_range_from_string : string -> option (Z * Z)) (BILLION : Z)
        (p : MainParams) (c : Checked) :
  0 <= BILLION ->
  main_checks atoi hardware_concurrency get_range_from_string BILLION p = Done c ->
  (1 <= NUM_THREADS c <= 64
   \/ (num_threads_param p < 1 /\ NUM_THREADS c = hardware_concurrency))
  /\ (peptide_centric_search p = true -> NUM_THREADS c = 1)
  /\ 0 <= charge_to_search c <= 6
  /\ (charge_to_search c = 0 <-> spectrum_charge p = "all"%string)
  /\ checked_min_scan c <= checked_max_scan c
  /\ (checked_exact_pval c = true -> mz_bin_width_is_default p = true)
  /\ (sqt_output p = true -> compute_sp c = true).
Proof.
  intros HB Hd. unfold main_checks in Hd.
  destruct (check_threads hardware_concurrency p) as [n|] eqn:Ht; [|discriminate].
  destruct (check_charge atoi p) as [ch|] eqn:Hc; [|discriminate].
  destruct (check_scans atoi get_range_from_string BILLION p) as [[lo hi]|] eqn:Hs;
    [|discriminate].
  destruct (check_bin_width p) as [[]|] eqn:Hw; [|discriminate].
  simpl in Hd. injection Hd as <-.
  cbn [NUM_THREADS charge_to_search checked_min_scan checked_max_scan
       checked_exact_pval compute_sp].
  destruct (check_threads_done _ _ _ Ht) as [Hn Hpc].
  destruct (check_charge_done _ _ _ Hc) as [Hch Hall].
  pose proof (check_scans_done _ _ _ _ _ _ HB Hs) as Hscan.
  split; [exact Hn|]. split; [exact Hpc|]. split; [exact Hch|]. split; [exact Hall|].
  split; [exact Hscan|]. split.
  - intros Hx. unfold check_bin_width in Hw. rewrite Hx in Hw.
    destruct (mz_bin_width_is_default p); [reflexivity|discriminate].
  - intros Hq. rewrite Hq. apply orb_true_r.
Qed.

(** Eight threads, charge 2, the single scan 17. *)
Lemma main_checks_passed_witness :
  (1 <= 8 <= 64 \/ (num_threads_param example_params < 1 /\ 8 = 4))
  /\ (peptide_centric_search example_params = true -> 8 = 1)
  /\ 0 <= 2 <= 6
  /\ (2 = 0 <-> spectrum_charge example_params = "all"%string)
  /\ 17 <= 17
  /\ (true = true -> mz_bin_width_is_default example_params = true)
  /\ (sqt_output example_params = true -> true = true).
Proof.
  exact (main_checks_passed decimal 4 (fun _ => None) 1000000000 example_params
           {| NUM_THREADS := 8; charge_to_search := 2; checked_min_scan := 17;
              checked_max_scan := 17; checked_exact_pval := true; compute_sp := true |}
           ltac:(lia) eq_refl).
Defined.

(** ** The refactored XCorr as a dot product *)

Lemma Zsum_upto_ext (f g : Z -> Z) (k : nat) :
  (forall i, 0 <= i < Z.of_nat k -> f i = g i) -> Zsum_upto f k = Zsum_upto g k.
Proof.
  induction k as [|k IH]; intros Hfg; simpl; [reflexivity|].
  rewrite IH by (intros; apply Hfg; lia). rewrite Hfg by lia. reflexivity.
Qed.

Lemma Zsum_upto_add (f g : Z -> Z) (k : nat) :
  Zsum_upto (fun i => f i + g i) k = Zsum_upto f k + Zsum_upto g k.
Proof. induction k as [|k IH]; simpl; [reflexivity|]. rewrite IH. lia. Qed.

Lemma Zsum_upto_zero (k : nat) : Zsum_upto (fun _ => 0) k = 0.
Proof. induction k as [|k IH]; simpl; [reflexivity|]. rewrite IH. reflexivity. Qed.

Lemma Zsum_upto_single (e : Z -> Z) (q : Z) (k : nat) :
  Zsum_upto (fun i => e i * (if i =? q then 1 else 0)) k
  = if (0 <=? q) && (q <? Z.of_nat k) then e q else 0.
Proof.
  induction k as [|k IH]; simpl Zsum_upto.
  - destruct (Z.leb_spec 0 q), (Z.ltb_spec q (Z.of_nat 0)); simpl; try reflexivity; lia.
  - rewrite IH.
    destruct (Z.leb_spec 0 q), (Z.ltb_spec q (Z.of_nat k)),
      (Z.ltb_spec q (Z.of_nat (S k))), (Z.eqb_spec (Z.of_nat k) q);
      simpl; subst; try lia.
Qed.

(** Summing over the bins what the indicator of a duplicate-free list
    selects is summing over the list. *)
Lemma Zsum_upto_indicator (e : Z -> Z) (peaks : list Z) (k : nat) :
  List.NoDup peaks ->
  List.Forall (fun p => 0 <= p < Z.of_nat k) peaks ->
  Zsum_upto (fun i => e i * indicator peaks i) k
  = fold_right (fun p acc => e p + acc) 0 peaks.
Proof.
  induction 1 as [|q peaks Hq Hnd IH]; intros Hall; simpl fold_right.
  - rewrite (Zsum_upto_ext _ (fun _ => 0)); [apply Zsum_upto_zero|].
    intros i _. unfold indicator. simpl. lia.
  - inversion Hall as [|? ? Hqr Hall']; subst.
    rewrite <- IH by exact Hall'.
    rewrite (Zsum_upto_ext _ (fun i => e i * (if i =? q then 1 else 0)
                                       + e i * indicator peaks i)).
    + rewrite Zsum_upto_add, Zsum_upto_single.
      destruct (Z.leb_spec 0 q), (Z.ltb_spec q (Z.of_nat k)); simpl; lia.
    + intros i _. unfold indicator. simpl.
      destruct (Z.eqb_spec i q) as [->|Hne]; simpl; [|lia].
      destruct (existsb (Z.eqb q) peaks) eqn:E; [|lia].
      exfalso. apply Hq. apply existsb_exists in E. destruct E as (x & Hx & Hqx).
      apply Z.eqb_eq in Hqx. subst x. exact Hx.
Qed.

Lemma intensArrayTheor_spec (maxPrecurMass : Z) (peaks arr : list Z) :
  Z.of_nat (length arr) = maxPrecurMass ->
  List.Forall (fun p => 0 <= p < maxPrecurMass) peaks ->
  forall i, 0 <= i < maxPrecurMass ->
    rd 0 (intensArrayTheor maxPrecurMass peaks arr) i = indicator peaks i.
Proof.
  intros Hlen Hall i Hi. unfold intensArrayTheor.
  set (zeroed := for_up maxPrecurMass (fun ma arr => wr arr ma 0) arr).
  assert (Hz : length zeroed = length arr /\ forall j, 0 <= j < maxPrecurMass -> rd 0 zeroed j = 0).
  { unfold zeroed.
    apply (for_up_inv (fun k a => length a = length arr
                                  /\ forall j, 0 <= j < k -> rd 0 a j = 0)); [lia| |].
    - split; [reflexivity|]. intros; lia.
    - intros k a Hk [Hl Hdone]. rewrite length_wr. split; [exact Hl|].
      intros j Hj. destruct (Z.eq_dec j k) as [->|Hne].
      + apply rd_wr_eq. lia.
      + rewrite rd_wr_ne by lia. apply Hdone. lia. }
  destruct Hz as [Hlz Hzero].
  assert (Hgen : forall a,
            length a = length arr ->
            rd 0 (fold_left (fun arr peak => wr arr peak 1) peaks a) i
            = if existsb (Z.eqb i) peaks then 1 else rd 0 a i).
  { induction peaks as [|p peaks IH]; intros a Hla; simpl; [reflexivity|].
    inversion Hall as [|? ? Hp Hall']; subst.
    rewrite IH by (try exact Hall'; rewrite length_wr; exact Hla).
    destruct (Z.eqb_spec i p) as [->|Hne]; simpl.
    - rewrite rd_wr_eq by lia. destruct (existsb _ _); reflexivity.
    - rewrite rd_wr_ne by lia. reflexivity. }
  rewrite Hgen by exact Hlz. unfold indicator. rewrite Hzero by exact Hi.
  destruct (existsb _ _); reflexivity.
Qed.

Lemma scoreRefactInt_sum (maxPrecurMass : Z) (evidenceObs intens : list Z) :
  0 <= maxPrecurMass ->
  scoreRefactInt maxPrecurMass evidenceObs intens
  = Int32.wrap (Zsum_upto (fun ma => rd 0 evidenceObs ma * rd 0 intens ma)
                          (Z.to_nat maxPrecurMass)).
Proof.
  intros Hn. unfold scoreRefactInt.
  apply (for_up_inv
           (fun k score =>
              score = Int32.wrap (Zsum_upto (fun ma => rd 0 evidenceObs ma * rd 0 intens ma)
                                            (Z.to_nat k)))); [exact Hn|reflexivity|].
  intros k score Hk ->. replace (Z.to_nat (k + 1)) with (S (Z.to_nat k)) by lia.
  simpl Zsum_upto. rewrite Z2Nat.id by lia.
  unfold Int32.add. rewrite wrap_add_l, wrap_add_r. reflexivity.
Qed.

(** Property X23.  The refactored XCorr of a candidate is the sum of
    the evidence at its theoretical peaks, each bin once however often
    the peak list names it, reduced to an [int]. *)
Theorem scoreRefactInt_dot_product (maxPrecurMass : Z)
        (evidenceObs unordered_peak_list arr : list Z) :
  Z.of_nat (length arr) = maxPrecurMass ->
  List.Forall (fun p => 0 <= p < maxPrecurMass) unordered_peak_list ->
  scoreRefactInt maxPrecurMass evidenceObs
    (intensArrayTheor maxPrecurMass unordered_peak_list arr)
  = Int32.wrap (sum_at evidenceObs (nodup Z.eq_dec unordered_peak_list)).
Proof.
  intros Hlen Hall. rewrite scoreRefactInt_sum by lia. f_equal.
  rewrite (Zsum_upto_ext _ (fun i => rd 0 evidenceObs i
                                     * indicator (nodup Z.eq_dec unordered_peak_list) i)).
  - apply (Zsum_upto_indicator (fun i => rd 0 evidenceObs i)).
    + apply NoDup_nodup.
    + rewrite List.Forall_forall in *. intros p Hp. apply nodup_In in Hp.
      specialize (Hall p Hp). simpl in Hall. lia.
  - intros i Hi. rewrite intensArrayTheor_spec by (try assumption; lia).
    f_equal. unfold indicator.
    assert (E : existsb (Z.eqb i) unordered_peak_list
                = existsb (Z.eqb i) (nodup Z.eq_dec unordered_peak_list)).
    { apply eq_true_iff_eq. rewrite !existsb_exists. split; intros (x & Hx & Hix);
        exists x; (split; [|exact Hix]); [apply nodup_In|apply nodup_In in Hx]; exact Hx. }
    rewrite E. reflexivity.
Qed.

(** Five bins, the peak list 2, 0, 2. *)
Lemma scoreRefactInt_dot_product_witness :
  scoreRefactInt 5 [3; -1; 4; 1; 5] (intensArrayTheor 5 [2; 0; 2] [9; 9; 9; 9; 9])
  = Int32.wrap (sum_at [3; -1; 4; 1; 5] (nodup Z.eq_dec [2; 0; 2])).
Proof.
  apply (scoreRefactInt_dot_product 5 [3; -1; 4; 1; 5] [2; 0; 2] [9; 9; 9; 9; 9]).
  - reflexivity.
  - repeat constructor; lia.
Defined.

(** ** Background subtraction of an empty spectrum, in binary64 *)

Section Silence.

Context {hd : Headers spec_float}.

Lemma zero_window (m : spec_float) :
  B64.is_finite m = true ->
  (d0 - m * (d0 - d0 - d0))%D = d0.
Proof.
  intros Hm. destruct m as [s|s| |s mm e]; try discriminate; destruct s; reflexivity.
Qed.

Lemma fill_partial_sums_zero (observed : list spec_float) (end_ : Z) :
  (forall j, rd d0 observed j = d0) ->
  forall j, rd d0 (fill_partial_sums observed end_) j = d0.
Proof.
  intros Hobs. unfold fill_partial_sums.
  assert (HI : forall st : list spec_float * spec_float,
            st = for_up end_
                   (fun i '(ps, total) =>
                      let total := (total + rd d0 observed i)%D in
                      (wr ps i total, total))
                   (replicate (Z.to_nat (end_ + 1)) d0, d0) ->
            (forall j, rd d0 (fst st) j = d0) /\ snd st = d0).
  { intros st ->.
    apply (for_up_preserves
             (fun st : list spec_float * spec_float =>
                (forall j, rd d0 (fst st) j = d0) /\ snd st = d0)).
    - split; [intros j; apply rd_replicate|reflexivity].
    - intros i [ps total] _ [Hps Htot]. cbn [fst snd] in *. subst total.
      cbv zeta. cbn [fst snd]. rewrite Hobs.
      split; [|reflexivity]. intros j.
      destruct (rd_wr_cases d0 ps i j (d0 + d0)%D) as [E|E]; rewrite E;
        [reflexivity|apply Hps]. }
  destruct (for_up end_ _ _) as [ps total] eqn:E.
  destruct (HI (ps, total) eq_refl) as [Hps Htot]. cbn [fst snd] in Hps, Htot. subst total.
  intros j. destruct (rd_wr_cases d0 ps end_ j d0) as [E'|E']; rewrite E';
    [reflexivity|apply Hps].
Qed.

End Silence.

(** Property X24.  In binary64, with a finite [multiplier],
    [SubtractBackground] leaves an array of zeros an array of zeros:
    bins without peaks get no negative background of their own
    making. *)
Theorem SubtractBackground_zeros (hd : Headers spec_float) (n : nat) (end_ : Z) :
  B64.is_finite multiplier = true ->
  forall j, rd d0 (SubtractBackground (replicate n d0) end_) j = d0.
Proof.
  intros Hm. unfold SubtractBackground. cbv zeta.
  pose proof (fill_partial_sums_zero (replicate n d0) end_
                ltac:(intros j; apply rd_replicate)) as Hps.
  apply (for_up_preserves (fun out : list spec_float => forall j, rd d0 out j = d0)).
  - intros j. apply rd_replicate.
  - intros i out _ Hout j. rewrite !Hps, Hout.
    destruct (rd_wr_cases d0 out i j (d0 - multiplier * (d0 - d0 - d0))%D) as [E|E];
      rewrite E; [apply zero_window; exact Hm|apply Hout].
Qed.

(** Two hundred empty bins under the Crux headers, bin 7. *)
Lemma SubtractBackground_zeros_witness :
  rd d0 (SubtractBackground (H0 := Crux.headers) (replicate 200 d0) 200) 7
  = d0 (D := spec_float).
Proof.
  apply (SubtractBackground_zeros Crux.headers 200 200). reflexivity.
Defined.
